(** * My Personal Bank: the ledger, the session gate, the persisted
      state and the offline cache, embedded from the application
      component ([function App]) and the service worker ([sw.js]).

    JavaScript numbers are IEEE 754 binary64 values: they are Rocq's
    primitive [float]s, whose operations are the ones the source applies
    ([+], [-], [*], [/], [<=], [>]).  Strings are sequences of code
    units below 256 (Rocq's [string]); the code units above, which the
    source never inspects, are not represented.  [crypto.randomUUID],
    the clock and the text [JSON.stringify] gives for a ledger are inputs
    of each operation ([Env]); the formatting of the date ([todayISO]) is
    embedded apart, in [Helpers].  An operation is its handler followed
    by the effects of the render it causes; the calls of the service
    worker settle one at a time, in any order. *)

From stdpp Require Import base strings gmap list.
From Stdlib Require Import ZArith Lia Floats Ascii.
From Stdlib Require Uint63 DecimalString Rbase Rfunctions Rbasic_fun Lra.

Local Open Scope Z_scope.
Set Warnings "-register-all".

(** ** The JavaScript built-ins the source calls *)

Module JS.

(** A JavaScript number. *)
Abbreviation number := float.

Definition chars (s : string) : list ascii := String.list_ascii_of_string s.
Definition text (l : list ascii) : string := String.string_of_list_ascii l.

Definition code (c : ascii) : Z := Z.of_N (N_of_ascii c).

(** WhiteSpace and LineTerminator code units (below 256): TAB, LF, VT,
    FF, CR, SP and NBSP. *)
Definition is_space (c : ascii) : bool :=
  let n := code c in
  ((9 <=? n) && (n <=? 13)) || (n =? 32) || (n =? 160).

Fixpoint trimStart (l : list ascii) : list ascii :=
  match l with
  | c :: r => if is_space c then trimStart r else l
  | [] => []
  end.

Definition trimEnd (l : list ascii) : list ascii := rev (trimStart (rev l)).

(** [String.prototype.trim]. *)
Definition trim (s : string) : string := text (trimEnd (trimStart (chars s))).

(** [s.replace(/,/g, '')]. *)
Definition remove_commas (s : string) : string :=
  text (List.filter (fun c => negb (code c =? 44)) (chars s)).

(** Truthiness of a string: the empty string is falsy. *)
Definition truthy (s : string) : bool :=
  match s with EmptyString => false | _ => true end.

(** *** Decimal literals *)

Definition is_digit (c : ascii) : bool := (48 <=? code c) && (code c <=? 57).

(** The longest run of decimal digits at the head of the input. *)
Fixpoint digits (l : list ascii) : list ascii * list ascii :=
  match l with
  | c :: r => if is_digit c then let '(ds, r') := digits r in (c :: ds, r') else ([], l)
  | [] => ([], [])
  end.

Definition digits_value (ds : list ascii) : Z :=
  fold_left (fun acc c => 10 * acc + (code c - 48)) ds 0.

(** An optional sign: [true] for a minus. *)
Definition sign (l : list ascii) : bool * list ascii :=
  match l with
  | c :: r => if code c =? 45 then (true, r)
              else if code c =? 43 then (false, r) else (false, l)
  | [] => (false, [])
  end.

(** ExponentPart, when one follows: [e] or [E], an optional sign and at
    least one digit.  Otherwise the exponent is 0 and nothing is read. *)
Definition exponent (l : list ascii) : Z * list ascii :=
  match l with
  | c :: r =>
      if (code c =? 101) || (code c =? 69) then
        let '(neg, r1) := sign r in
        match digits r1 with
        | ([], _) => (0, l)
        | (ds, r2) => ((if neg then - digits_value ds else digits_value ds), r2)
        end
      else (0, l)
  | [] => (0, [])
  end.

(** The mathematical value [m * 10 ^ e] of a literal, or [Infinity]. *)
Inductive literal : Type :=
| LitInfinity
| LitDecimal (m : Z) (e : Z).

Definition Infinity_word : list ascii := chars "Infinity".

Fixpoint starts_with (p l : list ascii) : option (list ascii) :=
  match p, l with
  | [], _ => Some l
  | a :: p', b :: l' => if (code a =? code b) then starts_with p' l' else None
  | _ :: _, [] => None
  end.

(** StrUnsignedDecimalLiteral: the longest prefix of the input that is
    [Infinity], [digits . digits? exp?], [. digits exp?] or
    [digits exp?]; the rest of the input is returned with it. *)
Definition unsigned_literal (l : list ascii) : option (literal * list ascii) :=
  match starts_with Infinity_word l with
  | Some r => Some (LitInfinity, r)
  | None =>
      let '(ip, r1) := digits l in
      match r1 with
      | c :: r2 =>
          if code c =? 46 then
            let '(fp, r3) := digits r2 in
            match ip, fp with
            | [], [] => None
            | _, _ =>
                let '(e, r4) := exponent r3 in
                Some (LitDecimal (digits_value (ip ++ fp)) (e - Z.of_nat (List.length fp)), r4)
            end
          else
            match ip with
            | [] => None
            | _ => let '(e, r4) := exponent r1 in Some (LitDecimal (digits_value ip) e, r4)
            end
      | [] =>
          match ip with
          | [] => None
          | _ => Some (LitDecimal (digits_value ip) 0, [])
          end
      end
  end.

(** *** Numbers *)

(** The number nearest to an integer (ties to even), as [Number(k)]. *)
Definition Z2float (k : Z) : number := SF2Prim (binary_normalize prec emax k 0 false).

(** The number nearest to [m * 10 ^ e] for [0 <= m] (ties to even),
    signed: the Number value of a decimal literal. *)
Definition decimal_value (neg : bool) (m e : Z) : spec_float :=
  match m with
  | Zpos p =>
      if 0 <=? e
      then binary_normalize prec emax (cond_Zopp neg (Zpos p * 10 ^ e)) 0 false
      else SFdiv prec emax (S754_finite neg p 0)
                           (S754_finite false (Z.to_pos (10 ^ (- e))) 0)
  | _ => S754_zero neg
  end.

Definition literal_value (neg : bool) (v : literal) : number :=
  match v with
  | LitInfinity => if neg then neg_infinity else infinity
  | LitDecimal m e => SF2Prim (decimal_value neg m e)
  end.

(** [Number.parseFloat]: leading white space is skipped, the longest
    prefix that is a StrDecimalLiteral is read, anything after it is
    ignored; [NaN] when there is no such prefix. *)
Definition parseFloat (s : string) : number :=
  let '(neg, r) := sign (trimStart (chars s)) in
  match unsigned_literal r with
  | Some (v, _) => literal_value neg v
  | None => nan
  end.

(** [Number.isFinite]. *)
Definition Number_isFinite (n : number) : bool := is_finite n.

(** The integer nearest to the value [(-1)^s * m * 2^e], ties going
    toward plus infinity: [floor (v + 1/2)]. *)
Definition nearest_integer (s : bool) (m : positive) (e : Z) : Z :=
  let v := cond_Zopp s (Zpos m) in
  if 0 <=? e then v * 2 ^ e
  else (2 * v + 2 ^ (- e)) / 2 ^ (1 - e).

(** The integer [k] as a number; the zero takes the sign of the number
    that was rounded to it. *)
Definition signed_integer (neg : bool) (k : Z) : number :=
  if k =? 0 then (if neg then neg_zero else PrimFloat.zero) else Z2float k.

(** [Math.round]: the integral number closest to [x], the one closer
    to plus infinity of two equally close; [NaN], the infinities and
    the zeros are returned as they are, and a negative [x] that rounds
    to zero gives [-0]. *)
Definition Math_round (x : number) : number :=
  match Prim2SF x with
  | S754_finite s m e => signed_integer s (nearest_integer s m e)
  | _ => x
  end.

(** [Math.min] of two numbers: [NaN] when one of them is [NaN]; of two
    zeros the negative one. *)
Definition Math_min (x y : number) : number :=
  if PrimFloat.is_nan x || PrimFloat.is_nan y then nan
  else if (x <? y)%float then x
  else if (y <? x)%float then y
  else if get_sign x then x else y.

(** Truthiness of a number: the zeros and [NaN] are falsy. *)
Definition truthy_number (n : number) : bool :=
  negb (PrimFloat.is_zero n || PrimFloat.is_nan n).

(** [String(n)] for an integer [n] below [10 ^ 21] in absolute value,
    whose decimal digits are written out in full. *)
Definition String_of_integer (n : Z) : string :=
  DecimalString.NilZero.string_of_int (Z.to_int n).

(** [s.padStart(n, c)] for a filler [c] of one character. *)
Definition padStart (n : nat) (c : ascii) (s : string) : string :=
  text (replicate (n - List.length (chars s)) c ++ chars s).

End JS.

(** ** JSON texts: [JSON.parse] and the one [JSON.stringify] the source
       reads back *)

Module Json.
Import JS.

Inductive json : Type :=
| JNull
| JBool (b : bool)
| JNumber (n : number)
| JString (s : string)
| JArray (items : list json)
| JObject (members : list (string * json)).

(** JSON white space: SP, TAB, LF, CR. *)
Definition is_ws (c : ascii) : bool :=
  let n := code c in (n =? 32) || (n =? 9) || (n =? 10) || (n =? 13).

Fixpoint skip_ws (l : list ascii) : list ascii :=
  match l with
  | c :: r => if is_ws c then skip_ws r else l
  | [] => []
  end.

Definition hex_value (c : ascii) : option Z :=
  let n := code c in
  if (48 <=? n) && (n <=? 57) then Some (n - 48)
  else if (65 <=? n) && (n <=? 70) then Some (n - 55)
  else if (97 <=? n) && (n <=? 102) then Some (n - 87)
  else None.

(** A code unit as a character of the model; the code units above 255
    have no counterpart and are read as a question mark. *)
Definition unit_char (n : Z) : ascii :=
  if n <? 256 then ascii_of_N (Z.to_N n) else ascii_of_N 63.

(** The characters of a string literal after its opening quote, up to
    the closing one.  [fuel] bounds the characters read. *)
Fixpoint string_body (fuel : nat) (l : list ascii) (acc : list ascii)
  : option (string * list ascii) :=
  match fuel with
  | O => None
  | S fuel =>
      match l with
      | [] => None
      | c :: r =>
          let n := code c in
          if n =? 34 then Some (text (rev acc), r)
          else if n <? 32 then None
          else if n =? 92 then
            match r with
            | [] => None
            | d :: r' =>
                let k := code d in
                if (k =? 34) || (k =? 92) || (k =? 47) then string_body fuel r' (d :: acc)
                else if k =? 98 then string_body fuel r' (ascii_of_N 8 :: acc)
                else if k =? 102 then string_body fuel r' (ascii_of_N 12 :: acc)
                else if k =? 110 then string_body fuel r' (ascii_of_N 10 :: acc)
                else if k =? 114 then string_body fuel r' (ascii_of_N 13 :: acc)
                else if k =? 116 then string_body fuel r' (ascii_of_N 9 :: acc)
                else if k =? 117 then
                  match r' with
                  | h1 :: h2 :: h3 :: h4 :: r'' =>
                      match hex_value h1, hex_value h2, hex_value h3, hex_value h4 with
                      | Some a, Some b, Some c', Some d' =>
                          string_body fuel r''
                            (unit_char (((a * 16 + b) * 16 + c') * 16 + d') :: acc)
                      | _, _, _, _ => None
                      end
                  | _ => None
                  end
                else None
            end
          else string_body fuel r (c :: acc)
      end
  end.

(** A JSON number: [-? (0 | [1-9] digits) (. digits+)? exponent?]. *)
Definition number_literal (l : list ascii) : option (number * list ascii) :=
  let '(neg, r0) :=
    match l with
    | c :: r => if code c =? 45 then (true, r) else (false, l)
    | [] => (false, l)
    end in
  let '(ip, r1) := digits r0 in
  match ip with
  | [] => None
  | d :: ip' =>
      if (code d =? 48) && negb (Nat.eqb (List.length ip') 0) then None
      else
        match r1 with
        | c :: r2 =>
            if code c =? 46 then
              let '(fp, r3) := digits r2 in
              match fp with
              | [] => None
              | _ =>
                  let '(e, r4) := exponent r3 in
                  Some (SF2Prim (decimal_value neg (digits_value (ip ++ fp))
                                   (e - Z.of_nat (List.length fp))), r4)
              end
            else
              let '(e, r4) := exponent r1 in
              Some (SF2Prim (decimal_value neg (digits_value ip) e), r4)
        | [] => Some (SF2Prim (decimal_value neg (digits_value ip) 0), [])
        end
  end.

(** A JSON value at the head of the input (after white space), with
    the input that follows it; [None] is a syntax error. *)
Fixpoint value (fuel : nat) (l : list ascii) : option (json * list ascii) :=
  match fuel with
  | O => None
  | S fuel =>
      match skip_ws l with
      | [] => None
      | c :: r =>
          let n := code c in
          if n =? 34 then
            match string_body (S (List.length r)) r [] with
            | Some (s, r') => Some (JString s, r')
            | None => None
            end
          else if n =? 91 then
            match skip_ws r with
            | c' :: r' => if code c' =? 93 then Some (JArray [], r')
                          else elements fuel r []
            | [] => None
            end
          else if n =? 123 then
            match skip_ws r with
            | c' :: r' => if code c' =? 125 then Some (JObject [], r')
                          else members fuel r []
            | [] => None
            end
          else
            match starts_with (chars "null") (c :: r),
                  starts_with (chars "true") (c :: r),
                  starts_with (chars "false") (c :: r) with
            | Some r', _, _ => Some (JNull, r')
            | _, Some r', _ => Some (JBool true, r')
            | _, _, Some r' => Some (JBool false, r')
            | None, None, None =>
                match number_literal (c :: r) with
                | Some (x, r') => Some (JNumber x, r')
                | None => None
                end
            end
      end
  end
with elements (fuel : nat) (l : list ascii) (acc : list json)
  : option (json * list ascii) :=
  match fuel with
  | O => None
  | S fuel =>
      match value fuel l with
      | Some (v, r) =>
          match skip_ws r with
          | c :: r' =>
              if code c =? 44 then elements fuel r' (v :: acc)
              else if code c =? 93 then Some (JArray (rev (v :: acc)), r')
              else None
          | [] => None
          end
      | None => None
      end
  end
with members (fuel : nat) (l : list ascii) (acc : list (string * json))
  : option (json * list ascii) :=
  match fuel with
  | O => None
  | S fuel =>
      match skip_ws l with
      | q :: r0 =>
          if code q =? 34 then
            match string_body (S (List.length r0)) r0 [] with
            | Some (k, r1) =>
                match skip_ws r1 with
                | c :: r2 =>
                    if code c =? 58 then
                      match value fuel r2 with
                      | Some (v, r3) =>
                          match skip_ws r3 with
                          | c' :: r4 =>
                              if code c' =? 44 then members fuel r4 ((k, v) :: acc)
                              else if code c' =? 125
                                   then Some (JObject (rev ((k, v) :: acc)), r4)
                                   else None
                          | [] => None
                          end
                      | None => None
                      end
                    else None
                | [] => None
                end
            | None => None
            end
          else None
      | [] => None
      end
  end.

(** [JSON.parse]: one value, white space around it and nothing else;
    [None] stands for the [SyntaxError] it throws.  Every step of
    [value], [elements] and [members] that uses fuel is followed by the
    reading of a character, so twice the length of the text is enough. *)
Definition JSON_parse (s : string) : option json :=
  let l := chars s in
  match value (2 * List.length l + 2) l with
  | Some (v, r) => match skip_ws r with [] => Some v | _ => None end
  | None => None
  end.

(** Property access [v?.k]: the member of an object, the last one when
    the text repeats the key; [None] is [undefined]. *)
Definition get (v : json) (k : string) : option json :=
  match v with
  | JObject ms =>
      match List.find (fun kv => bool_decide (fst kv = k)) (rev ms) with
      | Some kv => Some (snd kv)
      | None => None
      end
  | _ => None
  end.

(** Truthiness of a parsed value. *)
Definition json_truthy (v : json) : bool :=
  match v with
  | JNull => false
  | JBool b => b
  | JNumber n => negb (PrimFloat.is_zero n || PrimFloat.is_nan n)
  | JString s => truthy s
  | JArray _ | JObject _ => true
  end.

Definition dquote : string := String (ascii_of_N 34) EmptyString.

Definition hex_digit (n : Z) : ascii :=
  if n <? 10 then ascii_of_N (Z.to_N (48 + n)) else ascii_of_N (Z.to_N (87 + n)).

(** QuoteJSONString on the characters of the model. *)
Fixpoint quote_chars (l : list ascii) : list ascii :=
  match l with
  | [] => []
  | c :: r =>
      let n := code c in
      (if n =? 34 then chars "\" ++ [c]
       else if n =? 92 then chars "\\"
       else if n =? 8 then chars "\b"
       else if n =? 12 then chars "\f"
       else if n =? 10 then chars "\n"
       else if n =? 13 then chars "\r"
       else if n =? 9 then chars "\t"
       else if n <? 32 then chars "\u00" ++ [hex_digit (n / 16); hex_digit (n mod 16)]
       else [c]) ++ quote_chars r
  end.

Definition quote (s : string) : string :=
  dquote +:+ text (quote_chars (chars s)) +:+ dquote.

End Json.

(** ** The application: [function App()] of [App.tsx] *)

Module App.
Import JS Json.
Local Open Scope float_scope.

Record User : Type := { name : string }.

(** The declared scopes, and [otherScope]: a stored value that is none
    of them, which the unchecked cast of the load effect lets in. *)
Inductive Scope : Type := checking | savings | both | otherScope.

Record Transaction : Type := {
  id : string;
  date : string;
  description : string;
  amount : number;
  category : string;
  scope : option Scope
}.

Record BankingData : Type := {
  checkingBalance : number;
  savingsBalance : number;
  savingsGoal : option number;
  transactions : list Transaction
}.

Inductive ModalType : Type :=
| transfer | payBills | addMoney | setGoal | settings
| editChecking | editSavings | txDetails.

Inductive TransferDirection : Type := checkingToSavings | savingsToChecking.

Definition SESSION_KEY : string := "mpb.session.v1".
Definition DATA_KEY : string := "mpb.data.v1".

(** What the runtime gives one operation: the results of [makeId()] and
    [todayISO()] during the handler, and the text [JSON.stringify] gives
    for a ledger (its printing of numbers is not modelled). *)
Record Env : Type := {
  makeId : string;
  todayISO : string;
  JSON_stringify : BankingData -> string
}.

Definition emptyData : BankingData :=
  {| checkingBalance := 0; savingsBalance := 0; savingsGoal := None; transactions := [] |}.

(** The component's state (the layout flags [isMobile] and [mobilePage]
    apart) and the browser's [localStorage]. *)
Record State : Type := {
  user : option User;
  username : string;
  password : string;
  error : option string;
  data : BankingData;
  isInitialLoad : bool;
  modal : option ModalType;
  modalError : option string;
  amountInput : string;
  descriptionInput : string;
  selectedTransaction : option Transaction;
  transferDirection : TransferDirection;
  localStorage : gmap string string
}.

(** The state of a freshly loaded page over a given storage. *)
Definition initialState (storage : gmap string string) : State :=
  {| user := None; username := ""; password := ""; error := None;
     data := emptyData; isInitialLoad := true;
     modal := None; modalError := None; amountInput := ""; descriptionInput := "";
     selectedTransaction := None; transferDirection := checkingToSavings;
     localStorage := storage |}.

(** *** State setters *)

Definition setUser (v : option User) (s : State) : State :=
  {| user := v; username := username s; password := password s; error := error s;
     data := data s; isInitialLoad := isInitialLoad s; modal := modal s;
     modalError := modalError s; amountInput := amountInput s;
     descriptionInput := descriptionInput s;
     selectedTransaction := selectedTransaction s;
     transferDirection := transferDirection s; localStorage := localStorage s |}.

Definition setUsername (v : string) (s : State) : State :=
  {| user := user s; username := v; password := password s; error := error s;
     data := data s; isInitialLoad := isInitialLoad s; modal := modal s;
     modalError := modalError s; amountInput := amountInput s;
     descriptionInput := descriptionInput s;
     selectedTransaction := selectedTransaction s;
     transferDirection := transferDirection s; localStorage := localStorage s |}.

Definition setPassword (v : string) (s : State) : State :=
  {| user := user s; username := username s; password := v; error := error s;
     data := data s; isInitialLoad := isInitialLoad s; modal := modal s;
     modalError := modalError s; amountInput := amountInput s;
     descriptionInput := descriptionInput s;
     selectedTransaction := selectedTransaction s;
     transferDirection := transferDirection s; localStorage := localStorage s |}.

Definition setError (v : option string) (s : State) : State :=
  {| user := user s; username := username s; password := password s; error := v;
     data := data s; isInitialLoad := isInitialLoad s; modal := modal s;
     modalError := modalError s; amountInput := amountInput s;
     descriptionInput := descriptionInput s;
     selectedTransaction := selectedTransaction s;
     transferDirection := transferDirection s; localStorage := localStorage s |}.

(** [setData((prev) => f prev)]. *)
Definition setData (f : BankingData -> BankingData) (s : State) : State :=
  {| user := user s; username := username s; password := password s; error := error s;
     data := f (data s); isInitialLoad := isInitialLoad s; modal := modal s;
     modalError := modalError s; amountInput := amountInput s;
     descriptionInput := descriptionInput s;
     selectedTransaction := selectedTransaction s;
     transferDirection := transferDirection s; localStorage := localStorage s |}.

Definition setIsInitialLoad (v : bool) (s : State) : State :=
  {| user := user s; username := username s; password := password s; error := error s;
     data := data s; isInitialLoad := v; modal := modal s;
     modalError := modalError s; amountInput := amountInput s;
     descriptionInput := descriptionInput s;
     selectedTransaction := selectedTransaction s;
     transferDirection := transferDirection s; localStorage := localStorage s |}.

Definition setModal (v : option ModalType) (s : State) : State :=
  {| user := user s; username := username s; password := password s; error := error s;
     data := data s; isInitialLoad := isInitialLoad s; modal := v;
     modalError := modalError s; amountInput := amountInput s;
     descriptionInput := descriptionInput s;
     selectedTransaction := selectedTransaction s;
     transferDirection := transferDirection s; localStorage := localStorage s |}.

Definition setModalError (v : option string) (s : State) : State :=
  {| user := user s; username := username s; password := password s; error := error s;
     data := data s; isInitialLoad := isInitialLoad s; modal := modal s;
     modalError := v; amountInput := amountInput s;
     descriptionInput := descriptionInput s;
     selectedTransaction := selectedTransaction s;
     transferDirection := transferDirection s; localStorage := localStorage s |}.

Definition setAmountInput (v : string) (s : State) : State :=
  {| user := user s; username := username s; password := password s; error := error s;
     data := data s; isInitialLoad := isInitialLoad s; modal := modal s;
     modalError := modalError s; amountInput := v;
     descriptionInput := descriptionInput s;
     selectedTransaction := selectedTransaction s;
     transferDirection := transferDirection s; localStorage := localStorage s |}.

Definition setDescriptionInput (v : string) (s : State) : State :=
  {| user := user s; username := username s; password := password s; error := error s;
     data := data s; isInitialLoad := isInitialLoad s; modal := modal s;
     modalError := modalError s; amountInput := amountInput s;
     descriptionInput := v;
     selectedTransaction := selectedTransaction s;
     transferDirection := transferDirection s; localStorage := localStorage s |}.

Definition setSelectedTransaction (v : option Transaction) (s : State) : State :=
  {| user := user s; username := username s; password := password s; error := error s;
     data := data s; isInitialLoad := isInitialLoad s; modal := modal s;
     modalError := modalError s; amountInput := amountInput s;
     descriptionInput := descriptionInput s;
     selectedTransaction := v;
     transferDirection := transferDirection s; localStorage := localStorage s |}.

Definition setTransferDirection (v : TransferDirection) (s : State) : State :=
  {| user := user s; username := username s; password := password s; error := error s;
     data := data s; isInitialLoad := isInitialLoad s; modal := modal s;
     modalError := modalError s; amountInput := amountInput s;
     descriptionInput := descriptionInput s;
     selectedTransaction := selectedTransaction s;
     transferDirection := v; localStorage := localStorage s |}.

Definition setStorage (f : gmap string string -> gmap string string) (s : State) : State :=
  {| user := user s; username := username s; password := password s; error := error s;
     data := data s; isInitialLoad := isInitialLoad s; modal := modal s;
     modalError := modalError s; amountInput := amountInput s;
     descriptionInput := descriptionInput s;
     selectedTransaction := selectedTransaction s;
     transferDirection := transferDirection s; localStorage := f (localStorage s) |}.

(** [localStorage.getItem], [setItem] and [removeItem]. *)
Definition getItem (k : string) (s : State) : option string := localStorage s !! k.
Definition setItem (k v : string) : State -> State := setStorage (insert k v).
Definition removeItem (k : string) : State -> State := setStorage (delete k).

(** *** Updates of the ledger record ([{ ...prev, field: v }]) *)

Definition withBalances (c v : number) (prev : BankingData) : BankingData :=
  {| checkingBalance := c; savingsBalance := v;
     savingsGoal := savingsGoal prev; transactions := transactions prev |}.

Definition withChecking (c : number) (prev : BankingData) : BankingData :=
  {| checkingBalance := c; savingsBalance := savingsBalance prev;
     savingsGoal := savingsGoal prev; transactions := transactions prev |}.

Definition withSavings (v : number) (prev : BankingData) : BankingData :=
  {| checkingBalance := checkingBalance prev; savingsBalance := v;
     savingsGoal := savingsGoal prev; transactions := transactions prev |}.

Definition withGoal (g : option number) (prev : BankingData) : BankingData :=
  {| checkingBalance := checkingBalance prev; savingsBalance := savingsBalance prev;
     savingsGoal := g; transactions := transactions prev |}.

Definition withTransactions (l : list Transaction) (prev : BankingData) : BankingData :=
  {| checkingBalance := checkingBalance prev; savingsBalance := savingsBalance prev;
     savingsGoal := savingsGoal prev; transactions := l |}.

(** *** Modal dialogs *)

Definition openModal (type : ModalType) (s : State) : State :=
  setTransferDirection checkingToSavings
    (setDescriptionInput "" (setAmountInput "" (setModalError None (setModal (Some type) s)))).

Definition closeModal (s : State) : State :=
  setSelectedTransaction None (setModalError None (setModal None s)).

(** *** Amounts *)

(** [Math.round(x * 100) / 100], the expression every balance update
    and [parseAmount] share. *)
Definition round2 (x : number) : number := Math_round (x * 100) / 100.

Definition parseAmount (raw : string) : option number :=
  let cleaned := trim (remove_commas raw) in
  let n := parseFloat cleaned in
  if negb (Number_isFinite n) || (n <=? 0) then None
  else Some (round2 n).

(** *** The transaction recorder *)

(** The argument of [addTransaction]: a transaction without its [id],
    and with an optional [date]. *)
Record NewTransaction : Type := {
  new_date : option string;
  new_description : string;
  new_amount : number;
  new_category : string;
  new_scope : option Scope
}.

Definition fullTransaction (env : Env) (tx : NewTransaction) : Transaction :=
  {| id := makeId env;
     date := default (todayISO env) (new_date tx);
     description := new_description tx;
     amount := new_amount tx;
     category := new_category tx;
     scope := new_scope tx |}.

Definition addTransaction (env : Env) (tx : NewTransaction) (s : State) : State :=
  let full := fullTransaction env tx in
  setData (fun prev => withTransactions (take 25 (full :: transactions prev)) prev) s.

Definition transactionMatchesScope (tx : Transaction) (sc : Scope) : bool :=
  match default both (scope tx), sc with
  | both, _ => true
  | checking, checking | savings, savings => true
  | _, _ => false
  end.

(** *** Balance operations.  Each handler reads [data] as the render
    that created it saw it (the state it is applied to) and queues its
    updates, which apply in order. *)

Definition onConfirmTransfer (env : Env) (s0 : State) : State :=
  let s := setModalError None s0 in
  match parseAmount (amountInput s0) with
  | None => setModalError (Some "Enter a valid amount.") s
  | Some amount =>
      match transferDirection s0 with
      | checkingToSavings =>
          if checkingBalance (data s0) <? amount
          then setModalError (Some "Not enough funds in Checking.") s
          else
            let s := setData (fun prev =>
                       withBalances (round2 (checkingBalance prev - amount))
                                    (round2 (savingsBalance prev + amount)) prev) s in
            let s := addTransaction env
                       {| new_date := None; new_description := "Transfer to Savings";
                          new_amount := - amount; new_category := "Transfer";
                          new_scope := Some both |} s in
            closeModal s
      | savingsToChecking =>
          if savingsBalance (data s0) <? amount
          then setModalError (Some "Not enough funds in Savings.") s
          else
            let s := setData (fun prev =>
                       withBalances (round2 (checkingBalance prev + amount))
                                    (round2 (savingsBalance prev - amount)) prev) s in
            let s := addTransaction env
                       {| new_date := None; new_description := "Transfer to Checking";
                          new_amount := amount; new_category := "Transfer";
                          new_scope := Some both |} s in
            closeModal s
      end
  end.

Definition onConfirmPayBills (env : Env) (s0 : State) : State :=
  let s := setModalError None s0 in
  let amount := parseAmount (amountInput s0) in
  let desc := trim (descriptionInput s0) in
  if negb (truthy desc) then setModalError (Some "Enter a bill name/description.") s
  else
    match amount with
    | None => setModalError (Some "Enter a valid amount.") s
    | Some amount =>
        if checkingBalance (data s0) <? amount
        then setModalError (Some "Not enough funds in Checking.") s
        else
          let s := setData (fun prev =>
                     withChecking (round2 (checkingBalance prev - amount)) prev) s in
          let s := addTransaction env
                     {| new_date := None; new_description := "Bill Payment: " +:+ desc;
                        new_amount := - amount; new_category := "Bills";
                        new_scope := Some checking |} s in
          closeModal s
    end.

Definition onConfirmAddMoney (env : Env) (s0 : State) : State :=
  let s := setModalError None s0 in
  match parseAmount (amountInput s0) with
  | None => setModalError (Some "Enter a valid amount.") s
  | Some amount =>
      let s := setData (fun prev =>
                 withSavings (round2 (savingsBalance prev + amount)) prev) s in
      let s := addTransaction env
                 {| new_date := None; new_description := "Add Money to Savings";
                    new_amount := amount; new_category := "Income";
                    new_scope := Some savings |} s in
      closeModal s
  end.

Definition onConfirmSetGoal (env : Env) (s0 : State) : State :=
  let s := setModalError None s0 in
  match parseAmount (amountInput s0) with
  | None => setModalError (Some "Enter a valid goal amount.") s
  | Some amount =>
      let s := setData (withGoal (Some amount)) s in
      let s := addTransaction env
                 {| new_date := None; new_description := "Set savings goal";
                    new_amount := 0; new_category := "Goal";
                    new_scope := Some savings |} s in
      closeModal s
  end.

Definition onConfirmEditChecking (env : Env) (s0 : State) : State :=
  let s := setModalError None s0 in
  match parseAmount (amountInput s0) with
  | None => setModalError (Some "Enter a valid balance.") s
  | Some amount =>
      let diff := amount - checkingBalance (data s0) in
      let s := addTransaction env
                 {| new_date := None; new_description := "Balance correction";
                    new_amount := diff; new_category := "Adjustment";
                    new_scope := Some checking |} s in
      let s := setData (withChecking amount) s in
      closeModal s
  end.

Definition onConfirmEditSavings (env : Env) (s0 : State) : State :=
  let s := setModalError None s0 in
  match parseAmount (amountInput s0) with
  | None => setModalError (Some "Enter a valid balance.") s
  | Some amount =>
      let diff := amount - savingsBalance (data s0) in
      let s := addTransaction env
                 {| new_date := None; new_description := "Balance correction";
                    new_amount := diff; new_category := "Adjustment";
                    new_scope := Some savings |} s in
      let s := setData (withSavings amount) s in
      closeModal s
  end.

(** The effect that persists the ledger, run after a render in which
    [data] or [isInitialLoad] changed; [stringify] is [JSON.stringify] on
    ledgers. *)
Definition saveEffect (stringify : BankingData -> string) (s : State) : State :=
  if isInitialLoad s then s
  else setItem DATA_KEY (stringify (data s)) s.

(** *** What the user does: open a dialog, fill it in, confirm *)

Inductive Action : Type :=
| Transfer (direction : TransferDirection) (raw : string)
| PayBills (desc raw : string)
| AddMoney (raw : string)
| SetGoal (raw : string)
| EditChecking (raw : string)
| EditSavings (raw : string).

Definition handle (env : Env) (a : Action) (s : State) : State :=
  match a with
  | Transfer direction raw =>
      onConfirmTransfer env
        (setAmountInput raw (setTransferDirection direction (openModal transfer s)))
  | PayBills desc raw =>
      onConfirmPayBills env
        (setAmountInput raw (setDescriptionInput desc (openModal payBills s)))
  | AddMoney raw => onConfirmAddMoney env (setAmountInput raw (openModal addMoney s))
  | SetGoal raw => onConfirmSetGoal env (setAmountInput raw (openModal setGoal s))
  | EditChecking raw =>
      onConfirmEditChecking env (setAmountInput raw (openModal editChecking s))
  | EditSavings raw =>
      onConfirmEditSavings env (setAmountInput raw (openModal editSavings s))
  end.

(** An operation and the render that follows it.  The save effect
    depends on [data] and [isInitialLoad]: it runs again when the handler
    replaced [data], which every path that accepts does ([setData], then
    [closeModal]) and no path that rejects does ([setModalError] with a
    message, then [return]). *)
Definition perform (env : Env) (a : Action) (s : State) : State :=
  let s' := handle env a s in
  match modalError s' with
  | None => saveEffect (JSON_stringify env) s'
  | Some _ => s'
  end.

(** An operation is accepted when its handler reports no error. *)
Definition accepted (env : Env) (a : Action) (s : State) : Prop :=
  modalError (perform env a s) = None.

(** A sequence of operations, each with the id and the date it draws. *)
Fixpoint run (steps : list (Env * Action)) (s : State) : State :=
  match steps with
  | [] => s
  | (env, a) :: rest => run rest (perform env a s)
  end.

(** Every operation of the sequence is accepted in the state it meets. *)
Fixpoint all_accepted (steps : list (Env * Action)) (s : State) : Prop :=
  match steps with
  | [] => True
  | (env, a) :: rest => accepted env a s /\ all_accepted rest (perform env a s)
  end.

(** The states the application reaches from the empty ledger. *)
Inductive reachable : State -> Prop :=
| reachable_initial storage : reachable (initialState storage)
| reachable_perform env a s : reachable s -> reachable (perform env a s).

(** *** The session gate *)

(** [JSON.stringify] of a [User]. *)
Definition JSON_stringify_User (u : User) : string :=
  "{" +:+ quote "name" +:+ ":" +:+ quote (name u) +:+ "}".

Definition onLogin (s0 : State) : State :=
  let s := setError None s0 in
  let u := trim (username s0) in
  let p := password s0 in
  if negb (truthy u) || negb (truthy p)
  then setError (Some "Please enter username and password.") s
  else if negb (bool_decide (u = "Admin")) || negb (bool_decide (p = "admin123"))
  then setError (Some "Invalid login. Use Admin / admin123.") s
  else
    let sessionUser := {| name := "Admin" |} in
    let s := setItem SESSION_KEY (JSON_stringify_User sessionUser) s in
    setPassword "" (setUsername "" (setUser (Some sessionUser) s)).

Definition onLogout (s : State) : State :=
  setUser None (removeItem SESSION_KEY s).

(** The unchecked casts of parsed JSON to the declared types.  A text
    or a number that is absent or of another runtime type has no
    counterpart in the typed record and is read as the empty string or
    [NaN]: the typed ledger stands for the stored one only when the
    elements of [transactions] are objects whose members have the declared
    types (an element that is [null] makes the render throw, which no
    state of the model stands for).  A scope is kept as the code keeps
    it: absent or [null] is no scope, and any value but the three declared
    ones is [otherScope], which matches no history. *)
Definition as_string (v : option json) : string :=
  match v with Some (JString s) => s | _ => "" end.

Definition as_number (v : option json) : number :=
  match v with Some (JNumber n) => n | _ => nan end.

Definition as_scope (v : option json) : option Scope :=
  match v with
  | Some (JString s) =>
      if bool_decide (s = "checking") then Some checking
      else if bool_decide (s = "savings") then Some savings
      else if bool_decide (s = "both") then Some both
      else Some otherScope
  | Some JNull | None => None
  | Some _ => Some otherScope
  end.

Definition as_Transaction (v : json) : Transaction :=
  {| id := as_string (get v "id");
     date := as_string (get v "date");
     description := as_string (get v "description");
     amount := as_number (get v "amount");
     category := as_string (get v "category");
     scope := as_scope (get v "scope") |}.

(** The effect that restores the session when the page loads. *)
Definition sessionLoadEffect (s : State) : State :=
  match getItem SESSION_KEY s with
  | None => s
  | Some savedSession =>
      if negb (truthy savedSession) then s
      else
        match JSON_parse savedSession with
        | Some parsed =>
            match get parsed "name" with
            | Some v => if json_truthy v
                        then setUser (Some {| name := as_string (Some v) |}) s
                        else s
            | None => s
            end
        | None => removeItem SESSION_KEY s
        end
  end.

(** *** The persisted ledger *)

(** The shape check of the load effect: both balances are numbers and
    [transactions] is an array. *)
Definition valid_shape (parsed : json) : option BankingData :=
  match get parsed "checkingBalance", get parsed "savingsBalance",
        get parsed "transactions" with
  | Some (JNumber c), Some (JNumber v), Some (JArray txs) =>
      Some {| checkingBalance := c;
              savingsBalance := v;
              savingsGoal := match get parsed "savingsGoal" with
                             | Some (JNumber g) => Some g
                             | _ => None
                             end;
              transactions := List.map as_Transaction txs |}
  | _, _, _ => None
  end.

(** The effect that loads the ledger when the page loads. *)
Definition dataLoadEffect (s : State) : State :=
  match getItem DATA_KEY s with
  | None => setIsInitialLoad false s
  | Some raw =>
      if negb (truthy raw) then setIsInitialLoad false s
      else
        match JSON_parse raw with
        | Some parsed =>
            match valid_shape parsed with
            | Some d => setIsInitialLoad false (setData (fun _ => d) s)
            | None => setIsInitialLoad false s
            end
        | None => setIsInitialLoad false (removeItem DATA_KEY s)
        end
  end.

(** [JSON.stringify(emptyData)]. *)
Definition emptyData_text : string :=
  "{" +:+ quote "checkingBalance" +:+ ":0," +:+ quote "savingsBalance" +:+ ":0,"
      +:+ quote "savingsGoal" +:+ ":null," +:+ quote "transactions" +:+ ":[]}".

(** [confirmed] is the answer to the [confirm] dialog. *)
Definition onClearAllData (confirmed : bool) (s : State) : State :=
  if negb confirmed then s
  else closeModal (setItem DATA_KEY emptyData_text (setData (fun _ => emptyData) s)).

(** A page load over the storage a previous page left: a fresh state
    and the effects in the order the component declares them.  After the
    first render the save effect returns at once ([isInitialLoad] is
    still [true] in its closure); [setIsInitialLoad(false)] then causes a
    second render, after which it runs again and writes the ledger. *)
Definition mount (stringify : BankingData -> string) (storage : gmap string string)
  : State :=
  saveEffect stringify (dataLoadEffect (sessionLoadEffect (initialState storage))).

Definition reload (stringify : BankingData -> string) (s : State) : State :=
  mount stringify (localStorage s).

(** *** What the page shows *)

(** The rows of the card "History - Checking activity". *)
Definition inCheckingHistory (t : Transaction) : bool :=
  (bool_decide (category t = "Transfer") || bool_decide (category t = "Bills")
   || bool_decide (category t = "Adjustment"))
  && transactionMatchesScope t checking.

Definition checkingHistory (ts : list Transaction) : list Transaction :=
  List.filter inCheckingHistory ts.

(** The rows of the card "History - Savings activity". *)
Definition inSavingsHistory (t : Transaction) : bool :=
  (bool_decide (category t = "Transfer") || bool_decide (category t = "Income")
   || bool_decide (category t = "Goal") || bool_decide (category t = "Adjustment"))
  && transactionMatchesScope t savings.

Definition savingsHistory (ts : list Transaction) : list Transaction :=
  List.filter inSavingsHistory ts.

(** The rows of the card "History - Goal changes". *)
Definition inGoalHistory (t : Transaction) : bool := bool_decide (category t = "Goal").

Definition goalHistory (ts : list Transaction) : list Transaction :=
  List.filter inGoalHistory ts.

(** The goal card: shown when [data.savingsGoal] is truthy, with the
    percentage of the pill and the width of the bar; [None] is the card
    "No goal set". *)
Definition goalPercent (d : BankingData) : option number :=
  match savingsGoal d with
  | Some goal =>
      if truthy_number goal
      then Some (Math_min 100 (Math_round ((savingsBalance d / goal) * 100)))
      else None
  | None => None
  end.

Definition goalBarWidth (d : BankingData) : option number :=
  match savingsGoal d with
  | Some goal =>
      if truthy_number goal
      then Some (Math_min 100 ((savingsBalance d / goal) * 100))
      else None
  | None => None
  end.

(** [openTransactionDetails]. *)
Definition openTransactionDetails (tx : Transaction) (s : State) : State :=
  setModal (Some txDetails) (setSelectedTransaction (Some tx) s).

End App.

(** ** The service worker: [sw.js] *)

Module SW.

Record Request : Type := { method : string; mode : string; url : string }.

(** A response is kept as an opaque body. *)
Record Response : Type := { body : string }.

(** A cache maps the URL of a GET request to a response; the cache
    storage lists the named caches in the order they were created. *)
Abbreviation Cache := (gmap string Response).
Abbreviation CacheStorage := (list (string * gmap string Response)).

Definition CACHE_NAME : string := "mypersonalbank-cache-v1".

Definition APP_SHELL : list string :=
  ["/"; "/index.html"; "/manifest.webmanifest"; "/Images/Logobank.png"].

(** [caches.match]: the first cache, in creation order, that holds the
    URL answers. *)
Fixpoint caches_match (cs : CacheStorage) (u : string) : option Response :=
  match cs with
  | [] => None
  | (_, c) :: rest =>
      match c !! u with
      | Some r => Some r
      | None => caches_match rest u
      end
  end.

(** [caches.open(name).then(cache => cache.put(u, r))]: the cache is
    created, last, when there is none of that name. *)
Fixpoint caches_put (name u : string) (r : Response) (cs : CacheStorage) : CacheStorage :=
  match cs with
  | [] => [(name, {[ u := r ]})]
  | (n, c) :: rest =>
      if bool_decide (n = name) then (n, <[ u := r ]> c) :: rest
      else (n, c) :: caches_put name u r rest
  end.

(** The cache of a given name, when there is one. *)
Fixpoint caches_lookup (name : string) (cs : CacheStorage) : option (gmap string Response) :=
  match cs with
  | [] => None
  | (n, c) :: rest => if bool_decide (n = name) then Some c else caches_lookup name rest
  end.

(** What the handler does with a fetch event: nothing (the browser
    handles the request), or [respondWith] a response, [None] when the
    promise resolves with [undefined]. *)
Inductive Outcome : Type :=
| NotHandled
| RespondWith (r : option Response).

(** The fetch handler, for an event whose promises all settle before
    any other event: [network] answers [fetch(request)] with a response,
    or with [None] when the fetch rejects.  Events that overlap are
    followed call by call in [step], below. *)
Definition onFetch (network : Request -> option Response) (request : Request)
    (cs : CacheStorage) : Outcome * CacheStorage :=
  if negb (bool_decide (method request = "GET")) then (NotHandled, cs)
  else
    match caches_match cs (url request) with
    | Some cached => (RespondWith (Some cached), cs)
    | None =>
        match network request with
        | Some response =>
            (RespondWith (Some response), caches_put CACHE_NAME (url request) response cs)
        | None =>
            if bool_decide (mode request = "navigate")
            then (RespondWith (caches_match cs "/"), cs)
            else (RespondWith None, cs)
        end
    end.

(** [caches.open(name)]: the cache is created, last, when there is none
    of that name. *)
Fixpoint caches_open (name : string) (cs : CacheStorage) : CacheStorage :=
  match cs with
  | [] => [(name, ∅)]
  | (n, c) :: rest =>
      if bool_decide (n = name) then (n, c) :: rest
      else (n, c) :: caches_open name rest
  end.

(** The request [cache.addAll] makes for a URL. *)
Definition shell_request (u : string) : Request :=
  {| method := "GET"; mode := "cors"; url := u |}.

(** The fetches of [cache.addAll]: every URL is fetched, and the whole
    fails when one fetch rejects or answers with a response that is not
    [ok]. *)
Fixpoint fetch_all (network : Request -> option Response) (ok : Response -> bool)
    (urls : list string) : option (list (string * Response)) :=
  match urls with
  | [] => Some []
  | u :: rest =>
      match network (shell_request u) with
      | Some r =>
          if ok r then
            match fetch_all network ok rest with
            | Some entries => Some ((u, r) :: entries)
            | None => None
            end
          else None
      | None => None
      end
  end.

Definition put_all (name : string) (entries : list (string * Response)) (cs : CacheStorage)
  : CacheStorage :=
  fold_left (fun acc e => caches_put name (fst e) (snd e) acc) entries cs.

(** The install handler: the cache is opened and the application shell
    is added to it; the flag tells whether the promise given to
    [waitUntil] resolves. *)
Definition onInstall (network : Request -> option Response) (ok : Response -> bool)
    (cs : CacheStorage) : bool * CacheStorage :=
  let opened := caches_open CACHE_NAME cs in
  match fetch_all network ok APP_SHELL with
  | Some entries => (true, put_all CACHE_NAME entries opened)
  | None => (false, opened)
  end.

(** The activate handler: every cache of another name is deleted. *)
Definition onActivate (cs : CacheStorage) : CacheStorage :=
  List.filter (fun nc => bool_decide (fst nc = CACHE_NAME)) cs.

(** *** Fetch events over time

    [caches.match], [fetch], [caches.open] and [cache.put] are
    asynchronous, and the handler does not wait for the [put] before it
    answers: the events of several requests overlap.  A task is a fetch
    event at one of its pending calls. *)
Inductive Task : Type :=
| Matching (network : Request -> option Response) (request : Request)
| Fetching (network : Request -> option Response) (request : Request)
| MatchingRoot (request : Request)
| Opening (request : Request) (response : Response)
| Putting (request : Request) (response : Response).

(** The worker between two steps: the caches and the pending calls. *)
Record World : Type := { caches : CacheStorage; pending : list Task }.

(** What happens next: a fetch event arrives, with the network its
    [fetch] will meet, or the pending call at a given position settles. *)
Inductive Event : Type :=
| Arrives (network : Request -> option Response) (request : Request)
| Settles (i : nat).

(** One step, with the answer it gives to a request, if any.  The
    response of the network is returned when the fetch settles; the
    [open] and the [put] that store it settle later, on their own. *)
Definition step (e : Event) (w : World) : option (Request * Outcome) * World :=
  match e with
  | Arrives network request =>
      if negb (bool_decide (method request = "GET")) then (Some (request, NotHandled), w)
      else (None, {| caches := caches w;
                     pending := pending w ++ [Matching network request] |})
  | Settles i =>
      match pending w !! i with
      | None => (None, w)
      | Some t =>
          let others := delete i (pending w) in
          match t with
          | Matching network request =>
              match caches_match (caches w) (url request) with
              | Some cached =>
                  (Some (request, RespondWith (Some cached)),
                   {| caches := caches w; pending := others |})
              | None =>
                  (None, {| caches := caches w;
                            pending := others ++ [Fetching network request] |})
              end
          | Fetching network request =>
              match network request with
              | Some response =>
                  (Some (request, RespondWith (Some response)),
                   {| caches := caches w;
                      pending := others ++ [Opening request response] |})
              | None =>
                  if bool_decide (mode request = "navigate")
                  then (None, {| caches := caches w;
                                 pending := others ++ [MatchingRoot request] |})
                  else (Some (request, RespondWith None),
                        {| caches := caches w; pending := others |})
              end
          | MatchingRoot request =>
              (Some (request, RespondWith (caches_match (caches w) "/")),
               {| caches := caches w; pending := others |})
          | Opening request response =>
              (None, {| caches := caches_open CACHE_NAME (caches w);
                        pending := others ++ [Putting request response] |})
          | Putting request response =>
              (None, {| caches := caches_put CACHE_NAME (url request) response (caches w);
                        pending := others |})
          end
      end
  end.

(** A sequence of steps; the answers are listed in order. *)
Fixpoint steps (events : list Event) (w : World) : list (Request * Outcome) * World :=
  match events with
  | [] => ([], w)
  | e :: rest =>
      let '(answer, w1) := step e w in
      let '(answers, w2) := steps rest w1 in
      (match answer with Some a => a :: answers | None => answers end, w2)
  end.

End SW.

(** ** The helpers of [App.tsx] outside the component *)

Module Helpers.
Import JS.

(** What [todayISO] reads of [new Date()]: the year, the month counted
    from 0 and the day of the month, in local time. *)
Record Date : Type := { getFullYear : Z; getMonth : Z; getDate : Z }.

Definition todayISO (d : Date) : string :=
  let yyyy := getFullYear d in
  let mm := padStart 2 "0" (String_of_integer (getMonth d + 1)) in
  let dd := padStart 2 "0" (String_of_integer (getDate d)) in
  String_of_integer yyyy +:+ "-" +:+ mm +:+ "-" +:+ dd.

End Helpers.

(** * The vocabulary of the statements *)

Import JS Json App.

(** The transaction a transfer to savings of [X] records. *)
Definition to_savings_tx (env : Env) (X : number) : Transaction :=
  {| id := makeId env; date := todayISO env; description := "Transfer to Savings";
     amount := (- X)%float; category := "Transfer"; scope := Some both |}.

(** The transaction a transfer to checking of [X] records. *)
Definition to_checking_tx (env : Env) (X : number) : Transaction :=
  {| id := makeId env; date := todayISO env; description := "Transfer to Checking";
     amount := X; category := "Transfer"; scope := Some both |}.

(** What the state of the dialog says of a confirmed transfer. *)
Definition transferred (s s' : State) (C' S' : number) (tx : Transaction) : Prop :=
  checkingBalance (data s') = C' /\
  savingsBalance (data s') = S' /\
  savingsGoal (data s') = savingsGoal (data s) /\
  transactions (data s') = take 25 (tx :: transactions (data s)) /\
  head (transactions (data s')) = Some tx /\
  modalError s' = None /\ modal s' = None.

(** The examples never read the stored ledger back: they let every ledger
    be stored as the same text. *)
Definition demo_stringify : BankingData -> string := fun _ => emptyData_text.

Definition demo_env : Env :=
  {| makeId := "tx-1"; todayISO := "2026-01-15"; JSON_stringify := demo_stringify |}.

Definition demo_ledger : BankingData :=
  {| checkingBalance := 500; savingsBalance := 1000; savingsGoal := None;
     transactions := [] |}.

(** A state whose ledger is [demo_ledger], with the transfer dialog
    filled in. *)
Definition demo_transfer (direction : TransferDirection) (raw : string) : State :=
  setAmountInput raw (setTransferDirection direction
    (openModal transfer (setData (fun _ => demo_ledger) (initialState ∅)))).

(** [k - 1/2 <= x < k + 1/2], for a finite [x]. *)
Definition is_nearest_integer (x : spec_float) (k : Z) : Prop :=
  match x with
  | S754_zero _ => k = 0
  | S754_finite s m e =>
      let v := cond_Zopp s (Zpos m) in
      if 0 <=? e then k = v * 2 ^ e
      else (2 * k - 1) * 2 ^ (- e) <= 2 * v < (2 * k + 1) * 2 ^ (- e)
  | _ => False
  end.

(** The rounding as the specification words it, round-half-away-from-zero
    at the cent boundary: the exact value of the number, in cents, goes to
    the nearest integer, the half-cent away from zero, and the result is
    the number nearest to that many hundredths. *)
Definition half_away_cents (x : number) : number :=
  match Prim2SF x with
  | S754_finite s m e =>
      SF2Prim (decimal_value s (nearest_integer false (100 * m) e) (-2))
  | _ => x
  end.

(** Amount parsing as the specification words it. *)
Definition spec_parseAmount (raw : string) : option number :=
  let n := parseFloat (trim (remove_commas raw)) in
  if negb (Number_isFinite n) || (n <=? 0)%float then None
  else Some (half_away_cents n).

(** The ids the operations of a sequence draw, in order. *)
Definition ids (steps : list (Env * Action)) : list string :=
  List.map (fun step => makeId (fst step)) steps.

(** Twenty-six deposits, with the ids [A] to [Z]. *)
Definition demo_steps : list (Env * Action) :=
  List.map (fun c => ({| makeId := String c EmptyString; todayISO := "2026-01-15";
                         JSON_stringify := demo_stringify |},
                      AddMoney "1"))
           (chars "ABCDEFGHIJKLMNOPQRSTUVWXYZ").

(** The transaction the payment of the electricity bill records. *)
Definition electricity_tx (env : Env) : Transaction :=
  {| id := makeId env; date := todayISO env;
     description := "Bill Payment: Electricity"; amount := (-75)%float;
     category := "Bills"; scope := Some checking |}.



Definition Admin : User := {| name := "Admin" |}.

(** The worker with no call pending. *)
Definition idle (cs : SW.CacheStorage) : SW.World :=
  {| SW.caches := cs; SW.pending := [] |}.

(** One fetch event and the settlements of all its calls, with no other
    event in between. *)
Definition alone (network : SW.Request -> option SW.Response) (request : SW.Request)
  : list SW.Event :=
  [SW.Arrives network request; SW.Settles 0; SW.Settles 0; SW.Settles 0; SW.Settles 0].

(** Two events for one request that overlap: both look the caches up
    before either fetch answers; then both fetches answer, both caches
    open, and the response of the first is stored.  The [put] of the
    second is left pending. *)
Definition overlapping (n1 n2 : SW.Request -> option SW.Response) (request : SW.Request)
  : list SW.Event :=
  [SW.Arrives n1 request; SW.Arrives n2 request;
   SW.Settles 0; SW.Settles 0; SW.Settles 0; SW.Settles 0;
   SW.Settles 0; SW.Settles 0; SW.Settles 0].

(** The task is past its cache lookup for the URL: its fetch, the
    lookup of the root document or the storing of its response is
    pending. *)
Definition past_match (u : string) (t : SW.Task) : bool :=
  match t with
  | SW.Matching _ _ => false
  | SW.Fetching _ request | SW.MatchingRoot request
  | SW.Opening request _ | SW.Putting request _ => bool_decide (SW.url request = u)
  end.

(** No event for the URL is past its cache lookup. *)
Definition settled_for (u : string) (w : SW.World) : Prop :=
  Forall (fun t => past_match u t = false) (SW.pending w).

(** An answer to a GET request of the URL is the response [r]. *)
Definition answers_with (u : string) (r : SW.Response) (a : SW.Request * SW.Outcome) : Prop :=
  SW.url (fst a) = u -> SW.method (fst a) = "GET" -> snd a = SW.RespondWith (Some r).

(** The ledger after the checking balance was edited to
    45,035,996,273,704.96, which is [2 ^ 52] cents. *)
Definition large_balance : State :=
  perform demo_env (EditChecking "45035996273704.96") (initialState ∅).

(** A network that answers every request with the same page. *)
Definition demo_network (_ : SW.Request) : option SW.Response :=
  Some {| SW.body := "<html>" |}.

(** A value with two decimals: a finite number that is an integer
    number of cents divided by 100. *)
Definition two_decimals (b : number) : Prop :=
  is_finite b = true /\ exists neg k, b = (signed_integer neg k / 100)%float.

(** A balance comes out of the rounding expression. *)
Definition rounded (b : number) : Prop := exists y, b = round2 y.

(** A number that is not negative: a zero, a positive number, plus
    infinity or [NaN]. *)
Definition not_negative (x : spec_float) : Prop :=
  match x with
  | S754_infinity true | S754_finite true _ _ => False
  | _ => True
  end.

(** A balance that is not negative: [b < 0] does not hold. *)
Definition not_below_zero (b : number) : Prop := (b <? 0)%float = false.

(** The transaction an operation records: the id and the date it drew,
    and what the operation says. *)
Definition recorded (env : Env) (text : string) (x : number) (cat : string) (sc : Scope)
  : Transaction :=
  {| id := makeId env; date := todayISO env; description := text; amount := x;
     category := cat; scope := Some sc |}.

(** The ledger before and after one operation, with the message the
    operation leaves: a rejected operation changes nothing; an accepted
    one changes the balances or the goal as its row of the table says and
    records one transaction. *)
Inductive ledger_step (env : Env) (d : BankingData) : option string -> BankingData -> Prop :=
| step_rejected (msg : string) : ledger_step env d (Some msg) d
| step_to_savings (raw : string) (x : number) :
    parseAmount raw = Some x ->
    (checkingBalance d <? x)%float = false ->
    ledger_step env d None
      {| checkingBalance := round2 (checkingBalance d - x);
         savingsBalance := round2 (savingsBalance d + x);
         savingsGoal := savingsGoal d;
         transactions := take 25 (to_savings_tx env x :: transactions d) |}
| step_to_checking (raw : string) (x : number) :
    parseAmount raw = Some x ->
    (savingsBalance d <? x)%float = false ->
    ledger_step env d None
      {| checkingBalance := round2 (checkingBalance d + x);
         savingsBalance := round2 (savingsBalance d - x);
         savingsGoal := savingsGoal d;
         transactions := take 25 (to_checking_tx env x :: transactions d) |}
| step_pay_bill (desc raw : string) (x : number) :
    parseAmount raw = Some x ->
    (checkingBalance d <? x)%float = false ->
    ledger_step env d None
      {| checkingBalance := round2 (checkingBalance d - x);
         savingsBalance := savingsBalance d;
         savingsGoal := savingsGoal d;
         transactions :=
           take 25 (recorded env ("Bill Payment: " +:+ desc) (- x) "Bills" checking
                      :: transactions d) |}
| step_add_money (raw : string) (x : number) :
    parseAmount raw = Some x ->
    ledger_step env d None
      {| checkingBalance := checkingBalance d;
         savingsBalance := round2 (savingsBalance d + x);
         savingsGoal := savingsGoal d;
         transactions :=
           take 25 (recorded env "Add Money to Savings" x "Income" savings
                      :: transactions d) |}
| step_set_goal (raw : string) (x : number) :
    parseAmount raw = Some x ->
    ledger_step env d None
      {| checkingBalance := checkingBalance d;
         savingsBalance := savingsBalance d;
         savingsGoal := Some x;
         transactions :=
           take 25 (recorded env "Set savings goal" 0 "Goal" savings :: transactions d) |}
| step_edit_checking (raw : string) (x : number) :
    parseAmount raw = Some x ->
    ledger_step env d None
      {| checkingBalance := x;
         savingsBalance := savingsBalance d;
         savingsGoal := savingsGoal d;
         transactions :=
           take 25 (recorded env "Balance correction" (x - checkingBalance d)
                      "Adjustment" checking :: transactions d) |}
| step_edit_savings (raw : string) (x : number) :
    parseAmount raw = Some x ->
    ledger_step env d None
      {| checkingBalance := checkingBalance d;
         savingsBalance := x;
         savingsGoal := savingsGoal d;
         transactions :=
           take 25 (recorded env "Balance correction" (x - savingsBalance d)
                      "Adjustment" savings :: transactions d) |}.

(** A number that is [>= 0]: a zero, a positive number or plus infinity. *)
Definition non_negative (x : spec_float) : Prop :=
  match x with
  | S754_zero _ | S754_finite false _ _ | S754_infinity false => True
  | _ => False
  end.

(** A zero, a finite number or an infinity of sign [s]: what a rounding
    gives. *)
Definition signed_as (s : bool) (x : spec_float) : Prop :=
  match x with
  | S754_zero s' | S754_infinity s' | S754_finite s' _ _ => s' = s
  | S754_nan => False
  end.

(** White space or a comma: what [parseAmount] removes around a number. *)
Definition is_padding (c : ascii) : Prop := is_space c = true \/ code c = 44.

(** The histories in which the transaction of an operation shows:
    checking, savings, goal. *)
Definition shown_in (a : Action) : bool * bool * bool :=
  match a with
  | Transfer _ _ => (true, true, false)
  | PayBills _ _ => (true, false, false)
  | AddMoney _ => (false, true, false)
  | SetGoal _ => (false, true, true)
  | EditChecking _ => (true, false, false)
  | EditSavings _ => (false, true, false)
  end.

(** The transaction [t] is the first row of a history, or no row of it. *)
Definition first_row_or_absent (shown : bool) (t : Transaction) (rows : list Transaction)
  : Prop :=
  if shown then head rows = Some t else ~ In t rows.

(** The dialog an operation is entered in, and the amount text typed. *)
Definition dialog_of (a : Action) : ModalType :=
  match a with
  | Transfer _ _ => transfer
  | PayBills _ _ => payBills
  | AddMoney _ => addMoney
  | SetGoal _ => setGoal
  | EditChecking _ => editChecking
  | EditSavings _ => editSavings
  end.

Definition amount_text (a : Action) : string :=
  match a with
  | Transfer _ raw | PayBills _ raw | AddMoney raw | SetGoal raw
  | EditChecking raw | EditSavings raw => raw
  end.

(** A transaction shows in the checking or in the savings history, and
    in the savings history when it shows in the goal history. *)
Definition visible (t : Transaction) : Prop :=
  inCheckingHistory t || inSavingsHistory t = true /\
  (inGoalHistory t = true -> inSavingsHistory t = true).

(** The goal, when one is set, is [>= 0]. *)
Definition goal_non_negative (d : BankingData) : Prop :=
  match savingsGoal d with
  | Some goal => non_negative (Prim2SF goal)
  | None => True
  end.

(** The record is one the load effects remove: a text that is not empty
    and that [JSON.parse] rejects. *)
Definition unparsable (record : option string) : bool :=
  match record with
  | Some raw => truthy raw && match JSON_parse raw with Some _ => false | None => true end
  | None => false
  end.

(** The URL is held by the first cache of the given name. *)
Definition holds (name u : string) (r : SW.Response)
    (cs : list (string * gmap string SW.Response)) : Prop :=
  exists c, SW.caches_lookup name cs = Some c /\ c !! u = Some r.

(** The characters are [k] decimal digits that denote [n]. *)
Definition field (k : nat) (n : Z) (l : list ascii) : bool :=
  Nat.eqb (List.length l) k && forallb is_digit l && (digits_value l =? n).

(** ** The ledger in whole cents *)

(** The record of a shift stands for the value [V / U]: the mantissa is
    its integer part, the round bit tells whether the rest reaches one
    half, the sticky bit whether the rest is neither zero nor one half. *)
Definition inbetween (V U : Z) (mrs : shr_record) : Prop :=
  let rest := V - shr_m mrs * U in
  0 < U /\ 0 <= rest < U /\
  shr_r mrs = (U <=? 2 * rest) /\
  shr_s mrs = negb (rest =? 0) && negb (2 * rest =? U).

(** A positive normal number: a mantissa of 53 digits, and an exponent
    of the format. *)
Definition normal (m : positive) (e : Z) : Prop :=
  2 ^ 52 <= Z.pos m < 2 ^ 53 /\ -1074 <= e <= 971.

(** The real value of a positive number. *)
Definition val (m : positive) (e : Z) : Rdefinitions.R :=
  Rdefinitions.Rmult (Rdefinitions.IZR (Z.pos m))
    (Rfunctions.powerRZ (Rdefinitions.IZR 2) e).

(** The number [x] is positive and normal, and within [2 ^ -53] of the
    real [v], relatively: what a rounding to nearest gives for [v]. *)
Definition near (v : Rdefinitions.R) (x : spec_float) : Prop :=
  exists (m : positive) (e : Z),
    x = S754_finite false m e /\ normal m e /\
    Rdefinitions.Rle (Rbasic_fun.Rabs (Rdefinitions.Rminus (val m e) v))
      (Rdefinitions.Rmult v (Rfunctions.powerRZ (Rdefinitions.IZR 2) (-53))).

(** The balance of [k] cents, as the code computes it: the result of
    [Math.round], divided by 100. *)
Definition cents (k : Z) : number := (signed_integer false k / 100)%float.

(** The ledger in whole cents: the balances of checking and savings
    after an operation of [x] cents. *)
Definition cents_after (a : Action) (x c v : Z) : Z * Z :=
  match a with
  | Transfer checkingToSavings _ => if x <=? c then (c - x, v + x) else (c, v)
  | Transfer savingsToChecking _ => if x <=? v then (c + x, v - x) else (c, v)
  | PayBills desc _ => if truthy (trim desc) && (x <=? c) then (c - x, v) else (c, v)
  | AddMoney _ => (c, v + x)
  | SetGoal _ => (c, v)
  | EditChecking _ => (x, v)
  | EditSavings _ => (c, x)
  end.

(** A sequence of operations on the ledger in whole cents; [xs] lists
    the cents of their amounts. *)
Fixpoint cents_run (steps : list (Env * Action)) (xs : list Z) (cv : Z * Z) : Z * Z :=
  match steps, xs with
  | (_, a) :: steps', x :: xs' => cents_run steps' xs' (cents_after a x (fst cv) (snd cv))
  | _, _ => cv
  end.

(** The amount of the operation parses to [x] cents. *)
Definition amount_in_cents (step : Env * Action) (x : Z) : Prop :=
  parseAmount (amount_text (snd step)) = Some (cents x) /\ 0 <= x.

Definition total_cents (xs : list Z) : Z := fold_right Z.add 0 xs.

(** The characters of a text, its commas aside. *)
Definition without_commas (raw : string) : list ascii :=
  List.filter (fun c => negb (code c =? 44)) (chars raw).

(** All the characters are decimal digits. *)
Definition all_digits (l : list ascii) : Prop := Forall (fun c => is_digit c = true) l.

(** * Properties *)

(** ** Comparisons of numbers *)

Section Comparison.

Lemma SFcompare_swap (x y : spec_float) :
  SFcompare y x = option_map CompOpp (SFcompare x y).
Proof.
  destruct x as [sx|sx| |sx mx ex], y as [sy|sy| |sy my ey]; simpl;
    try reflexivity; try (destruct sx; reflexivity); try (destruct sy; reflexivity);
    try (destruct sx, sy; reflexivity).
  assert (Hm : Pos.compare_cont Eq my mx = CompOpp (Pos.compare_cont Eq mx my))
    by (rewrite (Pos.compare_cont_antisym mx my Eq); reflexivity).
  destruct sx, sy; simpl; try reflexivity;
    rewrite (Z.compare_antisym ex ey), Hm;
    destruct (ex ?= ey)%Z; simpl; try reflexivity;
    destruct (Pos.compare_cont Eq mx my); reflexivity.
Qed.

End Comparison.

(** ** Rejected debits *)

(** C2.  A transfer, in either direction, or a bill payment whose parsed
    amount is greater than the balance it debits sets an error message
    and leaves the ledger as it was: both balances, the goal and the
    transaction list. *)
Theorem debit_beyond_balance_rejected (env : Env) (s : State) (X : number) :
  parseAmount (amountInput s) = Some X ->
  (transferDirection s = checkingToSavings ->
   (checkingBalance (data s) <? X)%float = true ->
   modalError (onConfirmTransfer env s) = Some "Not enough funds in Checking." /\
   data (onConfirmTransfer env s) = data s) /\
  (transferDirection s = savingsToChecking ->
   (savingsBalance (data s) <? X)%float = true ->
   modalError (onConfirmTransfer env s) = Some "Not enough funds in Savings." /\
   data (onConfirmTransfer env s) = data s) /\
  ((checkingBalance (data s) <? X)%float = true ->
   modalError (onConfirmPayBills env s)
     = Some (if truthy (trim (descriptionInput s))
             then "Not enough funds in Checking."
             else "Enter a bill name/description.") /\
   data (onConfirmPayBills env s) = data s).
Proof.
  intros Hparse. unfold onConfirmTransfer, onConfirmPayBills. rewrite Hparse.
  split; [| split].
  - intros Hdir Hgt. rewrite Hdir, Hgt. split; reflexivity.
  - intros Hdir Hgt. rewrite Hdir, Hgt. split; reflexivity.
  - intros Hgt. rewrite Hgt.
    destruct (truthy (trim (descriptionInput s))); split; reflexivity.
Qed.

Lemma debit_beyond_balance_rejected_witness :
  let s := demo_transfer checkingToSavings "500.01" in
  modalError (onConfirmTransfer demo_env s) = Some "Not enough funds in Checking." /\
  data (onConfirmTransfer demo_env s) = data s.
Proof.
  refine (proj1 (debit_beyond_balance_rejected demo_env
                   (demo_transfer checkingToSavings "500.01")
                   (round2 (parseFloat "500.01")) _) _ _);
    vm_compute; reflexivity.
Defined.

(** ** Amounts *)

Section Rounding.

(** The finite numbers are the zeros and the numbers [m * 2 ^ e]. *)
Lemma is_finite_spec (x : number) :
  is_finite x = match Prim2SF x with
                | S754_zero _ | S754_finite _ _ _ => true
                | _ => false
                end.
Proof.
  unfold is_finite, PrimFloat.is_nan, PrimFloat.is_infinity.
  rewrite !FloatAxioms.eqb_spec, abs_spec.
  change (Prim2SF infinity) with (S754_infinity false).
  destruct (Prim2SF x) as [s|s| |s m e]; try reflexivity;
    try (destruct s; reflexivity).
  unfold SFeqb; destruct s; simpl;
    rewrite Z.compare_refl, Pos.compare_cont_refl; reflexivity.
Qed.

(** A number is the one its specification denotes. *)
Lemma zero_of_spec (x : number) (s : bool) :
  Prim2SF x = S754_zero s -> x = if s then neg_zero else PrimFloat.zero.
Proof.
  intros H. rewrite <- (SF2Prim_Prim2SF x), H. destruct s; reflexivity.
Qed.

Lemma nearest_integer_spec (s : bool) (m : positive) (e : Z) :
  is_nearest_integer (S754_finite s m e) (nearest_integer s m e).
Proof.
  unfold is_nearest_integer, nearest_integer.
  destruct (Z.leb_spec 0 e) as [He|He]; [reflexivity|].
  set (v := cond_Zopp s (Z.pos m)). set (d := 2 ^ (- e)).
  assert (Hd : 0 < d) by (apply Z.pow_pos_nonneg; lia).
  replace (2 ^ (1 - e)) with (2 * d)
    by (unfold d; rewrite <- Z.pow_succ_r by lia; f_equal; lia).
  pose proof (Z.div_mod (2 * v + d) (2 * d) ltac:(lia)) as Hdm.
  pose proof (Z.mod_pos_bound (2 * v + d) (2 * d) ltac:(lia)) as Hb.
  nia.
Qed.

(** [Math.round] of a finite number is the integer nearest to it. *)
Lemma Math_round_finite (x : number) :
  is_finite x = true ->
  exists neg k, is_nearest_integer (Prim2SF x) k /\ Math_round x = signed_integer neg k.
Proof.
  rewrite is_finite_spec. unfold Math_round.
  destruct (Prim2SF x) as [s|s| |s m e] eqn:Hx; try discriminate; intros _.
  - exists s, 0. split; [reflexivity|]. apply zero_of_spec, Hx.
  - exists s, (nearest_integer s m e). split; [apply nearest_integer_spec|reflexivity].
Qed.

End Rounding.

(** C3, as the claim states it, fails: [parseAmount] multiplies and
    divides in binary64, so an amount whose product by 100 exceeds the
    largest number comes back as [Infinity], and a value just under a
    half-cent can be rounded up. *)
Lemma parseAmount_not_half_away :
  parseAmount "1e308" = Some infinity /\
  spec_parseAmount "1e308" = Some (parseFloat "1e308") /\
  parseAmount "1e308" <> spec_parseAmount "1e308" /\
  parseAmount "0.0149999999999999995" = Some (parseFloat "0.02") /\
  spec_parseAmount "0.0149999999999999995" = Some (parseFloat "0.01") /\
  parseAmount "0.0149999999999999995" <> spec_parseAmount "0.0149999999999999995".
Proof.
  repeat split; try (vm_compute; reflexivity); vm_compute; discriminate.
Qed.

(** C3, amended.  [parseAmount] removes the commas and the surrounding
    white space and reads the number [n] at the head of what is left; it
    rejects exactly when [n] is not finite or [n <= 0]; otherwise it
    returns [Math.round(n * 100) / 100] as binary64 arithmetic computes
    it, which, when the product [n * 100] is finite, is the quotient by
    100 of the integer nearest to that product; ["75.004"] gives 75, and
    what follows the number is ignored: ["1,234.5abc"] gives 1234.5. *)
Theorem parseAmount_rounds (raw : string) :
  let n := parseFloat (trim (remove_commas raw)) in
  (parseAmount raw = None <-> is_finite n = false \/ (n <=? 0)%float = true) /\
  (forall v, parseAmount raw = Some v -> v = (Math_round (n * 100) / 100)%float) /\
  (forall v, parseAmount raw = Some v -> is_finite (n * 100) = true ->
     exists neg k, is_nearest_integer (Prim2SF (n * 100)) k /\
                   v = (signed_integer neg k / 100)%float) /\
  parseAmount "75.004" = Some 75%float /\
  parseAmount "1,234.5abc" = Some 1234.5%float.
Proof.
  intros n. unfold parseAmount, Number_isFinite. fold n.
  destruct (is_finite n) eqn:Hfin, (n <=? 0)%float eqn:Hle; simpl;
    (split; [| split; [| split; [| split; vm_compute; reflexivity]]]);
    try (split; [intros; auto; discriminate | intros [|]; congruence]);
    try discriminate.
  - intros v [= <-]. reflexivity.
  - intros v [= <-] Hp. unfold round2.
    destruct (Math_round_finite _ Hp) as (neg & k & Hk & ->). eauto.
Qed.

Lemma parseAmount_rounds_witness :
  exists neg k, is_nearest_integer (Prim2SF (parseFloat "75.004" * 100)) k /\
                75%float = (signed_integer neg k / 100)%float.
Proof.
  apply (proj1 (proj2 (proj2 (parseAmount_rounds "75.004"))) 75%float);
    vm_compute; reflexivity.
Defined.

(** ** The save effect *)

Section SaveEffect.

(** The save effect writes to the storage and to nothing else. *)
Lemma saveEffect_user (stringify : BankingData -> string) (s : State) :
  user (saveEffect stringify s) = user s.
Proof. unfold saveEffect. destruct (isInitialLoad s); reflexivity. Qed.

Lemma saveEffect_data (stringify : BankingData -> string) (s : State) :
  data (saveEffect stringify s) = data s.
Proof. unfold saveEffect. destruct (isInitialLoad s); reflexivity. Qed.

Lemma saveEffect_modalError (stringify : BankingData -> string) (s : State) :
  modalError (saveEffect stringify s) = modalError s.
Proof. unfold saveEffect. destruct (isInitialLoad s); reflexivity. Qed.

Lemma saveEffect_modal (stringify : BankingData -> string) (s : State) :
  modal (saveEffect stringify s) = modal s.
Proof. unfold saveEffect. destruct (isInitialLoad s); reflexivity. Qed.

Lemma saveEffect_selected (stringify : BankingData -> string) (s : State) :
  selectedTransaction (saveEffect stringify s) = selectedTransaction s.
Proof. unfold saveEffect. destruct (isInitialLoad s); reflexivity. Qed.

Lemma saveEffect_amountInput (stringify : BankingData -> string) (s : State) :
  amountInput (saveEffect stringify s) = amountInput s.
Proof. unfold saveEffect. destruct (isInitialLoad s); reflexivity. Qed.

Lemma saveEffect_storage (stringify : BankingData -> string) (s : State) :
  localStorage (saveEffect stringify s)
  = if isInitialLoad s then localStorage s
    else <[DATA_KEY := stringify (data s)]> (localStorage s).
Proof. unfold saveEffect. destruct (isInitialLoad s); reflexivity. Qed.

(** The render that follows a handler leaves what the handler made of
    the ledger and of the dialog. *)
Lemma perform_data (env : Env) (a : Action) (s : State) :
  data (perform env a s) = data (handle env a s).
Proof.
  unfold perform. cbv zeta.
  destruct (modalError (handle env a s)); [reflexivity | apply saveEffect_data].
Qed.

Lemma perform_modalError (env : Env) (a : Action) (s : State) :
  modalError (perform env a s) = modalError (handle env a s).
Proof.
  unfold perform. cbv zeta.
  destruct (modalError (handle env a s)) eqn:E; [exact E|].
  rewrite saveEffect_modalError. exact E.
Qed.

Lemma perform_user (env : Env) (a : Action) (s : State) :
  user (perform env a s) = user (handle env a s).
Proof.
  unfold perform. cbv zeta.
  destruct (modalError (handle env a s)); [reflexivity | apply saveEffect_user].
Qed.

Lemma perform_modal (env : Env) (a : Action) (s : State) :
  modal (perform env a s) = modal (handle env a s).
Proof.
  unfold perform. cbv zeta.
  destruct (modalError (handle env a s)); [reflexivity | apply saveEffect_modal].
Qed.

Lemma perform_selected (env : Env) (a : Action) (s : State) :
  selectedTransaction (perform env a s) = selectedTransaction (handle env a s).
Proof.
  unfold perform. cbv zeta.
  destruct (modalError (handle env a s)); [reflexivity | apply saveEffect_selected].
Qed.

Lemma perform_amountInput (env : Env) (a : Action) (s : State) :
  amountInput (perform env a s) = amountInput (handle env a s).
Proof.
  unfold perform. cbv zeta.
  destruct (modalError (handle env a s)); [reflexivity | apply saveEffect_amountInput].
Qed.

End SaveEffect.

(** ** The steps of the ledger, the transaction recorder and the history *)

Section StepsAndHistory.

Lemma addTransaction_front (env : Env) (tx : NewTransaction) (s : State) :
  transactions (data (addTransaction env tx s))
  = take 25 (fullTransaction env tx :: transactions (data s)).
Proof. reflexivity. Qed.

Lemma take_cons_take {A : Type} (n : nat) (l1 l2 : list A) :
  take n (l1 ++ take n l2) = take n (l1 ++ l2).
Proof.
  rewrite !firstn_app, firstn_firstn. do 2 f_equal. lia.
Qed.

(** Every operation is a step of the ledger. *)
Lemma perform_step (env : Env) (a : Action) (s : State) :
  ledger_step env (data s) (modalError (perform env a s)) (data (perform env a s)).
Proof.
  rewrite perform_modalError, perform_data.
  destruct a as [d raw|desc raw|raw|raw|raw|raw]; cbn -[parseAmount take trim];
    unfold onConfirmTransfer, onConfirmPayBills, onConfirmAddMoney, onConfirmSetGoal,
           onConfirmEditChecking, onConfirmEditSavings; cbn -[parseAmount take trim];
    try destruct (truthy (trim desc)); cbn -[parseAmount take trim];
    try apply step_rejected;
    destruct (parseAmount raw) as [x|] eqn:Hx; cbn -[take]; try apply step_rejected;
    try destruct d; cbn -[take];
    try match goal with
        | |- context [(?b <? x)%float] => destruct (b <? x)%float eqn:Hguard
        end;
    cbn -[take]; try apply step_rejected.
  - exact (step_to_savings env (data s) raw x Hx Hguard).
  - exact (step_to_checking env (data s) raw x Hx Hguard).
  - exact (step_pay_bill env (data s) (trim desc) raw x Hx Hguard).
  - exact (step_add_money env (data s) raw x Hx).
  - exact (step_set_goal env (data s) raw x Hx).
  - exact (step_edit_checking env (data s) raw x Hx).
  - exact (step_edit_savings env (data s) raw x Hx).
Qed.

(** An accepted step records one transaction, with the id it drew. *)
Lemma step_records (env : Env) (d d' : BankingData) :
  ledger_step env d None d' ->
  exists t, id t = makeId env /\ transactions d' = take 25 (t :: transactions d).
Proof.
  inversion 1; subst; eexists; (split; [| reflexivity]); reflexivity.
Qed.

Lemma perform_records (env : Env) (a : Action) (s : State) :
  accepted env a s ->
  exists t, id t = makeId env /\
            transactions (data (perform env a s)) = take 25 (t :: transactions (data s)).
Proof.
  unfold accepted. intros Hacc. apply step_records. rewrite <- Hacc. apply perform_step.
Qed.

Lemma run_history (steps : list (Env * Action)) :
  forall s, (List.length (transactions (data s)) <= 25)%nat ->
  all_accepted steps s ->
  List.map id (transactions (data (run steps s)))
  = take 25 (rev (ids steps) ++ List.map id (transactions (data s))).
Proof.
  induction steps as [|[env a] rest IH]; intros s Hlen Hacc; simpl.
  - rewrite firstn_all2; [reflexivity | rewrite length_map; exact Hlen].
  - destruct Hacc as [Ha Hrest].
    destruct (perform_records env a s Ha) as (t & Hid & Hh).
    rewrite (IH (perform env a s)); [| rewrite Hh; apply firstn_le_length | exact Hrest].
    rewrite Hh, <- firstn_map, take_cons_take. simpl. rewrite Hid, <- app_assoc.
    reflexivity.
Qed.

End StepsAndHistory.

(** C4.  [addTransaction] puts the new transaction in front of the list
    and keeps the first 25 entries; so 26 accepted operations on an empty
    history leave 25 entries, the latest first, and the transaction of the
    first operation is not among them. *)
Theorem history_keeps_latest_25 (steps : list (Env * Action)) (s : State) :
  transactions (data s) = [] ->
  List.length steps = 26%nat ->
  all_accepted steps s ->
  (forall env tx s0,
     transactions (data (addTransaction env tx s0))
     = take 25 (fullTransaction env tx :: transactions (data s0))) /\
  let h := transactions (data (run steps s)) in
  List.length h = 25%nat /\
  List.map id h = rev (tail (ids steps)) /\
  (NoDup (ids steps) ->
   forall first, head (ids steps) = Some first -> first ∉ List.map id h).
Proof.
  intros Hempty Hlen Hacc. split; [intros; apply addTransaction_front|].
  pose proof (run_history steps s) as Hrun.
  rewrite Hempty in Hrun. specialize (Hrun ltac:(simpl; lia) Hacc).
  rewrite app_nil_r in Hrun.
  destruct steps as [|[env a] rest]; [discriminate|].
  simpl in Hlen. injection Hlen as Hlen.
  assert (Hh : List.map id (transactions (data (run ((env, a) :: rest) s)))
               = rev (ids rest)).
  { rewrite Hrun. simpl. rewrite firstn_app, firstn_all2, length_rev.
    - unfold ids. rewrite length_map, Hlen. simpl. apply app_nil_r.
    - rewrite length_rev. unfold ids. rewrite length_map. lia. }
  cbv zeta. split; [| split].
  - rewrite <- (length_map id), Hh, length_rev. unfold ids. rewrite length_map. exact Hlen.
  - exact Hh.
  - intros Hnodup first [= <-]. rewrite Hh. simpl in Hnodup.
    apply NoDup_cons in Hnodup as [Hnotin _].
    intros Hin. apply Hnotin. apply list_elem_of_In, in_rev, list_elem_of_In, Hin.
Qed.

Lemma history_keeps_latest_25_witness :
  let h := transactions (data (run demo_steps (initialState ∅))) in
  List.length h = 25%nat /\
  List.map id h = rev (tail (ids demo_steps)) /\
  "A" ∉ List.map id h.
Proof.
  destruct (proj2 (history_keeps_latest_25 demo_steps (initialState ∅)
                     eq_refl eq_refl ltac:(vm_compute; repeat split)))
    as (Hlen & Hids & Hfirst).
  split; [exact Hlen | split; [exact Hids |]].
  apply Hfirst; [| reflexivity].
  apply (bool_decide_unpack _). vm_compute. exact I.
Defined.

(** ** Paying a bill *)

(** C6.  From the ledger with checking 500, savings 1000, no goal and no
    transaction, paying the bill "Electricity" with the amount "75", or
    with "75.004", which parses to 75, is accepted: checking becomes 425,
    savings stays 1000 and the history is the one transaction
    "Bill Payment: Electricity", amount -75, category Bills, scope
    checking. *)
Theorem pay_electricity_bill (env : Env) (s : State) :
  data s = demo_ledger ->
  let paid := {| checkingBalance := 425; savingsBalance := 1000; savingsGoal := None;
                 transactions := [electricity_tx env] |} in
  parseAmount "75.004" = Some 75%float /\
  data (perform env (PayBills "Electricity" "75") s) = paid /\
  modalError (perform env (PayBills "Electricity" "75") s) = None /\
  data (perform env (PayBills "Electricity" "75.004") s) = paid /\
  modalError (perform env (PayBills "Electricity" "75.004") s) = None.
Proof.
  rewrite !perform_modalError, !perform_data.
  destruct s; simpl; intros ->. repeat split; vm_compute; reflexivity.
Qed.

Lemma pay_electricity_bill_witness :
  data (perform demo_env (PayBills "Electricity" "75")
          (setData (fun _ => demo_ledger) (initialState ∅)))
  = {| checkingBalance := 425; savingsBalance := 1000; savingsGoal := None;
       transactions := [electricity_tx demo_env] |}.
Proof.
  refine (proj1 (proj2 (pay_electricity_bill demo_env
                          (setData (fun _ => demo_ledger) (initialState ∅)) _))).
  reflexivity.
Defined.

(** ** The persisted ledger at load time *)

Section Load.

Lemma dataLoadEffect_initial (s : State) : isInitialLoad (dataLoadEffect s) = false.
Proof.
  unfold dataLoadEffect.
  destruct (getItem DATA_KEY s) as [raw|]; [| reflexivity].
  destruct (negb (truthy raw)); [reflexivity|].
  destruct (JSON_parse raw) as [parsed|]; [| reflexivity].
  destruct (valid_shape parsed); reflexivity.
Qed.

Lemma dataLoadEffect_user (s : State) : user (dataLoadEffect s) = user s.
Proof.
  unfold dataLoadEffect.
  destruct (getItem DATA_KEY s) as [raw|]; [| reflexivity].
  destruct (truthy raw); [| reflexivity]. simpl.
  destruct (JSON_parse raw) as [parsed|]; [| reflexivity].
  destruct (valid_shape parsed); reflexivity.
Qed.


Lemma sessionLoadEffect_storage (s : State) (k : string) :
  localStorage (sessionLoadEffect s) !! k
  = if bool_decide (k = SESSION_KEY) && unparsable (localStorage s !! k)
    then None else localStorage s !! k.
Proof.
  unfold sessionLoadEffect, getItem, unparsable.
  destruct (decide (k = SESSION_KEY)) as [->|Hk].
  - rewrite bool_decide_eq_true_2 by reflexivity. simpl andb.
    destruct (localStorage s !! SESSION_KEY) as [saved|] eqn:Hs; [| exact Hs].
    destruct (truthy saved); simpl; [| exact Hs].
    destruct (JSON_parse saved) as [parsed|]; [| apply lookup_delete_eq].
    destruct (get parsed "name") as [v|]; [| exact Hs].
    destruct (json_truthy v); exact Hs.
  - rewrite (bool_decide_eq_false_2 _ Hk). simpl andb. cbv iota.
    destruct (localStorage s !! SESSION_KEY) as [saved|]; [| reflexivity].
    destruct (negb (truthy saved)); [reflexivity|].
    destruct (JSON_parse saved) as [parsed|]; [| simpl; apply lookup_delete_ne; congruence].
    destruct (get parsed "name") as [v|]; [| reflexivity].
    destruct (json_truthy v); reflexivity.
Qed.

Lemma dataLoadEffect_storage (s : State) (k : string) :
  localStorage (dataLoadEffect s) !! k
  = if bool_decide (k = DATA_KEY) && unparsable (localStorage s !! k)
    then None else localStorage s !! k.
Proof.
  unfold dataLoadEffect, getItem, unparsable.
  destruct (decide (k = DATA_KEY)) as [->|Hk].
  - rewrite bool_decide_eq_true_2 by reflexivity. simpl andb.
    destruct (localStorage s !! DATA_KEY) as [raw|] eqn:Hs; [| exact Hs].
    destruct (truthy raw); simpl; [| exact Hs].
    destruct (JSON_parse raw) as [parsed|]; [| apply lookup_delete_eq].
    destruct (valid_shape parsed); exact Hs.
  - rewrite (bool_decide_eq_false_2 _ Hk). simpl andb. cbv iota.
    destruct (localStorage s !! DATA_KEY) as [raw|]; [| reflexivity].
    destruct (negb (truthy raw)); [reflexivity|].
    destruct (JSON_parse raw) as [parsed|]; [| simpl; apply lookup_delete_ne; congruence].
    destruct (valid_shape parsed); reflexivity.
Qed.


End Load.



(** ** The session gate *)

Section Session.

Lemma stored_session_parses :
  JSON_parse (JSON_stringify_User Admin) = Some (JObject [("name", JString "Admin")]).
Proof. vm_compute. reflexivity. Qed.

(** A page load over a storage that holds the session of [Admin]
    restores it. *)
Lemma session_restored (stringify : BankingData -> string)
    (storage : gmap string string) :
  user (mount stringify (<[SESSION_KEY := JSON_stringify_User Admin]> storage))
  = Some Admin.
Proof.
  unfold mount. rewrite saveEffect_user, dataLoadEffect_user.
  unfold sessionLoadEffect, getItem.
  change (localStorage (initialState ?st)) with st.
  rewrite lookup_insert_eq.
  change (truthy (JSON_stringify_User Admin)) with true. simpl negb. cbv iota.
  rewrite stored_session_parses. reflexivity.
Qed.

End Session.

(** C8, as the claim states it, fails: empty input is answered with
    another message than a wrong pair. *)
Lemma empty_login_has_its_own_message :
  error (onLogin (setPassword "" (setUsername "" (initialState ∅))))
  = Some "Please enter username and password." /\
  error (onLogin (setPassword "letmein" (setUsername "Admin" (initialState ∅))))
  = Some "Invalid login. Use Admin / admin123." /\
  error (onLogin (setPassword "" (setUsername "" (initialState ∅))))
  <> error (onLogin (setPassword "letmein" (setUsername "Admin" (initialState ∅)))).
Proof.
  repeat split; try (vm_compute; reflexivity). vm_compute. discriminate.
Qed.

(** C8, amended.  Login succeeds exactly when the trimmed username is
    ["Admin"] and the password is ["admin123"]; it then stores the session
    marker, which a reload reads back.  Any other pair leaves the user
    and the storage as they were and sets a message that does not say
    which field was wrong: "Please enter username and password." when the
    trimmed username or the password is empty, and "Invalid login. Use
    Admin / admin123." otherwise. *)
Theorem login_gate (s : State) :
  let u := trim (username s) in
  let p := password s in
  (u = "Admin" /\ p = "admin123" ->
   user (onLogin s) = Some Admin /\
   error (onLogin s) = None /\
   localStorage (onLogin s)
   = <[SESSION_KEY := JSON_stringify_User Admin]> (localStorage s) /\
   forall stringify, user (reload stringify (onLogin s)) = Some Admin) /\
  (~ (u = "Admin" /\ p = "admin123") ->
   user (onLogin s) = user s /\
   localStorage (onLogin s) = localStorage s /\
   error (onLogin s)
   = Some (if truthy u && truthy p
           then "Invalid login. Use Admin / admin123."
           else "Please enter username and password.")).
Proof.
  intros u p. unfold reload, onLogin. fold u p. split.
  - intros [-> ->]. simpl. repeat split. intros stringify. apply session_restored.
  - intros Hne.
    destruct (truthy u) eqn:Hu, (truthy p) eqn:Hp; simpl; try (repeat split; fail).
    destruct (decide (u = "Admin")) as [Hu'|Hu'], (decide (p = "admin123")) as [Hp'|Hp'];
      try (exfalso; apply Hne; split; assumption);
      rewrite ?(bool_decide_eq_true_2 _ Hu'), ?(bool_decide_eq_false_2 _ Hu'),
              ?(bool_decide_eq_true_2 _ Hp'), ?(bool_decide_eq_false_2 _ Hp');
      repeat split.
Qed.

Lemma login_gate_witness :
  user (reload (fun _ => emptyData_text)
          (onLogin (setPassword "admin123" (setUsername " Admin " (initialState ∅)))))
  = Some Admin.
Proof.
  refine (proj2 (proj2 (proj2 (proj1
    (login_gate (setPassword "admin123" (setUsername " Admin " (initialState ∅)))) _)))
    (fun _ => emptyData_text)).
  split; vm_compute; reflexivity.
Defined.

(** ** The offline cache *)

Section OfflineCache.

Import SW.

Lemma caches_put_lookup (name u : string) (r : Response) (cs : CacheStorage) :
  exists c, caches_lookup name (caches_put name u r cs) = Some c /\ c !! u = Some r.
Proof.
  induction cs as [|[n c] rest IH]; simpl.
  - rewrite bool_decide_eq_true_2 by reflexivity.
    eexists; split; [reflexivity | apply lookup_singleton_eq].
  - destruct (decide (n = name)) as [Hn|Hn].
    + rewrite (bool_decide_eq_true_2 _ Hn). simpl. rewrite (bool_decide_eq_true_2 _ Hn).
      eexists; split; [reflexivity | apply lookup_insert_eq].
    + rewrite (bool_decide_eq_false_2 _ Hn). simpl. rewrite (bool_decide_eq_false_2 _ Hn).
      exact IH.
Qed.

(** After a response was put under a URL no cache answered, the caches
    answer with it. *)
Lemma caches_put_match (name u : string) (r : Response) (cs : CacheStorage) :
  caches_match cs u = None -> caches_match (caches_put name u r cs) u = Some r.
Proof.
  induction cs as [|[n c] rest IH]; simpl.
  - intros _. rewrite lookup_singleton_eq. reflexivity.
  - destruct (c !! u) as [r'|] eqn:Hc; [discriminate|]. intros Hrest.
    destruct (bool_decide (n = name)); simpl.
    + rewrite lookup_insert_eq. reflexivity.
    + rewrite Hc. apply IH, Hrest.
Qed.

End OfflineCache.

(** C10.  For a GET request the fetch handler answers with the cached
    response when a cache holds one; otherwise with the response of the
    network, which it also stores in the cache; and when the network
    fails, with the cached root document for a navigation and with no
    response for any other request. *)
Theorem fetch_is_cache_first
    (network : SW.Request -> option SW.Response) (request : SW.Request)
    (cs : list (string * gmap string SW.Response)) :
  SW.method request = "GET" ->
  (forall cached, SW.caches_match cs (SW.url request) = Some cached ->
     SW.onFetch network request cs = (SW.RespondWith (Some cached), cs)) /\
  (forall response, SW.caches_match cs (SW.url request) = None ->
     network request = Some response ->
     fst (SW.onFetch network request cs) = SW.RespondWith (Some response) /\
     (exists c, SW.caches_lookup SW.CACHE_NAME (snd (SW.onFetch network request cs)) = Some c /\
                c !! SW.url request = Some response) /\
     SW.caches_match (snd (SW.onFetch network request cs)) (SW.url request) = Some response) /\
  (SW.caches_match cs (SW.url request) = None -> network request = None ->
     SW.onFetch network request cs
     = (SW.RespondWith (if bool_decide (SW.mode request = "navigate")
                        then SW.caches_match cs "/" else None), cs)).
Proof.
  intros Hget. unfold SW.onFetch. rewrite (bool_decide_eq_true_2 _ Hget). simpl.
  split; [| split].
  - intros cached ->. reflexivity.
  - intros response Hnone Hnet. rewrite Hnone, Hnet. simpl.
    split; [reflexivity | split].
    + apply caches_put_lookup.
    + apply caches_put_match, Hnone.
  - intros -> ->. destruct (bool_decide (SW.mode request = "navigate")); reflexivity.
Qed.

Lemma fetch_is_cache_first_witness :
  let request := {| SW.method := "GET"; SW.mode := "navigate"; SW.url := "/index.html" |} in
  fst (SW.onFetch demo_network request []) = SW.RespondWith (Some {| SW.body := "<html>" |}) /\
  (exists c, SW.caches_lookup SW.CACHE_NAME (snd (SW.onFetch demo_network request [])) = Some c /\
             c !! "/index.html" = Some {| SW.body := "<html>" |}) /\
  SW.caches_match (snd (SW.onFetch demo_network request [])) "/index.html"
  = Some {| SW.body := "<html>" |}.
Proof.
  refine (proj1 (proj2 (fetch_is_cache_first demo_network
     {| SW.method := "GET"; SW.mode := "navigate"; SW.url := "/index.html" |} [] _))
     {| SW.body := "<html>" |} _ _); reflexivity.
Defined.

(** ** The balances along a sequence of operations *)

Section Balances.

Lemma nan_of_spec (x : number) : Prim2SF x = S754_nan -> x = nan.
Proof. intros H. rewrite <- (SF2Prim_Prim2SF x), H. reflexivity. Qed.

Lemma infinity_of_spec (x : number) (s : bool) :
  Prim2SF x = S754_infinity s -> x = if s then neg_infinity else infinity.
Proof. intros H. rewrite <- (SF2Prim_Prim2SF x), H. destruct s; reflexivity. Qed.

(** The rounding expression gives a value with two decimals whenever it
    gives a finite number. *)
Lemma round2_two_decimals (y : number) :
  is_finite (round2 y) = true -> two_decimals (round2 y).
Proof.
  intros Hfin. split; [exact Hfin|]. revert Hfin. unfold round2.
  destruct (is_finite (y * 100)) eqn:Hp.
  - intros _. destruct (Math_round_finite _ Hp) as (neg & k & _ & ->). eauto.
  - rewrite is_finite_spec in Hp. unfold Math_round.
    destruct (Prim2SF (y * 100)) as [s|s| |s m e] eqn:Hx; try discriminate.
    + rewrite (infinity_of_spec _ _ Hx). destruct s; vm_compute; discriminate.
    + rewrite (nan_of_spec _ Hx). vm_compute. discriminate.
Qed.

Lemma parseAmount_rounded (raw : string) (x : number) :
  parseAmount raw = Some x -> rounded x.
Proof.
  unfold parseAmount.
  destruct (negb _ || _); [discriminate|]. intros [= <-]. eexists; reflexivity.
Qed.

(** Every step leaves each balance as it was or sets it to a rounded
    value. *)
Lemma step_rounded (env : Env) (d d' : BankingData) (msg : option string) :
  ledger_step env d msg d' ->
  rounded (checkingBalance d) -> rounded (savingsBalance d) ->
  rounded (checkingBalance d') /\ rounded (savingsBalance d').
Proof.
  intros Hstep Hc Hs.
  destruct Hstep as [msg|raw x Hx _|raw x Hx _|desc raw x Hx _|raw x Hx|raw x Hx
                    |raw x Hx|raw x Hx];
    simpl; try (apply parseAmount_rounded in Hx);
    split; try assumption; eexists; reflexivity.
Qed.

Lemma reachable_rounded (s : State) :
  reachable s ->
  rounded (checkingBalance (data s)) /\ rounded (savingsBalance (data s)).
Proof.
  induction 1 as [storage | env a s _ [IHc IHs]].
  - split; exists 0%float; vm_compute; reflexivity.
  - exact (step_rounded _ _ _ _ (perform_step env a s) IHc IHs).
Qed.

End Balances.

(** C5 fails on the code: an amount near the largest number passes the
    finiteness check of [parseAmount], its product by 100 is [Infinity],
    and the accepted edit leaves a balance that has no two decimals. *)
Lemma edit_balance_overflows (env : Env) :
  reachable (initialState ∅) /\
  accepted env (EditChecking "1e308") (initialState ∅) /\
  checkingBalance (data (perform env (EditChecking "1e308") (initialState ∅))) = infinity /\
  ~ two_decimals infinity.
Proof.
  split; [constructor|]. split; [vm_compute; reflexivity|].
  split; [vm_compute; reflexivity|]. intros [Hfin _]. vm_compute in Hfin. discriminate.
Qed.

(** C9 fails on the code: once a balance is [Infinity], a transfer of
    [Infinity] passes the funds check and leaves [Infinity - Infinity],
    which is [NaN] and not [>= 0]. *)
Lemma transfer_of_infinity_gives_nan (env1 env2 : Env) :
  let steps := [(env1, EditChecking "1e308"); (env2, Transfer checkingToSavings "1e308")] in
  all_accepted steps (initialState ∅) /\
  checkingBalance (data (run steps (initialState ∅))) = nan /\
  (0 <=? checkingBalance (data (run steps (initialState ∅))))%float = false.
Proof.
  repeat split; vm_compute; reflexivity.
Qed.

(** X1.  Along any sequence of operations from the empty ledger, a
    balance that is finite has two decimals. *)
Theorem finite_balances_have_two_decimals (s : State) :
  reachable s ->
  (is_finite (checkingBalance (data s)) = true -> two_decimals (checkingBalance (data s))) /\
  (is_finite (savingsBalance (data s)) = true -> two_decimals (savingsBalance (data s))).
Proof.
  intros Hs. destruct (reachable_rounded s Hs) as [[yc Hc] [ys Hv]].
  rewrite Hc, Hv. split; apply round2_two_decimals.
Qed.

Lemma finite_balances_have_two_decimals_witness :
  two_decimals (checkingBalance (data (perform demo_env (EditChecking "12.5")
                                         (initialState ∅)))).
Proof.
  refine (proj1 (finite_balances_have_two_decimals
                   (perform demo_env (EditChecking "12.5") (initialState ∅)) _) _).
  - apply reachable_perform, reachable_initial.
  - vm_compute. reflexivity.
Defined.

Section Signs.

Lemma not_negative_spec (x : number) :
  (x <? 0)%float = false <-> not_negative (Prim2SF x).
Proof.
  rewrite FloatAxioms.ltb_spec. change (Prim2SF 0) with (S754_zero false).
  unfold SFltb. destruct (Prim2SF x) as [s|[]| |[] m e]; simpl; intuition discriminate.
Qed.

Lemma binary_round_aux_sign (m e : Z) (l : location) :
  not_negative (binary_round_aux prec emax false m e l).
Proof.
  unfold binary_round_aux.
  destruct (shr_fexp prec emax m e l) as [mrs' e'].
  destruct (shr_fexp prec emax _ e' loc_Exact) as [mrs'' e''].
  destruct (shr_m mrs''); simpl; [exact I | | exact I].
  destruct (e'' <=? emax - prec); exact I.
Qed.

Lemma binary_round_sign (m : positive) (e : Z) :
  not_negative (binary_round prec emax false m e).
Proof.
  unfold binary_round. destruct (shl_align _ _ _). apply binary_round_aux_sign.
Qed.

Lemma binary_normalize_sign (z e : Z) :
  0 <= z -> not_negative (binary_normalize prec emax z e false).
Proof.
  destruct z; simpl; intros Hz; [exact I | apply binary_round_sign | lia].
Qed.

Lemma SFmul_sign (x y : spec_float) :
  not_negative x -> not_negative y -> not_negative (SF64mul x y).
Proof.
  destruct x as [sx|[]| |[] mx ex], y as [sy|[]| |[] my ey]; simpl; try tauto; intros _ _.
  apply binary_round_aux_sign.
Qed.

Lemma SFdiv_sign (x : spec_float) (m : positive) (e : Z) :
  not_negative x -> not_negative (SF64div x (S754_finite false m e)).
Proof.
  destruct x as [sx|[]| |[] mx ex]; simpl; try tauto; intros _.
  destruct (SFdiv_core_binary _ _ _ _ _ _) as [[mz ez] lz]. apply binary_round_aux_sign.
Qed.

Lemma SFadd_sign (x y : spec_float) :
  not_negative x -> not_negative y -> not_negative (SF64add x y).
Proof.
  destruct x as [[]|[]| |[] mx ex], y as [[]|[]| |[] my ey]; simpl; try tauto; intros _ _.
  apply binary_round_sign.
Qed.

(** The number of a specification that is not negative is not negative. *)
Lemma SF2Prim_sign (x : spec_float) :
  not_negative x -> not_negative (Prim2SF (SF2Prim x)).
Proof.
  destruct x as [[]|[]| |[] m e]; simpl; try tauto; intros _; try exact I.
  rewrite Z_ldexp_spec, of_uint63_spec.
  pose proof (Uint63.to_Z_bounded (Uint63.of_Z (Z.pos m))) as [Hm _].
  pose proof (binary_normalize_sign _ 0 Hm) as Hn.
  destruct (binary_normalize _ _ _ _ _) as [s|[]| |[] m' e']; simpl in *; try tauto.
  apply binary_round_sign.
Qed.

Lemma nearest_integer_sign (m : positive) (e : Z) : 0 <= nearest_integer false m e.
Proof.
  unfold nearest_integer. change (cond_Zopp false (Z.pos m)) with (Z.pos m).
  destruct (Z.leb_spec 0 e) as [He|He].
  - apply Z.mul_nonneg_nonneg; [lia | apply Z.pow_nonneg; lia].
  - apply Z.div_pos; [| apply Z.pow_pos_nonneg; lia].
    pose proof (Z.pow_nonneg 2 (- e) ltac:(lia)). lia.
Qed.

Lemma Math_round_sign (x : number) :
  not_negative (Prim2SF x) -> not_negative (Prim2SF (Math_round x)).
Proof.
  unfold Math_round.
  destruct (Prim2SF x) as [s|s| |[] m e] eqn:Hx;
    try (rewrite Hx; simpl; tauto); try (simpl; tauto).
  intros _. unfold signed_integer.
  destruct (Z.eqb_spec (nearest_integer false m e) 0); [exact I|].
  apply SF2Prim_sign, binary_normalize_sign, nearest_integer_sign.
Qed.

End Signs.

Section Subtraction.

Lemma digits2_pos_bounds (m : positive) :
  2 ^ (Z.pos (digits2_pos m) - 1) <= Z.pos m < 2 ^ Z.pos (digits2_pos m).
Proof.
  induction m as [p IH|p IH|]; simpl digits2_pos; [| | simpl; lia];
    rewrite Pos2Z.inj_succ;
    replace (Z.succ (Z.pos (digits2_pos p)) - 1) with (Z.succ (Z.pos (digits2_pos p) - 1)) by lia;
    rewrite !Z.pow_succ_r by lia; lia.
Qed.

(** A valid mantissa has at most 53 bits, and exactly 53 above the
    least exponent. *)
Lemma bounded_mantissa (m : positive) (e : Z) :
  bounded prec emax m e = true ->
  Z.pos m < 2 ^ 53 /\ (-1074 < e -> 2 ^ 52 <= Z.pos m) /\ -1074 <= e.
Proof.
  unfold bounded, canonical_mantissa, fexp, SpecFloat.emin, prec, emax.
  intros H. apply andb_prop in H as [H _]. apply Z.eqb_eq in H.
  pose proof (digits2_pos_bounds m) as [Hlo Hhi].
  set (d := Z.pos (digits2_pos m)) in *.
  assert (Hd : d <= 53) by lia.
  split; [| split].
  - apply Z.lt_le_trans with (2 ^ d); [exact Hhi | apply Z.pow_le_mono_r; lia].
  - intros He. assert (d = 53) as Hd' by lia. rewrite Hd' in Hlo. exact Hlo.
  - lia.
Qed.

Lemma iter_xO (m d : positive) : Z.pos (Pos.iter xO m d) = Z.pos m * 2 ^ Z.pos d.
Proof.
  induction d as [|d IH] using Pos.peano_ind.
  - simpl. lia.
  - rewrite Pos.iter_succ, Pos2Z.inj_succ, Z.pow_succ_r by lia.
    rewrite Pos2Z.inj_xO, IH. lia.
Qed.

Lemma shl_align_fst (m : positive) (e e' : Z) :
  e' <= e -> Z.pos (fst (shl_align m e e')) = Z.pos m * 2 ^ (e - e').
Proof.
  intros He. unfold shl_align. destruct (e' - e) as [|d|d] eqn:Hd; simpl.
  - replace (e - e') with 0 by lia. lia.
  - lia.
  - rewrite iter_xO. f_equal. f_equal. lia.
Qed.

(** A valid number with the larger exponent has the larger magnitude. *)
Lemma larger_exponent (m1 m2 : positive) (e1 e2 : Z) :
  bounded prec emax m1 e1 = true -> bounded prec emax m2 e2 = true ->
  e1 < e2 -> Z.pos m1 <= Z.pos m2 * 2 ^ (e2 - e1).
Proof.
  intros H1 H2 He.
  apply bounded_mantissa in H1 as (Hm1 & _ & He1).
  apply bounded_mantissa in H2 as (_ & Hm2 & _).
  specialize (Hm2 ltac:(lia)).
  assert (2 ^ 1 <= 2 ^ (e2 - e1)) by (apply Z.pow_le_mono_r; lia).
  change (2 ^ 1) with 2 in *. change (2 ^ 53) with (2 ^ 52 * 2) in Hm1. nia.
Qed.

(** When [x < y] does not hold, [x - y] is not negative. *)
Lemma SFsub_sign (x y : spec_float) :
  valid_binary x = true -> valid_binary y = true ->
  SFltb x y = false -> not_negative (SF64sub x y).
Proof.
  unfold SFltb.
  destruct x as [sx|sx| |sx mx ex], y as [sy|sy| |sy my ey]; simpl;
    try tauto;
    try (destruct sx; simpl; tauto || discriminate);
    try (destruct sy; simpl; tauto || discriminate);
    try (destruct sx, sy; simpl; tauto || discriminate).
  intros Hx Hy Hlt. apply binary_normalize_sign. rewrite !shl_align_fst by lia.
  change (PosDef.Pos.compare_cont Eq mx my) with (mx ?= my)%positive in Hlt.
  destruct sx, sy; unfold cond_Zopp; try discriminate.
  - destruct (Z.compare_spec ex ey) as [He|He|He]; try discriminate.
    + subst ey. rewrite Z.min_id, Z.sub_diag, !Z.mul_1_r.
      destruct (Pos.compare_spec mx my) as [Hm|Hm|Hm]; try discriminate; lia.
    + pose proof (larger_exponent mx my ex ey Hx Hy He).
      rewrite Z.min_l, Z.sub_diag, !Z.mul_1_r by lia. lia.
  - assert (0 < Z.pos mx * 2 ^ (ex - ex `min` ey))
      by (apply Z.mul_pos_pos; [lia | apply Z.pow_pos_nonneg; lia]).
    assert (0 < Z.pos my * 2 ^ (ey - ex `min` ey))
      by (apply Z.mul_pos_pos; [lia | apply Z.pow_pos_nonneg; lia]).
    lia.
  - destruct (Z.compare_spec ex ey) as [He|He|He]; try discriminate.
    + subst ey. rewrite Z.min_id, Z.sub_diag, !Z.mul_1_r.
      destruct (Pos.compare_spec mx my) as [Hm|Hm|Hm]; try discriminate; lia.
    + pose proof (larger_exponent my mx ey ex Hy Hx He).
      rewrite Z.min_r, Z.sub_diag, !Z.mul_1_r by lia. lia.
Qed.

End Subtraction.

Section NonNegative.

Lemma sub_sign (x y : number) :
  (x <? y)%float = false -> not_negative (Prim2SF (x - y)).
Proof.
  rewrite FloatAxioms.ltb_spec, sub_spec. apply SFsub_sign; apply Prim2SF_valid.
Qed.

Lemma round2_sign (y : number) :
  not_negative (Prim2SF y) -> not_negative (Prim2SF (round2 y)).
Proof.
  intros Hy. unfold round2. rewrite div_spec.
  change (Prim2SF 100) with (S754_finite false 7036874417766400 (-46)).
  apply SFdiv_sign, Math_round_sign. rewrite mul_spec.
  change (Prim2SF 100) with (S754_finite false 7036874417766400 (-46)).
  apply SFmul_sign; [exact Hy | exact I].
Qed.

Lemma parseAmount_sign (raw : string) (x : number) :
  parseAmount raw = Some x -> not_negative (Prim2SF x).
Proof.
  unfold parseAmount, Number_isFinite.
  set (n := parseFloat (trim (remove_commas raw))).
  destruct (is_finite n) eqn:Hfin; [| discriminate].
  destruct (n <=? 0)%float eqn:Hle; [discriminate|]. simpl. intros [= <-].
  apply round2_sign.
  rewrite FloatAxioms.leb_spec in Hle. change (Prim2SF 0) with (S754_zero false) in Hle.
  unfold SFleb in Hle.
  destruct (Prim2SF n) as [s|[]| |[] m e]; simpl in *; try exact I; discriminate.
Qed.

Lemma add_sign (x y : number) :
  not_negative (Prim2SF x) -> not_negative (Prim2SF y) -> not_negative (Prim2SF (x + y)).
Proof. rewrite add_spec. apply SFadd_sign. Qed.

(** No step makes a balance negative. *)
Lemma step_not_below_zero (env : Env) (d d' : BankingData) (msg : option string) :
  ledger_step env d msg d' ->
  not_below_zero (checkingBalance d) -> not_below_zero (savingsBalance d) ->
  not_below_zero (checkingBalance d') /\ not_below_zero (savingsBalance d').
Proof.
  unfold not_below_zero. rewrite !not_negative_spec. intros Hstep Hc Hs.
  destruct Hstep as [msg|raw x Hx Hg|raw x Hx Hg|desc raw x Hx Hg|raw x Hx|raw x Hx
                    |raw x Hx|raw x Hx];
    simpl; try (apply parseAmount_sign in Hx);
    split; try assumption;
    apply round2_sign; first [apply sub_sign; assumption | apply add_sign; assumption].
Qed.

End NonNegative.

(** X2.  From the empty ledger no sequence of operations makes a balance
    negative: each balance is [>= 0] unless it is [NaN]. *)
Theorem balances_never_negative (s : State) :
  reachable s ->
  let c := checkingBalance (data s) in
  let v := savingsBalance (data s) in
  (c <? 0)%float = false /\ (v <? 0)%float = false /\
  (PrimFloat.is_nan c = false -> (0 <=? c)%float = true) /\
  (PrimFloat.is_nan v = false -> (0 <=? v)%float = true).
Proof.
  intros Hs.
  assert (H : not_below_zero (checkingBalance (data s)) /\
              not_below_zero (savingsBalance (data s))).
  { induction Hs as [storage | env a s _ [IHc IHs]].
    - split; vm_compute; reflexivity.
    - exact (step_not_below_zero _ _ _ _ (perform_step env a s) IHc IHs). }
  destruct H as [Hc Hv]. cbv zeta. split; [exact Hc | split; [exact Hv |]].
  assert (Hnn : forall b, (b <? 0)%float = false -> PrimFloat.is_nan b = false ->
                          (0 <=? b)%float = true).
  { intros b Hb. unfold PrimFloat.is_nan.
    rewrite FloatAxioms.eqb_spec, FloatAxioms.leb_spec. apply not_negative_spec in Hb.
    change (Prim2SF 0) with (S754_zero false).
    unfold SFeqb, SFleb.
    destruct (Prim2SF b) as [sb|[]| |[] m e]; simpl in *; try reflexivity;
      try discriminate; try tauto. }
  split; apply Hnn; assumption.
Qed.

Lemma balances_never_negative_witness :
  (checkingBalance (data (perform demo_env (EditChecking "12.5") (initialState ∅))) <? 0)%float
  = false.
Proof.
  refine (proj1 (balances_never_negative
                   (perform demo_env (EditChecking "12.5") (initialState ∅)) _)).
  apply reachable_perform, reachable_initial.
Defined.

(** ** The other operations of the ledger *)

(** X4.  An amount that does not parse makes every handler set a message and
    leave the ledger and the storage as they were. *)
Theorem invalid_amount_rejected (env : Env) (s : State) :
  parseAmount (amountInput s) = None ->
  let unchanged (s' : State) :=
    data s' = data s /\ localStorage s' = localStorage s /\ modal s' = modal s /\
    exists msg, modalError s' = Some msg in
  unchanged (onConfirmTransfer env s) /\ unchanged (onConfirmPayBills env s) /\
  unchanged (onConfirmAddMoney env s) /\ unchanged (onConfirmSetGoal env s) /\
  unchanged (onConfirmEditChecking env s) /\ unchanged (onConfirmEditSavings env s).
Proof.
  intros Hparse. unfold onConfirmTransfer, onConfirmPayBills, onConfirmAddMoney,
    onConfirmSetGoal, onConfirmEditChecking, onConfirmEditSavings.
  rewrite Hparse. destruct (truthy (trim (descriptionInput s)));
    repeat split; eexists; reflexivity.
Qed.

Lemma invalid_amount_rejected_witness :
  data (onConfirmAddMoney demo_env (setAmountInput "-5" (initialState ∅)))
  = data (setAmountInput "-5" (initialState ∅)).
Proof.
  exact (proj1 (proj1 (proj2 (proj2 (invalid_amount_rejected demo_env
     (setAmountInput "-5" (initialState ∅)) ltac:(vm_compute; reflexivity)))))).
Defined.

(** X5.  From the empty ledger the history never holds more than 25
    transactions. *)
Theorem history_at_most_25 (s : State) :
  reachable s -> (List.length (transactions (data s)) <= 25)%nat.
Proof.
  induction 1 as [storage | env a s _ IH]; [simpl; lia|].
  destruct (perform_step env a s); cbn -[take]; try assumption; apply firstn_le_length.
Qed.

Lemma history_at_most_25_witness :
  (List.length (transactions (data (run demo_steps (initialState ∅)))) <= 25)%nat.
Proof.
  apply history_at_most_25. unfold demo_steps.
  generalize (initialState ∅) (reachable_initial ∅).
  induction (List.map _ _) as [|[env a] rest IH]; intros s Hs; simpl;
    [exact Hs | apply IH, reachable_perform, Hs].
Defined.

(** X6.  Clearing all data, once confirmed, leaves the empty ledger in the
    state and its text in storage, and a page load over that storage
    reads the empty ledger back. *)
Theorem clear_all_data_persists (s : State) :
  data (onClearAllData true s) = emptyData /\
  localStorage (onClearAllData true s) !! DATA_KEY = Some emptyData_text /\
  (forall stringify, data (reload stringify (onClearAllData true s)) = emptyData) /\
  onClearAllData false s = s.
Proof.
  split; [reflexivity|]. split; [apply lookup_insert_eq|]. split; [| reflexivity].
  intros stringify. unfold reload, mount. rewrite saveEffect_data.
  unfold dataLoadEffect, getItem.
  assert (Hst : localStorage (sessionLoadEffect (initialState (localStorage (onClearAllData true s))))
                !! DATA_KEY = Some emptyData_text).
  { unfold sessionLoadEffect, getItem. simpl.
    destruct (_ !! SESSION_KEY) as [saved|]; [| apply lookup_insert_eq].
    destruct (truthy saved); simpl; [| apply lookup_insert_eq].
    destruct (JSON_parse saved) as [parsed|].
    - destruct (get parsed "name") as [v|]; [| apply lookup_insert_eq].
      destruct (json_truthy v); apply lookup_insert_eq.
    - simpl. rewrite lookup_delete_ne by discriminate. apply lookup_insert_eq. }
  rewrite Hst.
  change (truthy emptyData_text) with true.
  replace (JSON_parse emptyData_text)
    with (Some (JObject [("checkingBalance", JNumber 0); ("savingsBalance", JNumber 0);
                         ("savingsGoal", JNull); ("transactions", JArray [])]))
    by (vm_compute; reflexivity).
  reflexivity.
Qed.

(** X7.  Logging out removes the session marker and the user, and a
    reload then finds nobody logged in. *)
Theorem logout_ends_session (s : State) :
  user (onLogout s) = None /\
  localStorage (onLogout s) !! SESSION_KEY = None /\
  forall stringify, user (reload stringify (onLogout s)) = None.
Proof.
  split; [reflexivity|]. split; [apply lookup_delete_eq|].
  intros stringify. unfold reload, mount. rewrite saveEffect_user, dataLoadEffect_user.
  unfold sessionLoadEffect, getItem. simpl. rewrite lookup_delete_eq. reflexivity.
Qed.

(** ** Numbers that are not NaN *)

Section Shapes.

Lemma non_negative_spec (x : number) :
  (0 <=? x)%float = true <-> non_negative (Prim2SF x).
Proof.
  rewrite FloatAxioms.leb_spec. change (Prim2SF 0) with (S754_zero false).
  unfold SFleb. destruct (Prim2SF x) as [s|[]| |[] m e]; simpl; intuition discriminate.
Qed.

Lemma signed_as_non_negative (x : spec_float) : signed_as false x -> non_negative x.
Proof. destruct x as [s|s| |s m e]; simpl; intros H; subst; tauto. Qed.

Lemma shr_1_nonneg (mrs : shr_record) : 0 <= shr_m mrs -> 0 <= shr_m (shr_1 mrs).
Proof.
  destruct mrs as [m r s]. simpl. destruct m as [|p|p]; [simpl; lia | | lia].
  intros _. destruct p; simpl; lia.
Qed.

Lemma iter_shr_1_nonneg (p : positive) :
  forall mrs, 0 <= shr_m mrs -> 0 <= shr_m (iter_pos shr_1 p mrs).
Proof.
  induction p as [p IH|p IH|]; intros mrs H; simpl.
  - apply IH, IH, shr_1_nonneg, H.
  - apply IH, IH, H.
  - apply shr_1_nonneg, H.
Qed.

Lemma shr_fexp_nonneg (m e : Z) (l : location) :
  0 <= m -> 0 <= shr_m (fst (shr_fexp prec emax m e l)).
Proof.
  intros Hm. unfold shr_fexp, shr.
  assert (H0 : 0 <= shr_m (shr_record_of_loc m l)) by (destruct l as [|[]]; exact Hm).
  destruct (fexp prec emax (Zdigits2 m + e) - e); simpl; try exact H0.
  apply iter_shr_1_nonneg, H0.
Qed.

Lemma round_nearest_even_nonneg (m : Z) (l : location) :
  0 <= m -> 0 <= round_nearest_even m l.
Proof.
  intros Hm. destruct l as [|[]]; simpl; try lia. destruct (Z.even m); lia.
Qed.

(** A rounding of a magnitude that is not negative gives no NaN. *)
Lemma binary_round_aux_shape (s : bool) (m e : Z) (l : location) :
  0 <= m -> signed_as s (binary_round_aux prec emax s m e l).
Proof.
  intros Hm. unfold binary_round_aux.
  pose proof (shr_fexp_nonneg m e l Hm) as H1.
  destruct (shr_fexp prec emax m e l) as [mrs' e']. simpl in H1.
  pose proof (shr_fexp_nonneg _ e' loc_Exact
                (round_nearest_even_nonneg _ (loc_of_shr_record mrs') H1)) as H2.
  destruct (shr_fexp prec emax _ e' loc_Exact) as [mrs'' e'']. simpl in H2.
  destruct (shr_m mrs'') as [|p|p]; simpl; [reflexivity | | lia].
  destruct (e'' <=? emax - prec); reflexivity.
Qed.

Lemma binary_round_shape (s : bool) (m : positive) (e : Z) :
  signed_as s (binary_round prec emax s m e).
Proof.
  unfold binary_round. destruct (shl_align _ _ _) as [mz ez].
  apply binary_round_aux_shape. lia.
Qed.

Lemma binary_normalize_shape (z e : Z) :
  0 <= z -> signed_as false (binary_normalize prec emax z e false).
Proof.
  destruct z; simpl; intros Hz; [reflexivity | apply binary_round_shape | lia].
Qed.

End Shapes.

Section NonNegativeNumbers.

Lemma non_negative_not_negative (x : spec_float) : non_negative x -> not_negative x.
Proof. destruct x as [s|[]| |[] m e]; simpl; tauto. Qed.

Lemma SFmul_non_negative (x : spec_float) (m : positive) (e : Z) :
  non_negative x -> non_negative (SF64mul x (S754_finite false m e)).
Proof.
  destruct x as [sx|[]| |[] mx ex]; simpl; try tauto; intros _.
  apply signed_as_non_negative, binary_round_aux_shape. lia.
Qed.

Lemma SFdiv_core_nonneg (m1 m2 : positive) (e1 e2 : Z) :
  0 <= fst (fst (SFdiv_core_binary prec emax (Z.pos m1) e1 (Z.pos m2) e2)).
Proof.
  unfold SFdiv_core_binary.
  set (s := e1 - e2 - _).
  set (m' := match s with Z.pos _ => Z.shiftl (Z.pos m1) s | 0 => Z.pos m1 | Z.neg _ => 0 end).
  assert (Hm' : 0 <= m').
  { unfold m'. destruct s; try lia. apply Z.shiftl_nonneg. lia. }
  pose proof (Z.div_pos m' (Z.pos m2) Hm' ltac:(lia)) as Hq.
  unfold Z.div in Hq. destruct (Z.div_eucl m' (Z.pos m2)) as [q r]. exact Hq.
Qed.

Lemma SFdiv_non_negative (x : spec_float) (m : positive) (e : Z) :
  non_negative x -> non_negative (SF64div x (S754_finite false m e)).
Proof.
  destruct x as [sx|[]| |[] mx ex]; simpl; try tauto; intros _.
  pose proof (SFdiv_core_nonneg mx m ex e) as Hq.
  destruct (SFdiv_core_binary _ _ _ _ _ _) as [[mz ez] lz]. simpl in Hq.
  apply signed_as_non_negative, binary_round_aux_shape, Hq.
Qed.

Lemma SFadd_non_negative (x y : spec_float) :
  non_negative x -> non_negative y -> non_negative (SF64add x y).
Proof.
  destruct x as [[]|[]| |[] mx ex], y as [[]|[]| |[] my ey]; simpl; try tauto; intros _ _.
  apply signed_as_non_negative, binary_round_shape.
Qed.

(** The difference of two finite numbers is no NaN. *)
Lemma SFsub_finite (x y : spec_float) :
  match x with S754_zero _ | S754_finite _ _ _ => True | _ => False end ->
  match y with S754_zero _ | S754_finite _ _ _ => True | _ => False end ->
  SF64sub x y <> S754_nan.
Proof.
  destruct x as [sx|sx| |sx mx ex], y as [sy|sy| |sy my ey]; simpl; try tauto; intros _ _;
    try (destruct sx, sy; discriminate); try discriminate.
  destruct (cond_Zopp sx _ - cond_Zopp sy _) as [|p|p]; simpl; try discriminate.
  - pose proof (binary_round_shape false p (ex `min` ey)) as H.
    destruct (binary_round _ _ _ _ _); simpl in H; [discriminate.. | tauto | discriminate].
  - pose proof (binary_round_shape true p (ex `min` ey)) as H.
    destruct (binary_round _ _ _ _ _); simpl in H; [discriminate.. | tauto | discriminate].
Qed.

(** From a finite balance that is not negative, a debit that passed the
    funds check leaves a number [>= 0]. *)
Lemma sub_non_negative (x y : number) :
  is_finite x = true -> non_negative (Prim2SF y) ->
  (x <? y)%float = false -> non_negative (Prim2SF (x - y)).
Proof.
  intros Hfin Hy Hlt.
  pose proof (sub_sign x y Hlt) as Hsign.
  rewrite is_finite_spec in Hfin. rewrite FloatAxioms.ltb_spec in Hlt.
  rewrite sub_spec in *.
  assert (Hnan : SF64sub (Prim2SF x) (Prim2SF y) <> S754_nan).
  { destruct (Prim2SF y) as [sy|[]| |sy my ey] eqn:Ey; simpl in Hy; try tauto.
    - apply SFsub_finite; [destruct (Prim2SF x); try discriminate; exact I | exact I].
    - destruct (Prim2SF x) as [sx|sx| |[] mx ex]; try discriminate.
    - apply SFsub_finite; [destruct (Prim2SF x); try discriminate; exact I | exact I]. }
  destruct (SF64sub (Prim2SF x) (Prim2SF y)) as [s|[]| |[] m e]; simpl in *; tauto.
Qed.

Lemma SF2Prim_non_negative (x : spec_float) :
  signed_as false x -> non_negative (Prim2SF (SF2Prim x)).
Proof.
  destruct x as [[]|[]| |[] m e]; simpl; try discriminate; try tauto; intros _; try exact I.
  rewrite Z_ldexp_spec, of_uint63_spec.
  pose proof (Uint63.to_Z_bounded (Uint63.of_Z (Z.pos m))) as [Hm _].
  pose proof (binary_normalize_shape _ 0 Hm) as Hn.
  destruct (binary_normalize _ _ _ _ _) as [s|s| |s m' e']; simpl in *; try tauto;
    subst; try exact I.
  apply signed_as_non_negative, binary_round_shape.
Qed.

Lemma Math_round_non_negative (x : number) :
  non_negative (Prim2SF x) -> non_negative (Prim2SF (Math_round x)).
Proof.
  unfold Math_round.
  destruct (Prim2SF x) as [s|s| |[] m e] eqn:Hx;
    try (rewrite Hx; simpl; tauto); try (simpl; tauto).
  intros _. unfold signed_integer.
  destruct (Z.eqb_spec (nearest_integer false m e) 0); [exact I|].
  apply SF2Prim_non_negative, binary_normalize_shape, nearest_integer_sign.
Qed.

Lemma round2_non_negative (y : number) :
  non_negative (Prim2SF y) -> non_negative (Prim2SF (round2 y)).
Proof.
  intros Hy. unfold round2. rewrite div_spec.
  change (Prim2SF 100) with (S754_finite false 7036874417766400 (-46)).
  apply SFdiv_non_negative, Math_round_non_negative. rewrite mul_spec.
  change (Prim2SF 100) with (S754_finite false 7036874417766400 (-46)).
  apply SFmul_non_negative, Hy.
Qed.

Lemma add_non_negative (x y : number) :
  non_negative (Prim2SF x) -> non_negative (Prim2SF y) -> non_negative (Prim2SF (x + y)).
Proof. rewrite add_spec. apply SFadd_non_negative. Qed.

Lemma parseAmount_non_negative (raw : string) (x : number) :
  parseAmount raw = Some x -> non_negative (Prim2SF x).
Proof.
  unfold parseAmount, Number_isFinite.
  set (n := parseFloat (trim (remove_commas raw))).
  destruct (is_finite n) eqn:Hfin; [| discriminate].
  destruct (n <=? 0)%float eqn:Hle; [discriminate|]. simpl. intros [= <-].
  apply round2_non_negative.
  rewrite is_finite_spec in Hfin.
  rewrite FloatAxioms.leb_spec in Hle. change (Prim2SF 0) with (S754_zero false) in Hle.
  unfold SFleb in Hle.
  destruct (Prim2SF n) as [s|[]| |[] m e]; simpl in *; try exact I; discriminate.
Qed.

(** A finite number that is not negative is [>= 0]. *)
Lemma finite_non_negative (x : number) :
  is_finite x = true -> (x <? 0)%float = false -> non_negative (Prim2SF x).
Proof.
  rewrite is_finite_spec, not_negative_spec.
  destruct (Prim2SF x) as [s|[]| |[] m e]; simpl; try discriminate; tauto.
Qed.

(** A step from finite balances that are not negative gives balances
    [>= 0]. *)
Lemma step_non_negative (env : Env) (d d' : BankingData) (msg : option string) :
  ledger_step env d msg d' ->
  is_finite (checkingBalance d) = true -> is_finite (savingsBalance d) = true ->
  non_negative (Prim2SF (checkingBalance d)) -> non_negative (Prim2SF (savingsBalance d)) ->
  non_negative (Prim2SF (checkingBalance d')) /\ non_negative (Prim2SF (savingsBalance d')).
Proof.
  intros Hstep Fc Fs Hc Hs.
  destruct Hstep as [msg|raw x Hx Hg|raw x Hx Hg|desc raw x Hx Hg|raw x Hx|raw x Hx
                    |raw x Hx|raw x Hx];
    simpl; try (apply parseAmount_non_negative in Hx);
    split; try assumption;
    apply round2_non_negative;
    first [apply sub_non_negative; assumption | apply add_non_negative; assumption].
Qed.

End NonNegativeNumbers.

(** ** Amount texts that are always rejected *)

Section RejectedTexts.

Lemma chars_text (l : list ascii) : chars (text l) = l.
Proof. apply String.list_ascii_of_string_of_list_ascii. Qed.

Lemma trimStart_spaces (pre l : list ascii) :
  Forall (fun c => is_space c = true) pre -> trimStart (pre ++ l) = trimStart l.
Proof.
  induction 1 as [|c pre Hc _ IH]; simpl; [reflexivity|]. rewrite Hc. exact IH.
Qed.

Lemma trimStart_keeps_last (l : list ascii) (c : ascii) :
  is_space c = false -> trimStart (l ++ [c]) = trimStart l ++ [c].
Proof.
  intros Hc. induction l as [|a l IH]; simpl.
  - rewrite Hc. reflexivity.
  - destruct (is_space a); [exact IH | reflexivity].
Qed.

Lemma trimEnd_cons (c : ascii) (l : list ascii) :
  is_space c = false -> trimEnd (c :: l) = c :: trimEnd l.
Proof.
  intros Hc. unfold trimEnd. simpl rev.
  rewrite trimStart_keeps_last by exact Hc. rewrite rev_app_distr. reflexivity.
Qed.

(** Without its commas a padding is white space. *)
Lemma padding_without_commas (pre : list ascii) :
  Forall is_padding pre ->
  Forall (fun c => is_space c = true) (List.filter (fun c => negb (code c =? 44)) pre).
Proof.
  induction 1 as [|c pre [Hc|Hc] _ IH]; simpl; [constructor | |].
  - destruct (code c =? 44); simpl; [exact IH | constructor; assumption].
  - rewrite Hc. exact IH.
Qed.

(** What is left of a text that starts, after padding, with the
    character [c] that is neither white space nor a comma. *)
Lemma cleaned_head (pre rest : list ascii) (c : ascii) :
  Forall is_padding pre -> is_space c = false -> code c <> 44 ->
  exists l, chars (trim (remove_commas (text (pre ++ c :: rest)))) = c :: l.
Proof.
  intros Hpre Hs Hc. unfold trim, remove_commas. rewrite !chars_text.
  rewrite List.filter_app. simpl List.filter.
  apply Z.eqb_neq in Hc. rewrite Hc. simpl negb. cbv iota.
  rewrite trimStart_spaces by (apply padding_without_commas, Hpre).
  simpl trimStart. rewrite Hs. rewrite trimEnd_cons by exact Hs. eauto.
Qed.

Lemma signed_as_true_nonpositive (x : spec_float) :
  signed_as true x -> SFleb x (S754_zero false) = true.
Proof. destruct x as [s|s| |s m e]; simpl; intros H; subst; try tauto; reflexivity. Qed.

Lemma decimal_value_shape (neg : bool) (m e : Z) : signed_as neg (decimal_value neg m e).
Proof.
  unfold decimal_value. destruct m as [|p|p]; try reflexivity.
  destruct (Z.leb_spec 0 e) as [He|He].
  - assert (Hpos : 0 < Z.pos p * 10 ^ e) by (apply Z.mul_pos_pos; [lia | apply Z.pow_pos_nonneg; lia]).
    destruct (Z.pos p * 10 ^ e) as [|q|q]; try lia.
    destruct neg; simpl; apply binary_round_shape.
  - simpl. pose proof (SFdiv_core_nonneg p (Z.to_pos (10 ^ (- e))) 0 0) as Hq.
    destruct (SFdiv_core_binary _ _ _ _ _ _) as [[mz ez] lz]. simpl in Hq.
    replace (xorb neg false) with neg by (destruct neg; reflexivity).
    apply binary_round_aux_shape, Hq.
Qed.

Lemma SF2Prim_negative (x : spec_float) :
  signed_as true x -> signed_as true (Prim2SF (SF2Prim x)).
Proof.
  destruct x as [[]|[]| |[] m e]; simpl; try discriminate; try tauto; intros _;
    try reflexivity.
  rewrite opp_spec, Z_ldexp_spec, of_uint63_spec.
  pose proof (Uint63.to_Z_bounded (Uint63.of_Z (Z.pos m))) as [Hm _].
  pose proof (binary_normalize_shape _ 0 Hm) as Hn.
  destruct (binary_normalize _ _ _ _ _) as [s|s| |s m' e']; simpl in *; try tauto;
    subst; try reflexivity.
  pose proof (binary_round_shape false m' (e' + e)) as Hr.
  destruct (binary_round _ _ _ _ _) as [s|s| |s m'' e'']; simpl in *; try tauto;
    subst; reflexivity.
Qed.

(** The number read after a minus sign is not finite or is [<= 0]. *)
Lemma literal_value_negative (v : literal) :
  is_finite (literal_value true v) = false \/ (literal_value true v <=? 0)%float = true.
Proof.
  destruct v as [|m e]; simpl.
  - left. vm_compute. reflexivity.
  - right. rewrite FloatAxioms.leb_spec. change (Prim2SF 0) with (S754_zero false).
    apply signed_as_true_nonpositive, SF2Prim_negative, decimal_value_shape.
Qed.

End RejectedTexts.

(** X8.  An amount text made of white space and commas only, the empty
    text included, is rejected. *)
Theorem blank_amount_rejected (raw : string) :
  Forall is_padding (chars raw) -> parseAmount raw = None.
Proof.
  intros Hpad. unfold parseAmount.
  assert (Hclean : trim (remove_commas raw) = "").
  { unfold trim, remove_commas. rewrite chars_text.
    pose proof (padding_without_commas _ Hpad) as Hsp.
    rewrite <- (app_nil_r (List.filter _ _)), trimStart_spaces by exact Hsp.
    reflexivity. }
  rewrite Hclean. vm_compute. reflexivity.
Qed.

Lemma blank_amount_rejected_witness : parseAmount " , ,  " = None.
Proof.
  apply blank_amount_rejected. vm_compute.
  repeat (constructor; [first [left; reflexivity | right; reflexivity]|]). constructor.
Defined.

(** X9.  An amount text whose first character, after white space and
    commas, is a minus sign is rejected, whatever follows. *)
Theorem negative_amount_rejected (pre rest : list ascii) :
  Forall is_padding pre ->
  parseAmount (text (pre ++ "-"%char :: rest)) = None.
Proof.
  intros Hpre.
  destruct (cleaned_head pre rest "-"%char Hpre eq_refl ltac:(discriminate)) as [l Hl].
  unfold parseAmount, Number_isFinite.
  assert (Hn : is_finite (parseFloat (trim (remove_commas (text (pre ++ "-"%char :: rest)))))
               = false
               \/ (parseFloat (trim (remove_commas (text (pre ++ "-"%char :: rest)))) <=? 0)%float
                  = true).
  { unfold parseFloat. rewrite Hl.
    change (sign (trimStart ("-"%char :: l))) with (true, l). cbv iota beta.
    destruct (unsigned_literal l) as [[v r]|];
      [apply literal_value_negative | left; vm_compute; reflexivity]. }
  destruct Hn as [H|H]; rewrite H; [reflexivity | rewrite orb_true_r; reflexivity].
Qed.

Lemma negative_amount_rejected_witness : parseAmount " -1,250.75" = None.
Proof.
  apply (negative_amount_rejected (chars " ") (chars "1,250.75")).
  constructor; [left; reflexivity | constructor].
Defined.

(** ** Amounts and balances that are no NaN *)

Lemma reachable_not_below_zero (s : State) :
  reachable s ->
  not_below_zero (checkingBalance (data s)) /\ not_below_zero (savingsBalance (data s)).
Proof.
  induction 1 as [storage | env a s _ [IHc IHs]].
  - split; vm_compute; reflexivity.
  - exact (step_not_below_zero _ _ _ _ (perform_step env a s) IHc IHs).
Qed.

(** X10.  An amount that [parseAmount] accepts is [>= 0], hence no NaN
    and not negative: it is plus infinity or a value with two decimals
    (which may be 0). *)
Theorem accepted_amount_non_negative (raw : string) (x : number) :
  parseAmount raw = Some x ->
  (0 <=? x)%float = true /\ (x = infinity \/ two_decimals x).
Proof.
  intros Hx. pose proof (parseAmount_non_negative raw x Hx) as Hnn.
  split; [apply non_negative_spec, Hnn|].
  destruct (is_finite x) eqn:Hfin.
  - right. destruct (parseAmount_rounded raw x Hx) as [y ->].
    apply round2_two_decimals, Hfin.
  - left. rewrite is_finite_spec in Hfin.
    destruct (Prim2SF x) as [s|[]| |[] m e] eqn:Ex; simpl in Hnn; try tauto; try discriminate.
    exact (infinity_of_spec x false Ex).
Qed.

Lemma accepted_amount_non_negative_witness :
  (0 <=? round2 (parseFloat "0.001"))%float = true /\
  (round2 (parseFloat "0.001") = infinity \/ two_decimals (round2 (parseFloat "0.001"))).
Proof.
  apply (accepted_amount_non_negative "0.001"). vm_compute. reflexivity.
Defined.

(** X11.  In a state reached from the empty ledger whose two balances
    are finite, every operation leaves both balances [>= 0]: a balance
    becomes NaN only after a balance was infinite. *)
Theorem finite_balances_stay_non_negative (env : Env) (a : Action) (s : State) :
  reachable s ->
  is_finite (checkingBalance (data s)) = true ->
  is_finite (savingsBalance (data s)) = true ->
  (0 <=? checkingBalance (data (perform env a s)))%float = true /\
  (0 <=? savingsBalance (data (perform env a s)))%float = true.
Proof.
  intros Hs Fc Fs. destruct (reachable_not_below_zero s Hs) as [Hc Hv].
  rewrite !non_negative_spec.
  apply (step_non_negative env (data s) _ _ (perform_step env a s) Fc Fs);
    apply finite_non_negative; assumption.
Qed.

Lemma finite_balances_stay_non_negative_witness :
  (0 <=? checkingBalance (data (perform demo_env (Transfer checkingToSavings "2.5")
           (perform demo_env (EditChecking "12.5") (initialState ∅)))))%float = true.
Proof.
  refine (proj1 (finite_balances_stay_non_negative demo_env (Transfer checkingToSavings "2.5")
                   (perform demo_env (EditChecking "12.5") (initialState ∅)) _ _ _)).
  - apply reachable_perform, reachable_initial.
  - vm_compute. reflexivity.
  - vm_compute. reflexivity.
Defined.

(** ** The histories the page shows *)

Section Views.

Lemma not_in_filter (p : Transaction -> bool) (t : Transaction) (l : list Transaction) :
  p t = false -> ~ In t (List.filter p l).
Proof. intros Hp Hin. apply filter_In in Hin as [_ Hin]. congruence. Qed.

Lemma step_visible (env : Env) (d d' : BankingData) (msg : option string) :
  ledger_step env d msg d' ->
  Forall visible (transactions d) -> Forall visible (transactions d').
Proof.
  intros Hstep Hold.
  destruct Hstep; simpl; try assumption;
    (constructor; [| apply Forall_take; assumption]);
    (split; [reflexivity | intros Hgoal; first [reflexivity | discriminate Hgoal]]).
Qed.

Lemma map_sublist {A B : Type} (f : A -> B) (l1 l2 : list A) :
  l1 `sublist_of` l2 -> List.map f l1 `sublist_of` List.map f l2.
Proof. induction 1; simpl; constructor; assumption. Qed.

(** The ids of the history after a step are among the id the step drew
    and the ids of the history before, in that order. *)
Lemma step_ids (env : Env) (d d' : BankingData) (msg : option string) :
  ledger_step env d msg d' ->
  List.map id (transactions d') `sublist_of` makeId env :: List.map id (transactions d).
Proof.
  intros Hstep.
  destruct Hstep; simpl transactions;
    try (apply sublist_cons; reflexivity);
    exact (map_sublist id _ (_ :: _) (sublist_take _ 25%nat)).
Qed.

Lemma run_ids_distinct (steps : list (Env * Action)) :
  forall s, NoDup (rev (ids steps) ++ List.map id (transactions (data s))) ->
  NoDup (List.map id (transactions (data (run steps s)))).
Proof.
  induction steps as [|[env a] rest IH]; intros s Hnd; simpl in *.
  - exact Hnd.
  - apply IH. rewrite <- app_assoc in Hnd. simpl in Hnd.
    eapply sublist_NoDup; [exact Hnd|].
    apply sublist_app; [reflexivity|].
    exact (step_ids env _ _ _ (perform_step env a s)).
Qed.

End Views.

(** X12.  The transaction of an accepted operation is the first row of
    the histories of the accounts the operation touches, and no row of
    the others: a transfer shows in checking and in savings; a bill and
    an edit of checking in checking only; a deposit and an edit of
    savings in savings only; a goal in savings and in the goal history. *)
Theorem operation_shows_in_histories (env : Env) (a : Action) (s : State) :
  accepted env a s ->
  exists t,
    head (transactions (data (perform env a s))) = Some t /\
    id t = makeId env /\
    let rows := transactions (data (perform env a s)) in
    first_row_or_absent (fst (fst (shown_in a))) t (checkingHistory rows) /\
    first_row_or_absent (snd (fst (shown_in a))) t (savingsHistory rows) /\
    first_row_or_absent (snd (shown_in a)) t (goalHistory rows).
Proof.
  unfold accepted. rewrite perform_modalError, !perform_data.
  destruct a as [d raw|desc raw|raw|raw|raw|raw]; cbn -[parseAmount take trim];
    unfold onConfirmTransfer, onConfirmPayBills, onConfirmAddMoney, onConfirmSetGoal,
           onConfirmEditChecking, onConfirmEditSavings; cbn -[parseAmount take trim];
    try destruct (truthy (trim desc)); cbn -[parseAmount take trim];
    try discriminate;
    destruct (parseAmount raw) as [x|]; cbn -[take]; try discriminate;
    try destruct d; cbn -[take];
    try match goal with |- context [(?b <? x)%float] => destruct (b <? x)%float end;
    cbn -[take]; try discriminate; intros _;
    (eexists; split; [reflexivity|]; split; [reflexivity|]);
    repeat split; try reflexivity; apply not_in_filter; reflexivity.
Qed.

Lemma operation_shows_in_histories_witness :
  exists t,
    head (transactions (data (perform demo_env (SetGoal "5000") (initialState ∅)))) = Some t /\
    id t = makeId demo_env /\
    let rows := transactions (data (perform demo_env (SetGoal "5000") (initialState ∅))) in
    ~ In t (checkingHistory rows) /\
    head (savingsHistory rows) = Some t /\
    head (goalHistory rows) = Some t.
Proof.
  apply (operation_shows_in_histories demo_env (SetGoal "5000") (initialState ∅)).
  vm_compute. reflexivity.
Defined.

(** X13.  From the empty ledger, every transaction of the history is a
    row of the checking history or of the savings history, and every row
    of the goal history is a row of the savings history too. *)
Theorem every_transaction_is_shown (s : State) :
  reachable s ->
  let rows := transactions (data s) in
  (forall t, In t rows -> In t (checkingHistory rows) \/ In t (savingsHistory rows)) /\
  (forall t, In t (goalHistory rows) -> In t (savingsHistory rows)).
Proof.
  intros Hs.
  assert (Hall : Forall visible (transactions (data s))).
  { induction Hs as [storage | env a s _ IH]; [constructor|].
    exact (step_visible _ _ _ _ (perform_step env a s) IH). }
  rewrite Forall_forall in Hall. cbv zeta. split.
  - intros t Hin. destruct (Hall t (proj2 (list_elem_of_In _ _) Hin)) as [Hor _].
    apply orb_true_iff in Hor as [H|H]; [left | right]; apply filter_In; auto.
  - intros t Hin. apply filter_In in Hin as [Hin Hg].
    destruct (Hall t (proj2 (list_elem_of_In _ _) Hin)) as [_ Hsav].
    apply filter_In. auto.
Qed.

Lemma every_transaction_is_shown_witness :
  let rows := transactions (data (perform demo_env (SetGoal "5000") (initialState ∅))) in
  let t := {| id := "tx-1"; date := "2026-01-15"; description := "Set savings goal";
              amount := 0; category := "Goal"; scope := Some savings |} in
  In t (savingsHistory rows).
Proof.
  intros rows t.
  refine (proj2 (every_transaction_is_shown
                   (perform demo_env (SetGoal "5000") (initialState ∅)) _) t _).
  - apply reachable_perform, reachable_initial.
  - left. reflexivity.
Defined.

(** X14.  When the operations draw distinct ids and start from an empty
    history, the transactions of the history have distinct ids, whichever
    operations are accepted. *)
Theorem history_ids_distinct (steps : list (Env * Action)) (s : State) :
  transactions (data s) = [] ->
  NoDup (ids steps) ->
  NoDup (List.map id (transactions (data (run steps s)))).
Proof.
  intros Hempty Hnd. apply run_ids_distinct. rewrite Hempty. simpl. rewrite app_nil_r.
  apply NoDup_ListNoDup, NoDup_rev, NoDup_ListNoDup, Hnd.
Qed.

Lemma history_ids_distinct_witness :
  NoDup (List.map id (transactions (data (run demo_steps (initialState ∅))))).
Proof.
  apply history_ids_distinct; [reflexivity|].
  apply (bool_decide_unpack _). vm_compute. exact I.
Defined.

(** What a handler leaves as it was, and what it does to the dialog. *)
Lemma handle_dialog (env : Env) (a : Action) (s : State) :
  let s' := handle env a s in
  user s' = user s /\ localStorage s' = localStorage s /\
  isInitialLoad s' = isInitialLoad s /\
  (modalError s' = None -> modal s' = None /\ selectedTransaction s' = None) /\
  (modalError s' <> None ->
   modal s' = Some (dialog_of a) /\ amountInput s' = amount_text a /\ data s' = data s).
Proof.
  destruct a as [d raw|desc raw|raw|raw|raw|raw]; cbn -[parseAmount take trim];
    unfold onConfirmTransfer, onConfirmPayBills, onConfirmAddMoney, onConfirmSetGoal,
           onConfirmEditChecking, onConfirmEditSavings; cbn -[parseAmount take trim];
    try destruct (truthy (trim desc)); cbn -[parseAmount take trim];
    try destruct (parseAmount raw) as [x|]; cbn -[take];
    try destruct d; cbn -[take];
    try match goal with |- context [(?b <? ?y)%float] => destruct (b <? y)%float end;
    cbn -[take];
    repeat split; try reflexivity;
    exfalso;
    match goal with
    | H : Some _ = None |- _ => discriminate H
    | H : _ <> _ |- _ => apply H; reflexivity
    end.
Qed.

(** X15.  An operation never touches the session.  When it is accepted
    the dialog is closed and the render that follows writes the new ledger
    to storage under the ledger key, every other entry staying as it was
    (nothing is written while the page is still loading); when it is
    rejected the dialog stays open with the amount text as typed, and the
    ledger and the storage are as they were. *)
Theorem operation_dialog (env : Env) (a : Action) (s : State) :
  let s' := perform env a s in
  user s' = user s /\
  (accepted env a s ->
   modal s' = None /\ selectedTransaction s' = None /\
   localStorage s'
   = if isInitialLoad s then localStorage s
     else <[DATA_KEY := JSON_stringify env (data s')]> (localStorage s)) /\
  (~ accepted env a s ->
   modal s' = Some (dialog_of a) /\ amountInput s' = amount_text a /\
   data s' = data s /\ localStorage s' = localStorage s).
Proof.
  cbv zeta. unfold accepted.
  rewrite perform_user, perform_modal, perform_selected, perform_amountInput,
    perform_data, perform_modalError.
  destruct (handle_dialog env a s) as (Hu & Hst & Hi & Hacc & Hrej).
  split; [exact Hu|]. split.
  - intros Hok. destruct (Hacc Hok) as [Hm Hsel].
    split; [exact Hm|]. split; [exact Hsel|].
    unfold perform. cbv zeta. rewrite Hok, saveEffect_storage, Hi, Hst. reflexivity.
  - intros Hno. destruct (Hrej Hno) as (Hm & Ha & Hd).
    split; [exact Hm|]. split; [exact Ha|]. split; [exact Hd|].
    unfold perform. cbv zeta.
    destruct (modalError (handle env a s)); [exact Hst | contradiction].
Qed.

Lemma operation_dialog_witness :
  let s := initialState (<[DATA_KEY := emptyData_text]> ∅) in
  let s' := perform demo_env (AddMoney "-5") s in
  modal s' = Some addMoney /\ amountInput s' = "-5" /\
  data s' = emptyData /\ localStorage s' = localStorage s.
Proof.
  refine (proj2 (proj2
    (operation_dialog demo_env (AddMoney "-5")
       (initialState (<[DATA_KEY := emptyData_text]> ∅)))) _).
  unfold accepted. vm_compute. discriminate.
Defined.

(** ** The goal card *)

Section GoalCard.

Lemma is_nan_spec (x : number) :
  PrimFloat.is_nan x = match Prim2SF x with S754_nan => true | _ => false end.
Proof.
  unfold PrimFloat.is_nan. rewrite FloatAxioms.eqb_spec. unfold SFeqb.
  destruct (Prim2SF x) as [s|[]| |[] m e]; simpl; try reflexivity;
    rewrite Z.compare_refl, Pos.compare_cont_refl; reflexivity.
Qed.

Lemma ltb_leb (x y : number) : (x <? y)%float = true -> (x <=? y)%float = true.
Proof.
  rewrite FloatAxioms.ltb_spec, FloatAxioms.leb_spec. unfold SFltb, SFleb.
  destruct (SFcompare _ _) as [[]|]; congruence.
Qed.

(** Of two numbers that are no NaN, one is [<=] the other. *)
Lemma not_ltb_leb (x y : number) :
  PrimFloat.is_nan x = false -> PrimFloat.is_nan y = false ->
  (y <? x)%float = false -> (x <=? y)%float = true.
Proof.
  rewrite !is_nan_spec, FloatAxioms.ltb_spec, FloatAxioms.leb_spec. unfold SFltb, SFleb.
  rewrite (SFcompare_swap (Prim2SF x) (Prim2SF y)).
  destruct (Prim2SF x) as [sx|sx| |sx mx ex], (Prim2SF y) as [sy|sy| |sy my ey];
    try discriminate; intros _ _;
    destruct (SFcompare _ _) as [[]|] eqn:Hc; simpl; try congruence;
    simpl in Hc; try discriminate;
    destruct sx; try destruct sy; discriminate.
Qed.

Lemma non_negative_not_nan (x : number) :
  non_negative (Prim2SF x) -> PrimFloat.is_nan x = false.
Proof. rewrite is_nan_spec. destruct (Prim2SF x); simpl; tauto. Qed.

(** [Math.min(100, p)] of a number [p >= 0] is between 0 and 100. *)
Lemma Math_min_100 (p : number) :
  non_negative (Prim2SF p) ->
  (0 <=? Math_min 100 p)%float = true /\ (Math_min 100 p <=? 100)%float = true.
Proof.
  intros Hp. pose proof (non_negative_not_nan p Hp) as Hnan.
  unfold Math_min. rewrite Hnan. change (PrimFloat.is_nan 100) with false.
  change (get_sign 100) with false. simpl orb. cbv iota.
  destruct (100 <? p)%float eqn:H1; [split; reflexivity|].
  assert (Hle : (p <=? 100)%float = true)
    by (apply not_ltb_leb; [exact Hnan | reflexivity | exact H1]).
  destruct (p <? 100)%float; (split; [apply non_negative_spec, Hp | exact Hle]).
Qed.

(** The quotient of a finite balance [>= 0] by a goal [> 0]. *)
Lemma ratio_non_negative (x goal : number) :
  is_finite x = true -> non_negative (Prim2SF x) ->
  non_negative (Prim2SF goal) -> truthy_number goal = true ->
  non_negative (Prim2SF (x / goal)).
Proof.
  rewrite is_finite_spec. unfold truthy_number, PrimFloat.is_zero.
  rewrite FloatAxioms.eqb_spec, div_spec. change (Prim2SF 0) with (S754_zero false).
  unfold SFeqb.
  destruct (Prim2SF x) as [sx|sx| |[] mx ex]; try discriminate; simpl; try tauto;
    intros _ _; destruct (Prim2SF goal) as [sg|[]| |[] mg eg]; simpl; try tauto;
    try discriminate; intros _ _.
  pose proof (SFdiv_core_nonneg mx mg ex eg) as Hq.
  destruct (SFdiv_core_binary _ _ _ _ _ _) as [[mz ez] lz]. simpl in Hq.
  apply signed_as_non_negative, binary_round_aux_shape, Hq.
Qed.

Lemma times_100_non_negative (x : number) :
  non_negative (Prim2SF x) -> non_negative (Prim2SF (x * 100)).
Proof.
  intros Hx. rewrite mul_spec.
  change (Prim2SF 100) with (S754_finite false 7036874417766400 (-46)).
  apply SFmul_non_negative, Hx.
Qed.

Lemma step_goal (env : Env) (d d' : BankingData) (msg : option string) :
  ledger_step env d msg d' -> goal_non_negative d -> goal_non_negative d'.
Proof.
  intros Hstep Hg. destruct Hstep; unfold goal_non_negative; simpl; try exact Hg.
  eapply parseAmount_non_negative; eassumption.
Qed.

Lemma reachable_goal (s : State) : reachable s -> goal_non_negative (data s).
Proof.
  induction 1 as [storage | env a s _ IH]; [exact I|].
  exact (step_goal _ _ _ _ (perform_step env a s) IH).
Qed.

End GoalCard.

(** X16.  From the empty ledger, while the savings balance is finite,
    the percentage of the goal card and the width of its bar are between
    0 and 100; the card is hidden exactly when no goal is set or the goal
    equals 0. *)
Theorem goal_progress_in_range (s : State) :
  reachable s ->
  is_finite (savingsBalance (data s)) = true ->
  (forall p, goalPercent (data s) = Some p ->
     (0 <=? p)%float = true /\ (p <=? 100)%float = true) /\
  (forall w, goalBarWidth (data s) = Some w ->
     (0 <=? w)%float = true /\ (w <=? 100)%float = true) /\
  (goalPercent (data s) = None <->
   savingsGoal (data s) = None \/
   exists goal, savingsGoal (data s) = Some goal /\ PrimFloat.is_zero goal = true).
Proof.
  intros Hs Hfin.
  pose proof (reachable_goal s Hs) as Hgoal.
  destruct (reachable_not_below_zero s Hs) as [_ Hv].
  pose proof (finite_non_negative _ Hfin Hv) as Hsav.
  unfold goalPercent, goalBarWidth, goal_non_negative in *.
  destruct (savingsGoal (data s)) as [goal|];
    [| split; [discriminate | split; [discriminate | split; auto]]].
  pose proof (non_negative_not_nan goal Hgoal) as Hnan.
  destruct (truthy_number goal) eqn:Ht.
  - split; [| split].
    + intros p [= <-].
      apply Math_min_100, Math_round_non_negative, times_100_non_negative,
        ratio_non_negative; assumption.
    + intros w [= <-].
      apply Math_min_100, times_100_non_negative, ratio_non_negative; assumption.
    + split; [discriminate|]. intros [H|[g [[= <-] Hz]]]; [discriminate H|].
      unfold truthy_number in Ht. rewrite Hz in Ht. discriminate Ht.
  - split; [discriminate|]. split; [discriminate|]. split; [| reflexivity].
    intros _. right. exists goal. split; [reflexivity|].
    unfold truthy_number in Ht. rewrite Hnan in Ht.
    destruct (PrimFloat.is_zero goal); [reflexivity | discriminate Ht].
Qed.

Lemma goal_progress_in_range_witness :
  let s := run [(demo_env, AddMoney "250"); (demo_env, Transfer savingsToChecking "150");
                  (demo_env, SetGoal "300")] (initialState ∅) in
  goalPercent (data s) = Some 33%float /\
  (0 <=? 33)%float = true /\ (33 <=? 100)%float = true.
Proof.
  assert (Hs : reachable (run [(demo_env, AddMoney "250"); (demo_env, Transfer savingsToChecking "150");
                  (demo_env, SetGoal "300")] (initialState ∅)))
    by (repeat apply reachable_perform; apply reachable_initial).
  split; [vm_compute; reflexivity|].
  refine (proj1 (goal_progress_in_range _ Hs _) 33%float _);
    vm_compute; reflexivity.
Defined.

(** ** The service worker over time *)

Section ServiceWorker.

Import SW.

(** A response stored under another URL does not change what the caches
    answer for a URL they hold. *)
Lemma caches_put_other (name u u' : string) (r' : Response) (cs : CacheStorage) :
  u <> u' -> caches_match (caches_put name u' r' cs) u = caches_match cs u.
Proof.
  intros Hne. induction cs as [|[n c] rest IH]; simpl.
  - rewrite lookup_singleton_ne by congruence. reflexivity.
  - destruct (bool_decide (n = name)); simpl.
    + rewrite lookup_insert_ne by congruence. reflexivity.
    + rewrite IH. reflexivity.
Qed.

(** A cache of another name is not written by [caches_put]. *)
Lemma caches_put_lookup_other (name n u : string) (r : Response) (cs : CacheStorage) :
  n <> name -> caches_lookup n (caches_put name u r cs) = caches_lookup n cs.
Proof.
  intros Hne. induction cs as [|[n' c] rest IH]; simpl.
  - rewrite bool_decide_eq_false_2 by congruence. reflexivity.
  - destruct (decide (n' = name)) as [Hn|Hn].
    + rewrite (bool_decide_eq_true_2 _ Hn). simpl.
      rewrite !bool_decide_eq_false_2 by congruence. reflexivity.
    + rewrite (bool_decide_eq_false_2 _ Hn). simpl. rewrite IH. reflexivity.
Qed.

(** *** Installation *)

Lemma caches_open_match (name u : string) (cs : CacheStorage) :
  caches_match (caches_open name cs) u = caches_match cs u.
Proof.
  induction cs as [|[n c] rest IH]; simpl; [reflexivity|].
  destruct (bool_decide (n = name)); simpl; [reflexivity|].
  rewrite IH. reflexivity.
Qed.

Lemma caches_put_holds_other (name u u' : string) (r r' : Response) (cs : CacheStorage) :
  u <> u' -> holds name u r cs -> holds name u r (caches_put name u' r' cs).
Proof.
  intros Hne [c [Hc Hu]]. induction cs as [|[n c'] rest IH]; simpl in *; [discriminate|].
  destruct (decide (n = name)) as [Hn|Hn].
  - rewrite (bool_decide_eq_true_2 _ Hn) in *. injection Hc as ->.
    exists (<[u' := r']> c). simpl. rewrite (bool_decide_eq_true_2 _ Hn).
    split; [reflexivity|]. rewrite lookup_insert_ne by congruence. exact Hu.
  - rewrite (bool_decide_eq_false_2 _ Hn) in *.
    destruct (IH Hc) as [c2 [H1 H2]]. exists c2. simpl.
    rewrite (bool_decide_eq_false_2 _ Hn). split; assumption.
Qed.

(** After the entries were put, the cache holds each URL of them with
    the response the network gave for it. *)
Lemma put_all_holds (network : Request -> option Response) (name : string)
    (entries : list (string * Response)) (cs : CacheStorage) (u : string) (r : Response) :
  (forall e, e ∈ entries -> network (shell_request (fst e)) = Some (snd e)) ->
  network (shell_request u) = Some r ->
  holds name u r cs \/ u ∈ List.map fst entries ->
  holds name u r (put_all name entries cs).
Proof.
  unfold put_all. revert cs.
  induction entries as [|[u' r'] rest IH]; intros cs Hnet Hu Hin; simpl.
  - destruct Hin as [H|H]; [exact H | inversion H].
  - apply IH; [intros e He; apply Hnet; right; exact He | exact Hu |].
    destruct (decide (u = u')) as [<-|Hne].
    + left. assert (r' = r) as ->.
      { specialize (Hnet (u, r') ltac:(left)). simpl in Hnet. congruence. }
      apply caches_put_lookup.
    + destruct Hin as [H|H].
      * left. apply caches_put_holds_other; assumption.
      * simpl in H. apply elem_of_cons in H as [H|H]; [contradiction|]. right. exact H.
Qed.

Lemma fetch_all_entries (network : Request -> option Response) (ok : Response -> bool)
    (urls : list string) (entries : list (string * Response)) :
  fetch_all network ok urls = Some entries ->
  List.map fst entries = urls /\
  forall e, e ∈ entries -> network (shell_request (fst e)) = Some (snd e) /\ ok (snd e) = true.
Proof.
  revert entries. induction urls as [|u rest IH]; simpl; intros entries.
  - intros [= <-]. split; [reflexivity|]. intros e He. inversion He.
  - destruct (network (shell_request u)) as [r|] eqn:Hn; [| discriminate].
    destruct (ok r) eqn:Hok; [| discriminate].
    destruct (fetch_all network ok rest) as [es|]; [| discriminate].
    intros [= <-]. destruct (IH es eq_refl) as [Hm He]. split; [simpl; congruence|].
    intros e Hin. apply elem_of_cons in Hin as [->|Hin]; [split; assumption | apply He, Hin].
Qed.

Lemma fetch_all_fails (network : Request -> option Response) (ok : Response -> bool)
    (urls : list string) :
  fetch_all network ok urls = None <->
  exists u, u ∈ urls /\
    match network (shell_request u) with Some r => ok r = false | None => True end.
Proof.
  induction urls as [|u rest IH]; simpl.
  - split; [discriminate|]. intros [u [Hu _]]. inversion Hu.
  - destruct (network (shell_request u)) as [r|] eqn:Hn.
    + destruct (ok r) eqn:Hok.
      * destruct (fetch_all network ok rest) as [es|].
        -- split; [discriminate|]. intros [u' [Hu' Hbad]].
           apply elem_of_cons in Hu' as [->|Hu'].
           ++ rewrite Hn in Hbad. congruence.
           ++ exfalso. assert (H : Some es = None) by (apply IH; exists u'; split; assumption).
              discriminate H.
        -- split; [| reflexivity]. intros _.
           destruct (proj1 IH eq_refl) as [u' [Hu' Hbad]].
           exists u'. split; [right; exact Hu' | exact Hbad].
      * split; [| reflexivity]. intros _. exists u. split; [left|]. rewrite Hn. exact Hok.
    + split; [| reflexivity]. intros _. exists u. split; [left|]. rewrite Hn. exact I.
Qed.

(** *** Activation *)

Lemma onActivate_lookup (cs : CacheStorage) :
  caches_lookup CACHE_NAME (onActivate cs) = caches_lookup CACHE_NAME cs.
Proof.
  unfold onActivate. induction cs as [|[n c] rest IH]; simpl; [reflexivity|].
  destruct (decide (n = CACHE_NAME)) as [Hn|Hn].
  - rewrite (bool_decide_eq_true_2 _ Hn). simpl. rewrite (bool_decide_eq_true_2 _ Hn).
    reflexivity.
  - rewrite (bool_decide_eq_false_2 _ Hn). exact IH.
Qed.

(** Once the other caches are deleted, what the first current cache
    holds is what the caches answer. *)
Lemma onActivate_match (cs : CacheStorage) (u : string) (r : Response) :
  holds CACHE_NAME u r cs -> caches_match (onActivate cs) u = Some r.
Proof.
  intros [c [Hc Hu]]. unfold onActivate.
  induction cs as [|[n c'] rest IH]; simpl in *; [discriminate|].
  destruct (bool_decide (n = CACHE_NAME)); simpl.
  - injection Hc as ->. rewrite Hu. reflexivity.
  - apply IH, Hc.
Qed.

Lemma onActivate_source (cs : CacheStorage) (u : string) (r : Response) :
  caches_match (onActivate cs) u = Some r ->
  exists c, (CACHE_NAME, c) ∈ cs /\ c !! u = Some r.
Proof.
  unfold onActivate. induction cs as [|[n c] rest IH]; simpl; [discriminate|].
  destruct (decide (n = CACHE_NAME)) as [Hn|Hn].
  - rewrite (bool_decide_eq_true_2 _ Hn). simpl.
    destruct (c !! u) as [r'|] eqn:Hc.
    + intros [= ->]. exists c. rewrite <- Hn. split; [left | exact Hc].
    + intros H. destruct (IH H) as [c2 [H1 H2]]. exists c2. split; [right|]; assumption.
  - rewrite (bool_decide_eq_false_2 _ Hn).
    intros H. destruct (IH H) as [c2 [H1 H2]]. exists c2. split; [right|]; assumption.
Qed.

(** *** Events that overlap *)

Lemma caches_put_twice (name u : string) (r r' : Response) (cs : CacheStorage) :
  caches_match cs u = None ->
  caches_match (caches_put name u r' (caches_put name u r cs)) u = Some r'.
Proof.
  induction cs as [|[n c] rest IH]; simpl.
  - intros _. rewrite bool_decide_eq_true_2 by reflexivity. simpl.
    rewrite lookup_insert_eq. reflexivity.
  - destruct (c !! u) as [r0|] eqn:Hc; [discriminate|]. intros Hrest.
    destruct (bool_decide (n = name)) eqn:E; simpl; rewrite E; simpl.
    + rewrite lookup_insert_eq. reflexivity.
    + rewrite Hc. apply IH, Hrest.
Qed.

(** Opening a cache and then storing in it gives the caches that
    storing alone gives. *)
Lemma caches_put_open (name u : string) (r : Response) (cs : CacheStorage) :
  caches_put name u r (caches_open name cs) = caches_put name u r cs.
Proof.
  induction cs as [|[n c] rest IH]; cbn.
  - rewrite bool_decide_eq_true_2 by reflexivity. reflexivity.
  - destruct (bool_decide (n = name)) eqn:E; cbn; rewrite E; [reflexivity|].
    f_equal. exact IH.
Qed.

(** A step keeps what the caches answer for a URL that no pending call
    can write, and answers the requests of that URL from the caches. *)
Lemma step_keeps (e : Event) (w : World) (u : string) (r : Response) :
  caches_match (caches w) u = Some r -> settled_for u w ->
  caches_match (caches (snd (step e w))) u = Some r /\
  settled_for u (snd (step e w)) /\
  (forall a, fst (step e w) = Some a -> answers_with u r a).
Proof.
  intros Hu Hq. unfold settled_for, answers_with in *.
  destruct e as [network request|i]; simpl.
  - destruct (decide (method request = "GET")) as [Hget|Hget].
    + rewrite (bool_decide_eq_true_2 _ Hget). simpl.
      split; [exact Hu|]. split; [| discriminate].
      apply Forall_app. split; [exact Hq|]. constructor; [reflexivity | constructor].
    + rewrite (bool_decide_eq_false_2 _ Hget). simpl.
      split; [exact Hu|]. split; [exact Hq|].
      intros a [= <-] _ Hm. contradiction.
  - destruct (pending w !! i) as [t|] eqn:Ht; simpl;
      [| split; [exact Hu|]; split; [exact Hq | discriminate]].
    pose proof (Forall_lookup_1 _ _ _ _ Hq Ht) as Hp.
    pose proof (Forall_delete _ _ i Hq) as Hrest.
    destruct t as [network request|network request|request|request response|request response];
      simpl in Hp.
    + destruct (caches_match (caches w) (url request)) as [cached|] eqn:Hc; simpl.
      * split; [exact Hu|]. split; [exact Hrest|].
        intros a [= <-] Hurl _. simpl in Hurl. rewrite Hurl, Hu in Hc.
        injection Hc as <-. reflexivity.
      * split; [exact Hu|]. split; [| discriminate].
        apply Forall_app. split; [exact Hrest|]. constructor; [| constructor].
        simpl. apply bool_decide_eq_false_2. intros Hurl. rewrite Hurl in Hc. congruence.
    + apply bool_decide_eq_false_1 in Hp.
      destruct (network request) as [response|]; simpl.
      * split; [exact Hu|]. split.
        -- apply Forall_app. split; [exact Hrest|]. constructor; [| constructor].
           simpl. apply bool_decide_eq_false_2, Hp.
        -- intros a [= <-] Hurl. contradiction.
      * destruct (bool_decide (mode request = "navigate")); simpl.
        -- split; [exact Hu|]. split; [| discriminate].
           apply Forall_app. split; [exact Hrest|]. constructor; [| constructor].
           simpl. apply bool_decide_eq_false_2, Hp.
        -- split; [exact Hu|]. split; [exact Hrest|].
           intros a [= <-] Hurl. contradiction.
    + apply bool_decide_eq_false_1 in Hp.
      split; [exact Hu|]. split; [exact Hrest|].
      intros a [= <-] Hurl. contradiction.
    + apply bool_decide_eq_false_1 in Hp.
      split; [simpl; rewrite caches_open_match; exact Hu|]. split; [| discriminate].
      apply Forall_app. split; [exact Hrest|]. constructor; [| constructor].
      simpl. apply bool_decide_eq_false_2, Hp.
    + apply bool_decide_eq_false_1 in Hp.
      split; [| split; [exact Hrest | discriminate]].
      simpl. rewrite caches_put_other; [exact Hu | congruence].
Qed.

Lemma steps_keep (events : list Event) (w : World) (u : string) (r : Response) :
  caches_match (caches w) u = Some r -> settled_for u w ->
  caches_match (caches (snd (steps events w))) u = Some r /\
  settled_for u (snd (steps events w)) /\
  Forall (answers_with u r) (fst (steps events w)).
Proof.
  revert w. induction events as [|e rest IH]; intros w Hu Hq; simpl.
  - split; [exact Hu|]. split; [exact Hq | constructor].
  - destruct (step_keeps e w u r Hu Hq) as (H1 & H2 & H3).
    destruct (step e w) as [answer w1]. simpl in H1, H2, H3.
    destruct (IH w1 H1 H2) as (K1 & K2 & K3).
    destruct (steps rest w1) as [answers w2]. simpl in *.
    split; [exact K1|]. split; [exact K2|].
    destruct answer as [a|]; [| exact K3].
    constructor; [apply H3; reflexivity | exact K3].
Qed.

End ServiceWorker.

(** X17.  The service worker does not refresh a cached response: when
    the caches answer a URL and no event for that URL is past its cache
    lookup (no fetch and no storing of a response for it is pending),
    then after any sequence of arrivals and settlements, in any order,
    the caches answer the URL the same, still no event for it is past its
    lookup, and every answer given meanwhile to a GET request of that URL
    is that response, whatever the network would return. *)
Theorem cached_response_is_never_refreshed
    (events : list SW.Event) (w : SW.World) (u : string) (r : SW.Response) :
  SW.caches_match (SW.caches w) u = Some r ->
  settled_for u w ->
  let w' := snd (SW.steps events w) in
  SW.caches_match (SW.caches w') u = Some r /\
  settled_for u w' /\
  forall request outcome,
    (request, outcome) ∈ fst (SW.steps events w) ->
    SW.url request = u -> SW.method request = "GET" ->
    outcome = SW.RespondWith (Some r).
Proof.
  intros Hu Hq w'. destruct (steps_keep events w u r Hu Hq) as (H1 & H2 & H3).
  split; [exact H1|]. split; [exact H2|].
  intros request outcome Hin Hurl Hget.
  rewrite Forall_forall in H3. exact (H3 _ Hin Hurl Hget).
Qed.

Lemma cached_response_is_never_refreshed_witness :
  let old := {| SW.body := "<html>v1" |} in
  let new := fun _ : SW.Request => Some {| SW.body := "<html>v2" |} in
  let request := {| SW.method := "GET"; SW.mode := "navigate"; SW.url := "/" |} in
  let asset := {| SW.method := "GET"; SW.mode := "cors"; SW.url := "/app.js" |} in
  let w := idle [(SW.CACHE_NAME, {[ "/" := old ]})] in
  let events := [SW.Arrives new asset; SW.Arrives new request; SW.Settles 1;
                 SW.Settles 0; SW.Settles 0; SW.Arrives new request; SW.Settles 0;
                 SW.Settles 1; SW.Settles 0] in
  SW.caches_match (SW.caches (snd (SW.steps events w))) "/" = Some old /\
  fst (SW.steps events w)
  = [(request, SW.RespondWith (Some old));
     (asset, SW.RespondWith (Some {| SW.body := "<html>v2" |}));
     (request, SW.RespondWith (Some old))].
Proof.
  intros old new request asset w events.
  split; [| vm_compute; reflexivity].
  exact (proj1 (cached_response_is_never_refreshed events w "/" old
                  eq_refl (Forall_nil_2 _))).
Defined.

(** X28.  A cached response can be replaced while it is fresh: when two
    GET requests of a URL that no cache answers overlap, both are
    fetched, each is answered with the response of its own fetch, the
    caches then answer the URL with the first response, and the pending
    [put] of the second replaces it. *)
Theorem overlapping_requests_replace_the_response
    (n1 n2 : SW.Request -> option SW.Response) (request : SW.Request)
    (cs : list (string * gmap string SW.Response)) (r1 r2 : SW.Response) :
  SW.method request = "GET" ->
  SW.caches_match cs (SW.url request) = None ->
  n1 request = Some r1 -> n2 request = Some r2 ->
  let w := snd (SW.steps (overlapping n1 n2 request) (idle cs)) in
  fst (SW.steps (overlapping n1 n2 request) (idle cs))
  = [(request, SW.RespondWith (Some r1)); (request, SW.RespondWith (Some r2))] /\
  SW.caches_match (SW.caches w) (SW.url request) = Some r1 /\
  SW.pending w = [SW.Putting request r2] /\
  SW.caches_match (SW.caches (snd (SW.step (SW.Settles 0) w))) (SW.url request) = Some r2.
Proof.
  intros Hget Hmiss H1 H2. unfold overlapping, idle.
  cbn [SW.steps SW.step SW.pending SW.caches app].
  rewrite (bool_decide_eq_true_2 _ Hget).
  cbn [negb SW.steps SW.step SW.pending SW.caches app lookup list_lookup delete list_delete].
  repeat (first [rewrite Hmiss | rewrite H1 | rewrite H2];
          cbn [negb SW.steps SW.step SW.pending SW.caches app lookup list_lookup
               delete list_delete fst snd]).
  split; [reflexivity|]. split; [| split; [reflexivity|]].
  - apply caches_put_match. rewrite !caches_open_match. exact Hmiss.
  - apply caches_put_twice. rewrite !caches_open_match. exact Hmiss.
Qed.

Lemma overlapping_requests_replace_the_response_witness :
  let request := {| SW.method := "GET"; SW.mode := "cors"; SW.url := "/app.js" |} in
  let n1 := fun _ : SW.Request => Some {| SW.body := "v1" |} in
  let n2 := fun _ : SW.Request => Some {| SW.body := "v2" |} in
  let w := snd (SW.steps (overlapping n1 n2 request) (idle [])) in
  SW.caches_match (SW.caches w) "/app.js" = Some {| SW.body := "v1" |} /\
  SW.caches_match (SW.caches (snd (SW.step (SW.Settles 0) w))) "/app.js"
  = Some {| SW.body := "v2" |}.
Proof.
  intros request n1 n2 w.
  destruct (overlapping_requests_replace_the_response n1 n2 request []
              {| SW.body := "v1" |} {| SW.body := "v2" |}
              eq_refl eq_refl eq_refl eq_refl) as (_ & Hfirst & _ & Hsecond).
  split; [exact Hfirst | exact Hsecond].
Defined.

(** X29.  A fetch event whose calls all settle before any other event
    arrives gives the answer and the caches of the handler run to
    completion, and leaves no call pending. *)
Theorem lone_fetch_event
    (network : SW.Request -> option SW.Response) (request : SW.Request)
    (cs : list (string * gmap string SW.Response)) :
  SW.steps (alone network request) (idle cs)
  = ([(request, fst (SW.onFetch network request cs))],
     idle (snd (SW.onFetch network request cs))).
Proof.
  unfold alone, idle, SW.onFetch. cbn [SW.steps SW.step].
  destruct (bool_decide (SW.method request = "GET")); cbn; [| reflexivity].
  destruct (SW.caches_match cs (SW.url request)) as [cached|]; cbn; [reflexivity|].
  destruct (network request) as [response|]; cbn.
  - rewrite caches_put_open. reflexivity.
  - destruct (bool_decide (SW.mode request = "navigate")); cbn; reflexivity.
Qed.

(** X18.  When the network answers every URL of the application shell
    with an [ok] response, installation succeeds; once the worker is
    activated the caches answer each of these URLs with the response
    installed, and every navigation is answered, even when the network
    fails. *)
Theorem installed_shell_is_served_offline
    (network offline : SW.Request -> option SW.Response) (ok : SW.Response -> bool)
    (cs : list (string * gmap string SW.Response)) :
  (forall u, u ∈ SW.APP_SHELL ->
     exists r, network (SW.shell_request u) = Some r /\ ok r = true) ->
  let cs' := SW.onActivate (snd (SW.onInstall network ok cs)) in
  fst (SW.onInstall network ok cs) = true /\
  (forall u, u ∈ SW.APP_SHELL -> SW.caches_match cs' u = network (SW.shell_request u)) /\
  (forall request, SW.method request = "GET" -> SW.mode request = "navigate" ->
     exists r, fst (SW.onFetch offline request cs') = SW.RespondWith (Some r)).
Proof.
  intros Hnet cs'. subst cs'. unfold SW.onInstall.
  destruct (SW.fetch_all network ok SW.APP_SHELL) as [entries|] eqn:Hall.
  - destruct (fetch_all_entries _ _ _ _ Hall) as [Hmap Hentries]. simpl fst. simpl snd.
    assert (Hshell : forall u, u ∈ SW.APP_SHELL ->
              SW.caches_match (SW.onActivate
                (SW.put_all SW.CACHE_NAME entries (SW.caches_open SW.CACHE_NAME cs))) u
              = network (SW.shell_request u)).
    { intros u Hu. destruct (Hnet u Hu) as [r [Hr _]]. rewrite Hr.
      apply onActivate_match, (put_all_holds network); [| exact Hr |].
      - intros e He. apply Hentries, He.
      - right. rewrite Hmap. exact Hu. }
    split; [reflexivity|]. split; [exact Hshell|].
    intros request Hget Hnav. unfold SW.onFetch.
    rewrite (bool_decide_eq_true_2 _ Hget). simpl negb. cbv iota.
    destruct (SW.caches_match _ (SW.url request)) as [cached|]; [eexists; reflexivity|].
    destruct (offline request) as [response|]; [eexists; reflexivity|].
    rewrite (bool_decide_eq_true_2 _ Hnav).
    destruct (Hnet "/" ltac:(left)) as [r [Hr _]].
    exists r. simpl. rewrite (Hshell "/" ltac:(left)), Hr. reflexivity.
  - exfalso. apply fetch_all_fails in Hall as [u [Hu Hbad]].
    destruct (Hnet u Hu) as [r [Hr Hok]]. rewrite Hr in Hbad. congruence.
Qed.

Lemma installed_shell_is_served_offline_witness :
  let request := {| SW.method := "GET"; SW.mode := "navigate"; SW.url := "/settings" |} in
  exists r,
    fst (SW.onFetch (fun _ => None) request
           (SW.onActivate (snd (SW.onInstall demo_network (fun _ => true) []))))
    = SW.RespondWith (Some r).
Proof.
  intros request.
  refine (proj2 (proj2 (installed_shell_is_served_offline demo_network (fun _ => None)
            (fun _ => true) [] _)) request eq_refl eq_refl).
  intros u _. eexists. split; reflexivity.
Defined.

(** X19.  Installation fails exactly when the network fails for a URL of
    the application shell or answers it with a response that is not
    [ok]; nothing is then cached: the caches answer every URL as before. *)
Theorem failed_install_caches_nothing
    (network : SW.Request -> option SW.Response) (ok : SW.Response -> bool)
    (cs : list (string * gmap string SW.Response)) :
  (fst (SW.onInstall network ok cs) = false <->
   exists u, u ∈ SW.APP_SHELL /\
     match network (SW.shell_request u) with Some r => ok r = false | None => True end) /\
  (fst (SW.onInstall network ok cs) = false ->
   forall u, SW.caches_match (snd (SW.onInstall network ok cs)) u = SW.caches_match cs u).
Proof.
  unfold SW.onInstall.
  pose proof (fetch_all_fails network ok SW.APP_SHELL) as Hfail.
  destruct (SW.fetch_all network ok SW.APP_SHELL) as [entries|]; simpl.
  - split; [| discriminate]. split; [discriminate|].
    intros H. apply Hfail in H. discriminate H.
  - split; [| intros _ u; apply caches_open_match].
    split; [intros _; apply Hfail; reflexivity | reflexivity].
Qed.

Lemma failed_install_caches_nothing_witness :
  let network := fun request : SW.Request =>
    if bool_decide (SW.url request = "/Images/Logobank.png") then None
    else Some {| SW.body := "<html>" |} in
  SW.caches_match (snd (SW.onInstall network (fun _ => true) [])) "/index.html" = None.
Proof.
  intros network.
  exact (proj2 (failed_install_caches_nothing network (fun _ => true) []) eq_refl
           "/index.html").
Defined.

(** X20.  Activation deletes the caches of every other name and keeps
    the current cache as it is; what the caches answer afterwards comes
    from a cache of the current name; and a fetch event writes to no
    cache of another name. *)
Theorem only_the_current_cache_survives
    (network : SW.Request -> option SW.Response) (request : SW.Request)
    (cs : list (string * gmap string SW.Response)) :
  (forall n c, (n, c) ∈ SW.onActivate cs <-> (n, c) ∈ cs /\ n = SW.CACHE_NAME) /\
  SW.caches_lookup SW.CACHE_NAME (SW.onActivate cs) = SW.caches_lookup SW.CACHE_NAME cs /\
  (forall u r, SW.caches_match (SW.onActivate cs) u = Some r ->
     exists c, (SW.CACHE_NAME, c) ∈ cs /\ c !! u = Some r) /\
  (forall n, n <> SW.CACHE_NAME ->
     SW.caches_lookup n (snd (SW.onFetch network request cs)) = SW.caches_lookup n cs).
Proof.
  split; [| split; [apply onActivate_lookup | split; [apply onActivate_source|]]].
  - intros n c. unfold SW.onActivate.
    rewrite list_elem_of_In, filter_In, <- list_elem_of_In. simpl.
    rewrite bool_decide_eq_true. reflexivity.
  - intros n Hn. unfold SW.onFetch.
    destruct (negb _); [reflexivity|].
    destruct (SW.caches_match cs (SW.url request)); [reflexivity|].
    destruct (network request); simpl.
    + apply caches_put_lookup_other, Hn.
    + destruct (bool_decide _); reflexivity.
Qed.

Lemma only_the_current_cache_survives_witness :
  let old : string * gmap string SW.Response :=
    ("mypersonalbank-cache-v0", {[ "/" := {| SW.body := "<html>v0" |} ]}) in
  let current : string * gmap string SW.Response :=
    (SW.CACHE_NAME, {[ "/" := {| SW.body := "<html>v1" |} ]}) in
  exists c, (SW.CACHE_NAME, c) ∈ [old; current] /\ c !! "/" = Some {| SW.body := "<html>v1" |}.
Proof.
  intros old current.
  refine (proj1 (proj2 (proj2 (only_the_current_cache_survives demo_network
            {| SW.method := "GET"; SW.mode := "navigate"; SW.url := "/" |}
            [old; current]))) "/" {| SW.body := "<html>v1" |} _).
  reflexivity.
Defined.

(** ** A page load and the storage *)


(** ** The session marker *)

Section SessionMarker.

Lemma text_chars (s : string) : text (chars s) = s.
Proof. apply String.string_of_list_ascii_of_string. Qed.

Lemma chars_app (a b : string) : chars (a +:+ b) = chars a ++ chars b.
Proof. induction a as [|c a IH]; simpl; [reflexivity|]. f_equal. exact IH. Qed.

(** The parser reads back one quoted character. *)
Lemma string_body_char (c : ascii) (tail acc : list ascii) (fuel : nat) :
  string_body (S fuel) (quote_chars [c] ++ tail) acc = string_body fuel tail (c :: acc).
Proof. destruct c as [[] [] [] [] [] [] [] []]; reflexivity. Qed.

Lemma quote_chars_cons (c : ascii) (l : list ascii) :
  quote_chars (c :: l) = quote_chars [c] ++ quote_chars l.
Proof. simpl. rewrite app_nil_r. reflexivity. Qed.

(** The parser reads back a quoted string. *)
Lemma string_body_quote (l : list ascii) :
  forall (fuel : nat) (acc rest : list ascii) (q : ascii),
    code q = 34 -> (List.length l < fuel)%nat ->
    string_body fuel (quote_chars l ++ q :: rest) acc = Some (text (rev acc ++ l), rest).
Proof.
  induction l as [|c l IH]; intros fuel acc rest q Hq Hfuel;
    (destruct fuel as [|fuel]; [inversion Hfuel|]).
  - simpl. rewrite Hq. simpl. rewrite app_nil_r. reflexivity.
  - rewrite quote_chars_cons, <- app_assoc, string_body_char.
    rewrite (IH fuel (c :: acc) rest q Hq) by (simpl in Hfuel; lia).
    simpl. rewrite <- app_assoc. reflexivity.
Qed.

Lemma quote_chars_length (l : list ascii) :
  (List.length l <= List.length (quote_chars l))%nat.
Proof.
  induction l as [|c l IH]; [reflexivity|].
  rewrite quote_chars_cons, length_app. simpl List.length at 1.
  assert (1 <= List.length (quote_chars [c]))%nat
    by (destruct c as [[] [] [] [] [] [] [] []]; vm_compute; lia).
  lia.
Qed.

(** The steps of the parser over the text of a user. *)
Lemma value_string (fuel : nat) (tail : list ascii) :
  value (S fuel) ("034"%char :: tail)
  = match string_body (S (List.length tail)) tail [] with
    | Some (s, r) => Some (JString s, r)
    | None => None
    end.
Proof. reflexivity. Qed.

Lemma value_object (fuel : nat) (tail : list ascii) :
  value (S fuel) ("{" :: "034" :: tail)%char = members fuel ("034"%char :: tail) [].
Proof. reflexivity. Qed.

Lemma members_name (fuel : nat) (tail : list ascii) :
  members (S fuel) ("034" :: "n" :: "a" :: "m" :: "e" :: "034" :: ":" :: tail)%char []
  = match value fuel tail with
    | Some (v, r) =>
        match skip_ws r with
        | c :: r' =>
            if code c =? 44 then members fuel r' [("name", v)]
            else if code c =? 125 then Some (JObject [("name", v)], r')
            else None
        | [] => None
        end
    | None => None
    end.
Proof. reflexivity. Qed.

(** The parser reads back the text of a user. *)
Lemma value_user (l : list ascii) (fuel : nat) :
  value (S (S (S fuel)))
    ("{" :: "034" :: "n" :: "a" :: "m" :: "e" :: "034" :: ":" :: "034"
         :: quote_chars l ++ ["034"; "}"])%char
  = Some (JObject [("name", JString (text l))], []).
Proof.
  rewrite value_object, members_name, value_string.
  rewrite (string_body_quote l _ [] ["}"%char] "034"%char eq_refl).
  - reflexivity.
  - rewrite length_app. pose proof (quote_chars_length l). simpl. lia.
Qed.

(** [JSON.parse] reads back what [JSON.stringify] writes for a user. *)
Lemma stored_user_parses (u : User) :
  JSON_parse (JSON_stringify_User u) = Some (JObject [("name", JString (name u))]).
Proof.
  unfold JSON_parse, JSON_stringify_User, quote.
  rewrite !chars_app, !chars_text.
  change (chars "{") with ["{"%char]. change (chars dquote) with ["034"%char].
  change (chars ":") with [":"%char]. change (chars "}") with ["}"%char].
  change (chars "name") with ["n"; "a"; "m"; "e"]%char.
  change (quote_chars ["n"; "a"; "m"; "e"]%char) with ["n"; "a"; "m"; "e"]%char.
  rewrite <- !app_assoc. simpl app.
  set (input := (_ :: _)%list).
  assert (Hfuel : exists fuel, (2 * List.length input + 2 = S (S (S fuel)))%nat)
    by (exists (2 * List.length input - 1)%nat; subst input; simpl List.length; lia).
  destruct Hfuel as [fuel ->]. subst input.
  rewrite value_user, text_chars. reflexivity.
Qed.

End SessionMarker.

(** X22.  The session marker is trusted as it is: a page load over a
    storage that holds the marker of any user with a name restores that
    user, with no password asked, and leaves the marker in storage; a
    marker with an empty name restores nobody. *)
Theorem session_marker_is_trusted (u : User) (storage : gmap string string)
    (stringify : BankingData -> string) :
  let s := mount stringify (<[SESSION_KEY := JSON_stringify_User u]> storage) in
  user s = (if truthy (name u) then Some u else None) /\
  localStorage s !! SESSION_KEY = Some (JSON_stringify_User u).
Proof.
  intros s. subst s. unfold mount. split.
  - rewrite saveEffect_user, dataLoadEffect_user. unfold sessionLoadEffect, getItem.
    change (localStorage (initialState ?st)) with st.
    rewrite lookup_insert_eq.
    assert (Ht : truthy (JSON_stringify_User u) = true) by reflexivity.
    rewrite Ht, stored_user_parses. simpl.
    destruct u as [n]. simpl. destruct (truthy n); reflexivity.
  - rewrite saveEffect_storage, dataLoadEffect_initial, lookup_insert_ne by discriminate.
    rewrite dataLoadEffect_storage, sessionLoadEffect_storage.
    change (localStorage (initialState ?st)) with st.
    rewrite lookup_insert_eq.
    rewrite (bool_decide_eq_false_2 (SESSION_KEY = DATA_KEY)) by discriminate.
    unfold unparsable. rewrite stored_user_parses.
    destruct (truthy (JSON_stringify_User u)); reflexivity.
Qed.

(** ** The date of a transaction *)

Section Dates.

Lemma forallb_range (P : Z -> bool) (lo len n : Z) :
  forallb P (List.map (fun i => lo + Z.of_nat i) (seq 0 (Z.to_nat len))) = true ->
  lo <= n < lo + len -> P n = true.
Proof.
  intros Hall Hn. rewrite forallb_forall in Hall. apply Hall.
  apply in_map_iff. exists (Z.to_nat (n - lo)). split; [lia|].
  apply in_seq. lia.
Qed.

Lemma four_digits (n : Z) :
  1000 <= n <= 9999 -> field 4 n (chars (String_of_integer n)) = true.
Proof.
  intros Hn.
  apply (forallb_range (fun n => field 4 n (chars (String_of_integer n))) 1000 9000);
    [vm_compute; reflexivity | lia].
Qed.

Lemma two_digits (n : Z) :
  0 <= n <= 99 -> field 2 n (chars (padStart 2 "0" (String_of_integer n))) = true.
Proof.
  intros Hn.
  apply (forallb_range
           (fun n => field 2 n (chars (padStart 2 "0" (String_of_integer n)))) 0 100);
    [vm_compute; reflexivity | lia].
Qed.

End Dates.

(** X23.  For a day of the years 1000 to 9999, [todayISO] gives ten
    characters [yyyy-mm-dd]: four digits that denote the year, two that
    denote the month counted from 1 and two that denote the day of the
    month, with a hyphen between them. *)
Theorem todayISO_is_year_month_day (d : Helpers.Date) :
  1000 <= Helpers.getFullYear d <= 9999 ->
  0 <= Helpers.getMonth d <= 11 ->
  1 <= Helpers.getDate d <= 31 ->
  exists yyyy mm dd : list ascii,
    chars (Helpers.todayISO d) = yyyy ++ "-"%char :: mm ++ "-"%char :: dd /\
    field 4 (Helpers.getFullYear d) yyyy = true /\
    field 2 (Helpers.getMonth d + 1) mm = true /\
    field 2 (Helpers.getDate d) dd = true /\
    List.length (chars (Helpers.todayISO d)) = 10%nat.
Proof.
  intros Hy Hm Hd.
  pose proof (four_digits _ Hy) as H4.
  pose proof (two_digits (Helpers.getMonth d + 1) ltac:(lia)) as H2.
  pose proof (two_digits (Helpers.getDate d) ltac:(lia)) as H2'.
  eexists _, _, _. split; [| split; [exact H4 | split; [exact H2 | split; [exact H2' |]]]].
  - unfold Helpers.todayISO. rewrite !chars_app. reflexivity.
  - unfold Helpers.todayISO. rewrite !chars_app, !length_app.
    unfold field in *.
    apply andb_prop in H4 as [H4 _]. apply andb_prop in H4 as [H4 _].
    apply andb_prop in H2 as [H2 _]. apply andb_prop in H2 as [H2 _].
    apply andb_prop in H2' as [H2' _]. apply andb_prop in H2' as [H2' _].
    apply Nat.eqb_eq in H4, H2, H2'. rewrite H4, H2, H2'. reflexivity.
Qed.

Lemma todayISO_is_year_month_day_witness :
  Helpers.todayISO {| Helpers.getFullYear := 2026; Helpers.getMonth := 0;
                      Helpers.getDate := 5 |} = "2026-01-05" /\
  exists yyyy mm dd : list ascii,
    chars "2026-01-05" = yyyy ++ "-"%char :: mm ++ "-"%char :: dd /\
    field 4 2026 yyyy = true /\ field 2 1 mm = true /\ field 2 5 dd = true /\
    List.length (chars "2026-01-05") = 10%nat.
Proof.
  split; [reflexivity|].
  apply (todayISO_is_year_month_day
           {| Helpers.getFullYear := 2026; Helpers.getMonth := 0; Helpers.getDate := 5 |});
    simpl; lia.
Defined.

(** ** The exactness of the balances *)

Section NearestRounding.

Import Rbase Rfunctions Rbasic_fun Lra.

Ltac bits :=
  repeat match goal with
         | |- context [?a <=? ?b] => destruct (Z.leb_spec a b)
         | |- context [?a =? ?b] => destruct (Z.eqb_spec a b)
         end; simpl; try reflexivity; try lia.

Lemma shr_1_inbetween (V U : Z) (mrs : shr_record) :
  0 <= shr_m mrs -> inbetween V U mrs -> inbetween V (2 * U) (shr_1 mrs).
Proof.
  destruct mrs as [m r s]. unfold inbetween. simpl.
  intros Hm (HU & Hrest & -> & ->).
  destruct m as [|[p|p|]|]; simpl; try lia;
    (split; [lia|]); (split; [lia|]); split; bits.
Qed.

Lemma iter_shr_1_inbetween (p : positive) :
  forall (V U : Z) (mrs : shr_record),
    0 <= shr_m mrs -> inbetween V U mrs ->
    inbetween V (U * 2 ^ Z.pos p) (SpecFloat.iter_pos shr_1 p mrs).
Proof.
  induction p as [p IH|p IH|]; intros V U mrs Hm Hin; simpl.
  - replace (U * 2 ^ Z.pos p~1) with (2 * U * 2 ^ Z.pos p * 2 ^ Z.pos p)
      by (replace (Z.pos p~1) with (Z.pos p + Z.pos p + 1) by lia;
          rewrite !Z.pow_add_r by lia; change (2 ^ 1) with 2; ring).
    apply IH; [apply iter_shr_1_nonneg, shr_1_nonneg, Hm|].
    apply IH; [apply shr_1_nonneg, Hm|]. apply shr_1_inbetween; assumption.
  - replace (U * 2 ^ Z.pos p~0) with (U * 2 ^ Z.pos p * 2 ^ Z.pos p)
      by (replace (Z.pos p~0) with (Z.pos p + Z.pos p) by lia;
          rewrite !Z.pow_add_r by lia; ring).
    apply IH; [apply iter_shr_1_nonneg, Hm|]. apply IH; assumption.
  - replace (U * 2 ^ 1) with (2 * U) by lia. apply shr_1_inbetween; assumption.
Qed.

Lemma digits2_pos_unique (p : positive) (k : Z) :
  2 ^ (k - 1) <= Z.pos p < 2 ^ k -> Z.pos (digits2_pos p) = k.
Proof.
  intros [Hlo Hhi]. pose proof (digits2_pos_bounds p) as [Dlo Dhi].
  set (d := Z.pos (digits2_pos p)) in *.
  assert (Hk : 0 < k).
  { destruct (Z.lt_ge_cases 0 k) as [H|H]; [exact H|].
    rewrite Z.pow_neg_r in Hlo by lia.
    destruct (Z.eq_dec k 0) as [->|Hne]; [simpl in Hhi; lia|].
    rewrite Z.pow_neg_r in Hhi by lia. lia. }
  destruct (Z.lt_trichotomy d k) as [H|[H|H]]; [| exact H |].
  - assert (2 ^ d <= 2 ^ (k - 1)) by (apply Z.pow_le_mono_r; lia). lia.
  - assert (2 ^ k <= 2 ^ (d - 1)) by (apply Z.pow_le_mono_r; lia). lia.
Qed.

(** The first shift of a rounding brings a mantissa of 53 digits or
    more to 53 digits. *)
Lemma first_shift (m : positive) (e : Z) (l : location) (V U : Z) :
  let d := Z.pos (digits2_pos m) in
  53 <= d -> -1074 <= d + e - 53 ->
  inbetween V U (shr_record_of_loc (Z.pos m) l) ->
  exists mrs,
    shr_fexp prec emax (Z.pos m) e l = (mrs, d + e - 53) /\
    inbetween V (U * 2 ^ (d - 53)) mrs /\
    2 ^ 52 <= shr_m mrs < 2 ^ 53.
Proof.
  intros d Hd He Hin.
  assert (Hm0 : shr_m (shr_record_of_loc (Z.pos m) l) = Z.pos m)
    by (destruct l as [|[]]; reflexivity).
  pose proof (digits2_pos_bounds m) as [Dlo Dhi]. fold d in Dlo, Dhi.
  unfold shr_fexp, shr, fexp, emin. simpl Zdigits2. fold d.
  change prec with 53. change emax with 1024.
  replace (Z.max (d + e - 53) (3 - 1024 - 53) - e) with (d - 53) by lia.
  assert (Hbounds : forall mrs, inbetween V (U * 2 ^ (d - 53)) mrs ->
            2 ^ 52 <= shr_m mrs < 2 ^ 53).
  { intros mrs (HW & Hrest & _). destruct Hin as (HU & Hrest0 & _).
    rewrite Hm0 in Hrest0.
    set (W := U * 2 ^ (d - 53)) in *.
    assert (HdW : 2 ^ d * U = 2 ^ 53 * W).
    { unfold W. replace d with (53 + (d - 53)) at 1 by lia.
      rewrite Z.pow_add_r by lia. ring. }
    assert (HdW' : 2 ^ (d - 1) * U = 2 ^ 52 * W).
    { unfold W. replace (d - 1) with (52 + (d - 53)) by lia.
      rewrite Z.pow_add_r by lia. ring. }
    assert (H1 : 2 ^ 52 * W <= V) by nia.
    assert (H2 : V < 2 ^ 53 * W) by nia.
    split.
    - assert (2 ^ 52 * W < (shr_m mrs + 1) * W) by lia.
      assert (2 ^ 52 < shr_m mrs + 1) by (apply (Z.mul_lt_mono_pos_r W); lia). lia.
    - assert (shr_m mrs * W < 2 ^ 53 * W) by lia.
      apply (Z.mul_lt_mono_pos_r W); lia. }
  destruct (d - 53) as [|p|p] eqn:Hn; [| | lia].
  - eexists. split; [f_equal; lia|].
    assert (Hin' : inbetween V (U * 2 ^ 0) (shr_record_of_loc (Z.pos m) l))
      by (replace (U * 2 ^ 0) with U by lia; exact Hin).
    split; [exact Hin' | apply Hbounds, Hin'].
  - eexists. split; [f_equal; lia|].
    assert (Hin' : inbetween V (U * 2 ^ Z.pos p)
                     (SpecFloat.iter_pos shr_1 p (shr_record_of_loc (Z.pos m) l)))
      by (apply iter_shr_1_inbetween; [rewrite Hm0; lia | exact Hin]).
    split; [exact Hin' | apply Hbounds, Hin'].
Qed.

(** The second shift of a rounding, after a mantissa of 53 digits was
    rounded: one place when the rounding carried to [2 ^ 53]. *)
Lemma second_shift (n e : Z) :
  2 ^ 52 <= n <= 2 ^ 53 -> -1074 <= e ->
  exists (n' : positive) (e' : Z),
    shr_fexp prec emax n e loc_Exact = (Build_shr_record (Z.pos n') false false, e') /\
    Z.pos n' * 2 ^ (e' - e) = n /\ 2 ^ 52 <= Z.pos n' < 2 ^ 53 /\ e <= e' <= e + 1.
Proof.
  intros Hn He. destruct n as [|p|p]; try (exfalso; lia).
  change (2 ^ 53) with 9007199254740992 in *. change (2 ^ 52) with 4503599627370496 in *.
  destruct (Pos.eq_dec p 9007199254740992) as [->|Hne].
  - exists 4503599627370496%positive, (e + 1).
    unfold shr_fexp, shr, fexp, emin. change prec with 53. change emax with 1024.
    change (Zdigits2 (Z.pos 9007199254740992)) with 54.
    replace (Z.max (54 + e - 53) (3 - 1024 - 53) - e) with 1 by lia.
    split; [reflexivity|]. replace (e + 1 - e) with 1 by lia.
    split; [reflexivity|]. split; lia.
  - exists p, e.
    assert (Hd : Z.pos (digits2_pos p) = 53).
    { apply digits2_pos_unique. change (2 ^ (53 - 1)) with 4503599627370496.
      change (2 ^ 53) with 9007199254740992. assert (p <> 9007199254740992%positive) by exact Hne.
      lia. }
    unfold shr_fexp, shr, fexp, emin. change prec with 53. change emax with 1024.
    simpl Zdigits2. rewrite Hd.
    replace (Z.max (53 + e - 53) (3 - 1024 - 53) - e) with 0 by lia.
    split; [reflexivity|]. replace (e - e) with 0 by lia.
    split; [lia|]. split; lia.
Qed.

(** A rounding to nearest: the number it gives has a mantissa of 53
    digits, and is within [2 ^ -53] of the value rounded, relatively. *)
Lemma binary_round_aux_correct (s : bool) (m : positive) (e : Z) (l : location) (V U : Z) :
  let d := Z.pos (digits2_pos m) in
  53 <= d -> -1074 <= d + e - 53 -> d + e <= 1023 ->
  inbetween V U (shr_record_of_loc (Z.pos m) l) ->
  exists (n : positive) (e' : Z),
    binary_round_aux prec emax s (Z.pos m) e l = S754_finite s n e' /\
    2 ^ 52 <= Z.pos n < 2 ^ 53 /\ e <= e' /\ -1074 <= e' <= 971 /\
    2 ^ 53 * Z.abs (Z.pos n * 2 ^ (e' - e) * U - V) <= V.
Proof.
  intros d Hd He1 He2 Hin.
  destruct (first_shift m e l V U Hd He1 Hin) as (mrs & Hshift & Hin1 & Hm1).
  fold d in Hshift, Hin1.
  unfold binary_round_aux. rewrite Hshift.
  set (r := round_nearest_even (shr_m mrs) (loc_of_shr_record mrs)).
  set (W := U * 2 ^ (d - 53)) in *.
  assert (Hr : shr_m mrs <= r <= shr_m mrs + 1 /\ 2 * Z.abs (r * W - V) <= W).
  { subst r. destruct mrs as [m1 rb sb]. destruct Hin1 as (HW & Hrest & Hrb & Hsb).
    simpl in *. revert Hrb Hsb.
    destruct rb, sb; simpl; try destruct (Z.even m1);
      bits; intros; try discriminate; lia. }
  destruct Hr as [Hr1 Hr2].
  destruct (second_shift r (d + e - 53) ltac:(lia) ltac:(lia)) as (n & e' & Hsh2 & Hval & Hn & He').
  rewrite Hsh2. simpl shr_m.
  replace (e' <=? emax - prec) with true
    by (symmetry; apply Z.leb_le; change (emax - prec) with 971; lia).
  exists n, e'. split; [reflexivity|]. split; [exact Hn|]. split; [lia|]. split; [lia|].
  assert (HnW : Z.pos n * 2 ^ (e' - e) * U = r * W).
  { rewrite <- Hval. unfold W. replace (e' - e) with (e' - (d + e - 53) + (d - 53)) by lia.
    rewrite Z.pow_add_r by lia. ring. }
  rewrite HnW.
  destruct Hin1 as (HW & Hrest & _).
  assert (2 ^ 52 * W <= V) by nia.
  lia.
Qed.

End NearestRounding.

Section RealValues.

Import Rbase Rfunctions Rbasic_fun Lra.
Local Open Scope R_scope.

Abbreviation p2 := (powerRZ 2).

Lemma p2_pos (e : Z) : 0 < p2 e.
Proof. apply powerRZ_lt. lra. Qed.

Lemma p2_add (a b : Z) : p2 (a + b) = p2 a * p2 b.
Proof. apply powerRZ_add. lra. Qed.

Lemma p2_IZR (k : Z) : (0 <= k)%Z -> IZR (2 ^ k) = p2 k.
Proof.
  intros Hk. destruct k as [|p|p]; [reflexivity | | lia].
  change (2 ^ Z.pos p)%Z with (Z.pow_pos 2 p). apply Zpower_pos_powerRZ.
Qed.

Lemma p2_le (a b : Z) : (a <= b)%Z -> p2 a <= p2 b.
Proof.
  intros Hab. replace b with (a + (b - a))%Z by lia. rewrite p2_add.
  rewrite <- (p2_IZR (b - a)) by lia.
  assert (1 <= IZR (2 ^ (b - a))) by (apply IZR_le; pose proof (Z.pow_pos_nonneg 2 (b - a)); lia).
  pose proof (p2_pos a). nra.
Qed.

Lemma val_pos (m : positive) (e : Z) : 0 < val m e.
Proof.
  unfold val. apply Rmult_lt_0_compat; [apply IZR_lt; lia | apply p2_pos].
Qed.

(** The value of a mantissa that was shifted. *)
Lemma val_shift (m : positive) (e k : Z) :
  (0 <= k)%Z -> IZR (Z.pos m * 2 ^ k) * p2 (e - k) = val m e.
Proof.
  intros Hk. unfold val. rewrite mult_IZR, p2_IZR by exact Hk.
  replace e with (k + (e - k))%Z at 2 by lia. rewrite p2_add. ring.
Qed.

Lemma p2_53 : p2 (-53) * IZR (2 ^ 53)%Z = 1.
Proof.
  rewrite p2_IZR by lia. rewrite <- p2_add. reflexivity.
Qed.

(** From the integers of a rounding to its real values. *)
Lemma near_intro (n : positive) (e e' V U : Z) :
  (0 < U)%Z -> (e <= e')%Z -> normal n e' ->
  (2 ^ 53 * Z.abs (Z.pos n * 2 ^ (e' - e) * U - V) <= V)%Z ->
  near (IZR V / IZR U * p2 e) (S754_finite false n e').
Proof.
  intros HU He Hn Herr. exists n, e'. split; [reflexivity|]. split; [exact Hn|].
  assert (HU' : 0 < IZR U) by (apply IZR_lt; exact HU).
  pose proof (p2_pos e) as Hp.
  rewrite <- (val_shift n e' (e' - e)) by lia.
  replace (e' - (e' - e))%Z with e by lia.
  replace (IZR (Z.pos n * 2 ^ (e' - e)) * p2 e - IZR V / IZR U * p2 e)
    with (IZR (Z.pos n * 2 ^ (e' - e) * U - V) * (p2 e / IZR U))
    by (rewrite minus_IZR, (mult_IZR _ U); field; lra).
  rewrite Rabs_mult, (Rabs_pos_eq (p2 e / IZR U))
    by (apply Rlt_le, Rdiv_lt_0_compat; assumption).
  rewrite <- abs_IZR.
  apply IZR_le in Herr. rewrite mult_IZR in Herr.
  pose proof p2_53 as H53. pose proof (p2_pos (-53)) as Heps.
  set (eps := p2 (-53)) in *. set (B := IZR (2 ^ 53)%Z) in *.
  set (A := IZR (Z.abs _)) in *.
  assert (Hq : 0 < p2 e / IZR U) by (apply Rdiv_lt_0_compat; assumption).
  replace (IZR V / IZR U * p2 e * eps) with (IZR V * eps * (p2 e / IZR U)) by (field; lra).
  apply Rmult_le_compat_r; [lra|].
  assert (HB : 0 < B) by nra.
  assert (A = A * B * eps) as -> by (rewrite Rmult_assoc, (Rmult_comm B), H53; ring).
  apply Rmult_le_compat_r; [lra|]. lra.
Qed.

Lemma normal_digits (m : positive) (e : Z) : normal m e -> Z.pos (digits2_pos m) = 53%Z.
Proof. intros [Hm _]. apply digits2_pos_unique. exact Hm. Qed.

Lemma normal_bounded (m : positive) (e : Z) : normal m e -> bounded prec emax m e = true.
Proof.
  intros Hn. pose proof (normal_digits m e Hn) as Hd. destruct Hn as [_ He].
  unfold bounded, canonical_mantissa, fexp, emin. rewrite Hd.
  change prec with 53%Z. change emax with 1024%Z.
  apply andb_true_intro. split; [apply Z.eqb_eq | apply Z.leb_le]; lia.
Qed.

Lemma normal_val (m : positive) (e : Z) :
  normal m e -> p2 (e + 52) <= val m e < p2 (e + 53).
Proof.
  intros [[Hlo Hhi] _]. unfold val. pose proof (p2_pos e) as Hp.
  rewrite !p2_add, <- (p2_IZR 52), <- (p2_IZR 53) by lia. rewrite !(Rmult_comm (p2 e)).
  apply IZR_le in Hlo. apply IZR_lt in Hhi.
  split; [apply Rmult_le_compat_r | apply Rmult_lt_compat_r]; lra.
Qed.

(** The digits of a number between two powers of two. *)
Lemma digits2_pos_range (p : positive) (a b : Z) :
  (0 <= a)%Z -> (2 ^ a <= Z.pos p < 2 ^ b)%Z -> (a < Z.pos (digits2_pos p) <= b)%Z.
Proof.
  intros Ha [Hlo Hhi]. pose proof (digits2_pos_bounds p) as [Dlo Dhi].
  set (d := Z.pos (digits2_pos p)) in *.
  assert (Hb : (0 <= b)%Z).
  { destruct (Z.lt_ge_cases b 0) as [H|H]; [| exact H].
    rewrite Z.pow_neg_r in Hhi by exact H. lia. }
  split.
  - destruct (Z.lt_ge_cases a d) as [H|H]; [exact H|].
    assert (2 ^ d <= 2 ^ a)%Z by (apply Z.pow_le_mono_r; lia). lia.
  - destruct (Z.le_gt_cases d b) as [H|H]; [exact H|].
    assert (2 ^ b <= 2 ^ (d - 1))%Z by (apply Z.pow_le_mono_r; lia). lia.
Qed.

(** *** The operations on positive normal numbers *)

(** The normalisation of a positive integer mantissa rounds its value. *)
Lemma normalize_near (M : positive) (e : Z) :
  (-1074 <= Z.pos (digits2_pos M) + e - 53)%Z ->
  (Z.pos (digits2_pos M) + e <= 1023)%Z ->
  near (IZR (Z.pos M) * p2 e) (binary_normalize prec emax (Z.pos M) e false).
Proof.
  intros He1 He2. pose proof (digits2_pos_bounds M) as [Dlo Dhi].
  set (d := Z.pos (digits2_pos M)) in *.
  simpl binary_normalize. unfold binary_round, shl_align, fexp, emin.
  change prec with 53%Z. change emax with 1024%Z. fold d.
  replace (Z.max (d + e - 53) (3 - 1024 - 53) - e)%Z with (d - 53)%Z by lia.
  destruct (d - 53)%Z as [|p|p] eqn:Hn.
  - destruct (binary_round_aux_correct false M e loc_Exact (Z.pos M) 1)
      as (n & e' & Hr & Hn' & Hee & He' & Herr);
      try (fold d; lia).
    { unfold inbetween. simpl. replace (Z.pos M - Z.pos M * 1)%Z with 0%Z by lia.
      repeat split; lia. }
    cbv beta iota. change (binary_round_aux 53 1024) with (binary_round_aux prec emax).
    rewrite Hr. replace (IZR (Z.pos M) * p2 e) with (IZR (Z.pos M) / IZR 1 * p2 e)
      by (field; lra).
    apply near_intro; try assumption; try lia. split; assumption.
  - destruct (binary_round_aux_correct false M e loc_Exact (Z.pos M) 1)
      as (n & e' & Hr & Hn' & Hee & He' & Herr);
      try (fold d; lia).
    { unfold inbetween. simpl. replace (Z.pos M - Z.pos M * 1)%Z with 0%Z by lia.
      repeat split; lia. }
    cbv beta iota. change (binary_round_aux 53 1024) with (binary_round_aux prec emax).
    rewrite Hr. replace (IZR (Z.pos M) * p2 e) with (IZR (Z.pos M) / IZR 1 * p2 e)
      by (field; lra).
    apply near_intro; try assumption; try lia. split; assumption.
  - assert (Hmz : Z.pos (Pos.iter xO M p) = (Z.pos M * 2 ^ Z.pos p)%Z) by apply iter_xO.
    assert (Hp : Z.pos p = (53 - d)%Z) by lia.
    assert (Hdz : Z.pos (digits2_pos (Pos.iter xO M p)) = 53%Z).
    { assert (Hd0 : (0 < d)%Z) by (unfold d; lia).
      assert (H52 : (2 ^ 52 = 2 ^ (d - 1) * 2 ^ (53 - d))%Z)
        by (rewrite <- Z.pow_add_r by lia; f_equal; lia).
      assert (H53 : (2 ^ 53 = 2 ^ d * 2 ^ (53 - d))%Z)
        by (rewrite <- Z.pow_add_r by lia; f_equal; lia).
      apply digits2_pos_unique. rewrite Hmz, Hp. change (53 - 1)%Z with 52%Z.
      rewrite H52, H53.
      assert (0 < 2 ^ (53 - d))%Z by (apply Z.pow_pos_nonneg; lia). nia. }
    destruct (binary_round_aux_correct false (Pos.iter xO M p) (d + e - 53) loc_Exact
                (Z.pos (Pos.iter xO M p)) 1)
      as (n & e' & Hr & Hn' & Hee & He' & Herr);
      try (rewrite Hdz; lia).
    { unfold inbetween. simpl.
      replace (Z.pos (Pos.iter xO M p) - Z.pos (Pos.iter xO M p) * 1)%Z with 0%Z by lia.
      repeat split; lia. }
    replace (Z.max (d + e - 53) (3 - 1024 - 53))%Z with (d + e - 53)%Z by lia.
    cbv beta iota. change (binary_round_aux 53 1024) with (binary_round_aux prec emax).
    rewrite Hr.
    replace (IZR (Z.pos M) * p2 e)
      with (IZR (Z.pos (Pos.iter xO M p)) / IZR 1 * p2 (d + e - 53)).
    + apply near_intro; try assumption; try lia. split; assumption.
    + rewrite Hmz. replace (d + e - 53)%Z with (e - Z.pos p)%Z by lia.
      pose proof (val_shift M e (Z.pos p) ltac:(lia)) as Hv. unfold val in Hv.
      rewrite <- Hv. field.
Qed.

End RealValues.

Section Operations.

Import Rbase Rfunctions Rbasic_fun Lra.
Local Open Scope R_scope.

Abbreviation p2 := (powerRZ 2).

Lemma SFmul_near (mx my : positive) (ex ey : Z) :
  normal mx ex -> normal my ey -> (-1000 <= ex + ey <= 900)%Z ->
  near (val mx ex * val my ey)
       (SF64mul (S754_finite false mx ex) (S754_finite false my ey)).
Proof.
  intros [Hx _] [Hy _] He. unfold SF64mul, SFmul. simpl xorb.
  assert (Hd : (104 < Z.pos (digits2_pos (mx * my)) <= 106)%Z).
  { apply digits2_pos_range; [lia|]. rewrite Pos2Z.inj_mul.
    change (2 ^ 104)%Z with (2 ^ 52 * 2 ^ 52)%Z. change (2 ^ 106)%Z with (2 ^ 53 * 2 ^ 53)%Z.
    nia. }
  destruct (binary_round_aux_correct false (mx * my) (ex + ey) loc_Exact (Z.pos (mx * my)) 1)
    as (n & e' & Hr & Hn' & Hee & He' & Herr); try lia.
  { unfold inbetween. simpl.
    replace (Z.pos (mx * my) - Z.pos (mx * my) * 1)%Z with 0%Z by lia.
    repeat split; lia. }
  rewrite Hr.
  replace (val mx ex * val my ey) with (IZR (Z.pos (mx * my)) / IZR 1 * p2 (ex + ey))
    by (unfold val; rewrite Pos2Z.inj_mul, mult_IZR, p2_add; field).
  apply near_intro; try assumption; try lia. split; assumption.
Qed.

(** The location of a remainder. *)
Lemma new_location_inbetween (q r k : Z) :
  (0 <= r < k)%Z ->
  inbetween (q * k + r) k (shr_record_of_loc q (new_location k r)).
Proof.
  intros Hr. unfold inbetween, new_location, new_location_even, new_location_odd.
  assert (Hm : forall l, shr_m (shr_record_of_loc q l) = q) by (intros [|[]]; reflexivity).
  rewrite Hm. replace (q * k + r - q * k)%Z with r by lia.
  split; [lia|]. split; [lia|].
  destruct (Z.even k) eqn:Hk.
  - destruct (Z.eqb_spec r 0) as [->|Hr0]; simpl.
    + split; [symmetry; apply Z.leb_gt; lia | reflexivity].
    + destruct (Z.compare_spec (2 * r) k) as [H|H|H]; simpl; split;
        try (symmetry; apply Z.leb_gt; lia); try (symmetry; apply Z.leb_le; lia);
        destruct (Z.eqb_spec (2 * r) k); try reflexivity; lia.
  - assert (Hodd : (2 * r <> k)%Z).
    { intros <-. rewrite Z.even_mul in Hk. discriminate Hk. }
    destruct (Z.eqb_spec r 0) as [->|Hr0]; simpl.
    + split; [symmetry; apply Z.leb_gt; lia | reflexivity].
    + destruct (Z.compare_spec (2 * r + 1) k) as [H|H|H]; simpl; split;
        try (symmetry; apply Z.leb_gt; lia); try (symmetry; apply Z.leb_le; lia);
        destruct (Z.eqb_spec (2 * r) k); try reflexivity; lia.
Qed.

(** The quotient of two positive numbers whose mantissas need not have
    53 digits, as the value of a decimal literal divides them. *)
Lemma SFdiv_near_any (mx my : positive) (ex ey : Z) :
  let d1 := Z.pos (digits2_pos mx) in
  let d2 := Z.pos (digits2_pos my) in
  (d1 <= d2 + 52)%Z -> (-1000 <= d1 + ex - d2 - ey <= 900)%Z ->
  near (val mx ex / val my ey)
       (SF64div (S754_finite false mx ex) (S754_finite false my ey)).
Proof.
  intros d1 d2 Hd He.
  pose proof (digits2_pos_bounds mx) as [X1 X2]. pose proof (digits2_pos_bounds my) as [Y1 Y2].
  fold d1 in X1, X2. fold d2 in Y1, Y2.
  assert (Hd1 : (0 < d1)%Z) by (unfold d1; lia).
  assert (Hd2 : (0 < d2)%Z) by (unfold d2; lia).
  unfold SF64div, SFdiv, SFdiv_core_binary. simpl xorb. simpl Zdigits2. fold d1 d2.
  unfold fexp, emin. change prec with 53%Z. change emax with 1024%Z.
  replace (Z.min (Z.max (d1 + ex - (d2 + ey) - 53) (3 - 1024 - 53)) (ex - ey))
    with (d1 + ex - d2 - ey - 53)%Z by lia.
  replace (ex - ey - (d1 + ex - d2 - ey - 53))%Z with (53 + d2 - d1)%Z by lia.
  set (s := (53 + d2 - d1)%Z).
  assert (Hs : (0 < s)%Z) by (unfold s; lia).
  destruct s as [|sp|sp] eqn:Hsp; try lia. rewrite <- Hsp in *. clear Hsp sp.
  cbv beta iota. rewrite Z.shiftl_mul_pow2 by lia.
  pose proof (Z_div_mod (Z.pos mx * 2 ^ s) (Z.pos my) ltac:(lia)) as Hdm.
  destruct (Z.div_eucl (Z.pos mx * 2 ^ s) (Z.pos my)) as [q r].
  destruct Hdm as [Hq Hr].
  assert (Hq' : (2 ^ 52 <= q < 2 ^ 54)%Z).
  { set (L := (2 ^ (d2 - 1))%Z) in *.
    assert (HL : (0 < L)%Z) by (apply Z.pow_pos_nonneg; lia).
    assert (H2L : (2 ^ d2 = 2 * L)%Z).
    { unfold L. replace d2 with (1 + (d2 - 1))%Z at 1 by lia.
      rewrite Z.pow_add_r by lia. reflexivity. }
    assert (Hlo : (2 ^ 52 * (2 * L) <= Z.pos mx * 2 ^ s)%Z).
    { rewrite <- H2L, <- Z.pow_add_r by lia.
      replace (52 + d2)%Z with ((d1 - 1) + s)%Z by (unfold s; lia).
      rewrite Z.pow_add_r by lia.
      apply Z.mul_le_mono_nonneg_r; [apply Z.pow_nonneg; lia | exact X1]. }
    assert (Hhi : (Z.pos mx * 2 ^ s < 2 ^ 53 * (2 * L))%Z).
    { rewrite <- H2L, <- Z.pow_add_r by lia.
      replace (53 + d2)%Z with (d1 + s)%Z by (unfold s; lia).
      rewrite Z.pow_add_r by lia.
      apply Z.mul_lt_mono_pos_r; [apply Z.pow_pos_nonneg; lia | exact X2]. }
    rewrite H2L in Y2.
    change (2 ^ 54)%Z with (2 * 2 ^ 53)%Z. change (2 ^ 53)%Z with (2 * 2 ^ 52)%Z in *.
    split.
    - destruct (Z.le_gt_cases (2 ^ 52) q) as [H|H]; [exact H|]. exfalso. nia.
    - destruct (Z.lt_ge_cases q (2 * (2 * 2 ^ 52))) as [H|H]; [exact H|]. exfalso. nia. }
  destruct q as [|q|q]; try (exfalso; lia).
  assert (Hdq : (52 < Z.pos (digits2_pos q) <= 54)%Z) by (apply digits2_pos_range; lia).
  change (binary_round_aux 53 1024) with (binary_round_aux prec emax).
  destruct (binary_round_aux_correct false q (d1 + ex - d2 - ey - 53)
              (new_location (Z.pos my) r) (Z.pos mx * 2 ^ s) (Z.pos my))
    as (n & e' & Hres & Hn' & Hee & He' & Herr); try lia.
  { rewrite Hq, (Z.mul_comm (Z.pos my)). apply new_location_inbetween. lia. }
  rewrite Hres.
  replace (val mx ex / val my ey)
    with (IZR (Z.pos mx * 2 ^ s) / IZR (Z.pos my) * p2 (d1 + ex - d2 - ey - 53)).
  - apply near_intro; try assumption; try lia. split; assumption.
  - unfold val. rewrite mult_IZR, (p2_IZR s) by lia.
    replace (d1 + ex - d2 - ey - 53)%Z with (ex + (- ey + - s))%Z by (unfold s; lia).
    rewrite !p2_add.
    assert (Hinv : p2 ey * p2 (- ey) = 1) by (rewrite <- p2_add, Z.add_opp_diag_r; reflexivity).
    assert (Hss : p2 s * p2 (- s) = 1) by (rewrite <- p2_add, Z.add_opp_diag_r; reflexivity).
    pose proof (p2_pos ey). pose proof (p2_pos (- ey)). pose proof (p2_pos s).
    pose proof (p2_pos (- s)).
    assert (0 < IZR (Z.pos my)) by (apply IZR_lt; lia).
    apply (Rmult_eq_reg_r (IZR (Z.pos my) * p2 ey)); [| nra].
    field_simplify; [| nra | nra].
    replace (IZR (Z.pos mx) * p2 s * p2 ex * p2 (- ey) * p2 (- s) * p2 ey)
      with (IZR (Z.pos mx) * p2 ex * (p2 s * p2 (- s)) * (p2 ey * p2 (- ey))) by ring.
    rewrite Hinv, Hss. ring.
Qed.

Lemma SFdiv_near (mx my : positive) (ex ey : Z) :
  normal mx ex -> normal my ey -> (-1000 <= ex - ey <= 900)%Z ->
  near (val mx ex / val my ey)
       (SF64div (S754_finite false mx ex) (S754_finite false my ey)).
Proof.
  intros Hx Hy He.
  apply SFdiv_near_any; rewrite (normal_digits mx ex Hx), (normal_digits my ey Hy); lia.
Qed.

(** The two mantissas of a sum or a difference, brought to the smaller
    exponent. *)
Lemma aligned_val (m : positive) (e ez : Z) :
  (ez <= e)%Z -> IZR (Z.pos (fst (shl_align m e ez))) * p2 ez = val m e.
Proof.
  intros He. rewrite shl_align_fst by exact He.
  pose proof (val_shift m e (e - ez) ltac:(lia)) as Hv.
  replace (e - (e - ez))%Z with ez in Hv by lia. exact Hv.
Qed.

Lemma aligned_bounds (m : positive) (e ez : Z) :
  normal m e -> (ez <= e)%Z ->
  (2 ^ 52 <= Z.pos (fst (shl_align m e ez)) < 2 ^ (53 + (e - ez)))%Z.
Proof.
  intros [Hm _] He. rewrite shl_align_fst by exact He.
  rewrite Z.pow_add_r by lia.
  assert (1 <= 2 ^ (e - ez))%Z by (pose proof (Z.pow_pos_nonneg 2 (e - ez)); lia).
  nia.
Qed.

Lemma SFadd_near (mx my : positive) (ex ey : Z) :
  normal mx ex -> normal my ey -> (ex <= 900)%Z -> (ey <= 900)%Z ->
  near (val mx ex + val my ey)
       (SF64add (S754_finite false mx ex) (S754_finite false my ey)).
Proof.
  intros Hx Hy Bx By. unfold SF64add, SFadd. simpl cond_Zopp.
  set (ez := Z.min ex ey).
  pose proof (aligned_val mx ex ez ltac:(lia)) as Vx.
  pose proof (aligned_val my ey ez ltac:(lia)) as Vy.
  pose proof (aligned_bounds mx ex ez Hx ltac:(lia)) as Ax.
  pose proof (aligned_bounds my ey ez Hy ltac:(lia)) as Ay.
  set (ax := Z.pos (fst (shl_align mx ex ez))) in *.
  set (ay := Z.pos (fst (shl_align my ey ez))) in *.
  rewrite <- Vx, <- Vy, <- Rmult_plus_distr_r, <- plus_IZR.
  destruct (ax + ay)%Z as [|M|M] eqn:HM; try (exfalso; lia).
  destruct Hx as [_ Hex]. destruct Hy as [_ Hey].
  assert (Hd : (52 < Z.pos (digits2_pos M) <= 54 + (Z.max ex ey - ez))%Z).
  { apply digits2_pos_range; [lia|]. rewrite <- HM. split; [lia|].
    assert (2 ^ (53 + (ex - ez)) <= 2 ^ (53 + (Z.max ex ey - ez)))%Z
      by (apply Z.pow_le_mono_r; lia).
    assert (2 ^ (53 + (ey - ez)) <= 2 ^ (53 + (Z.max ex ey - ez)))%Z
      by (apply Z.pow_le_mono_r; lia).
    replace (54 + (Z.max ex ey - ez))%Z with (1 + (53 + (Z.max ex ey - ez)))%Z by lia.
    rewrite Z.pow_add_r by lia. change (2 ^ 1)%Z with 2%Z. lia. }
  apply normalize_near; lia.
Qed.

Lemma SFsub_near (mx my : positive) (ex ey : Z) :
  normal mx ex -> normal my ey ->
  (-1000 <= ex <= 900)%Z -> (-1000 <= ey <= 900)%Z ->
  val my ey < val mx ex ->
  near (val mx ex - val my ey)
       (SF64sub (S754_finite false mx ex) (S754_finite false my ey)).
Proof.
  intros Hx Hy Bx By Hlt. unfold SF64sub, SFsub. simpl cond_Zopp.
  set (ez := Z.min ex ey).
  pose proof (aligned_val mx ex ez ltac:(lia)) as Vx.
  pose proof (aligned_val my ey ez ltac:(lia)) as Vy.
  pose proof (aligned_bounds mx ex ez Hx ltac:(lia)) as Ax.
  pose proof (aligned_bounds my ey ez Hy ltac:(lia)) as Ay.
  set (ax := Z.pos (fst (shl_align mx ex ez))) in *.
  set (ay := Z.pos (fst (shl_align my ey ez))) in *.
  assert (Hpos : (0 < ax - ay)%Z).
  { apply lt_IZR. rewrite minus_IZR. pose proof (p2_pos ez). nra. }
  rewrite <- Vx, <- Vy, <- Rmult_minus_distr_r, <- minus_IZR.
  destruct (ax - ay)%Z as [|M|M] eqn:HM; try (exfalso; lia).
  assert (Hd : (0 < Z.pos (digits2_pos M) <= 53 + (ex - ez))%Z).
  { split; [lia|]. apply (digits2_pos_range M 0); lia. }
  apply normalize_near; lia.
Qed.

(** Two positive normal numbers compare as their values. *)
Lemma SFltb_normal (mx my : positive) (ex ey : Z) :
  normal mx ex -> normal my ey ->
  SFltb (S754_finite false mx ex) (S754_finite false my ey) = true <->
  val mx ex < val my ey.
Proof.
  intros Hx Hy. pose proof (normal_val mx ex Hx) as Vx. pose proof (normal_val my ey Hy) as Vy.
  unfold SFltb, SFcompare.
  destruct (Z.compare_spec ex ey) as [->|Hlt|Hgt].
  - change (Pos.compare_cont Eq mx my) with (Pos.compare mx my).
    pose proof (p2_pos ey) as Hp. unfold val.
    destruct (Pos.compare_spec mx my) as [->|H|H].
    + split; [discriminate | lra].
    + split; [intros _ | reflexivity].
      apply Rmult_lt_compat_r; [exact Hp | apply IZR_lt; lia].
    + split; [discriminate|]. intros Hv. exfalso.
      assert (IZR (Z.pos my) < IZR (Z.pos mx)) by (apply IZR_lt; lia). nra.
  - split; [intros _ | reflexivity].
    pose proof (p2_le (ex + 53) (ey + 52) ltac:(lia)). lra.
  - split; [discriminate|]. intros Hv. exfalso.
    pose proof (p2_le (ey + 53) (ex + 52) ltac:(lia)). lra.
Qed.

End Operations.

Section Cents.

Import Rbase Rfunctions Rbasic_fun Lra.
Local Open Scope R_scope.

Abbreviation p2 := (powerRZ 2).

(** An integer of at most 53 digits is a number. *)
Lemma normalize_exact (M : positive) :
  (Z.pos M < 2 ^ 53)%Z ->
  exists (n : positive) (e : Z),
    binary_normalize prec emax (Z.pos M) 0 false = S754_finite false n e /\
    normal n e /\ val n e = IZR (Z.pos M).
Proof.
  intros HM. pose proof (digits2_pos_bounds M) as [Dlo Dhi].
  assert (Hd : (0 < Z.pos (digits2_pos M) <= 53)%Z).
  { split; [lia|]. apply (digits2_pos_range M 0); lia. }
  set (d := Z.pos (digits2_pos M)) in *.
  simpl binary_normalize. unfold binary_round, shl_align, fexp, emin.
  change prec with 53%Z. change emax with 1024%Z. fold d.
  replace (Z.max (d + 0 - 53) (3 - 1024 - 53) - 0)%Z with (d - 53)%Z by lia.
  replace (Z.max (d + 0 - 53) (3 - 1024 - 53))%Z with (d - 53)%Z by lia.
  assert (Hexact : forall (m : positive) (e : Z),
            Z.pos (digits2_pos m) = 53%Z -> (-1074 <= e <= 900)%Z ->
            exists (n : positive) (e' : Z),
              binary_round_aux prec emax false (Z.pos m) e loc_Exact = S754_finite false n e' /\
              normal n e' /\ val n e' = IZR (Z.pos m) * p2 e).
  { intros m e Hdm He.
    pose proof (digits2_pos_bounds m) as [Mlo Mhi]. rewrite Hdm in Mlo, Mhi.
    destruct (binary_round_aux_correct false m e loc_Exact (Z.pos m) 1)
      as (n & e' & Hr & Hn' & Hee & He' & Herr); try (rewrite Hdm; lia).
    { unfold inbetween. simpl. replace (Z.pos m - Z.pos m * 1)%Z with 0%Z by lia.
      repeat split; lia. }
    exists n, e'. split; [exact Hr|]. split; [split; assumption|].
    assert (Heq : (Z.pos n * 2 ^ (e' - e) = Z.pos m)%Z) by lia.
    rewrite <- (val_shift n e' (e' - e)) by lia. rewrite Heq. f_equal. f_equal. lia. }
  destruct (d - 53)%Z as [|p|p] eqn:Hn; try lia.
  - cbv beta iota. change (binary_round_aux 53 1024) with (binary_round_aux prec emax).
    destruct (Hexact M 0%Z) as (n & e' & Hr & Hn' & Hv); [fold d; lia | lia |].
    exists n, e'. rewrite Hr, Hv. simpl. repeat split; try apply Hn'. ring.
  - cbv beta iota. change (binary_round_aux 53 1024) with (binary_round_aux prec emax).
    assert (Hmz : Z.pos (Pos.iter xO M p) = (Z.pos M * 2 ^ Z.pos p)%Z) by apply iter_xO.
    assert (Hp : Z.pos p = (53 - d)%Z) by lia.
    assert (Hdz : Z.pos (digits2_pos (Pos.iter xO M p)) = 53%Z).
    { assert (H52 : (2 ^ 52 = 2 ^ (d - 1) * 2 ^ (53 - d))%Z)
        by (rewrite <- Z.pow_add_r by lia; f_equal; lia).
      assert (H53 : (2 ^ 53 = 2 ^ d * 2 ^ (53 - d))%Z)
        by (rewrite <- Z.pow_add_r by lia; f_equal; lia).
      apply digits2_pos_unique. rewrite Hmz, Hp. change (53 - 1)%Z with 52%Z.
      rewrite H52, H53.
      assert (0 < 2 ^ (53 - d))%Z by (apply Z.pow_pos_nonneg; lia). nia. }
    destruct (Hexact (Pos.iter xO M p) (Z.neg p)) as (n & e' & Hr & Hn' & Hv); [exact Hdz | lia |].
    exists n, e'. rewrite Hr, Hv. split; [reflexivity|]. split; [exact Hn'|].
    rewrite Hmz. change (Z.neg p) with (0 - Z.pos p)%Z.
    rewrite (val_shift M 0 (Z.pos p)) by lia. unfold val. simpl. ring.
Qed.

Lemma Z2float_exact (k : Z) :
  (0 < k < 2 ^ 53)%Z ->
  exists (n : positive) (e : Z),
    Prim2SF (Z2float k) = S754_finite false n e /\ normal n e /\ val n e = IZR k.
Proof.
  intros Hk. destruct k as [|M|M]; try lia.
  destruct (normalize_exact M ltac:(lia)) as (n & e & Hr & Hn & Hv).
  exists n, e. unfold Z2float. rewrite Hr.
  rewrite Prim2SF_SF2Prim by (apply (normal_bounded n e), Hn).
  repeat split; try apply Hn. exact Hv.
Qed.

Lemma hundred_normal : normal 7036874417766400 (-46).
Proof. split; [split; [vm_compute; discriminate | reflexivity] | lia]. Qed.

Lemma hundred_val : val 7036874417766400 (-46) = 100.
Proof.
  unfold val. change 7036874417766400%Z with (100 * 2 ^ 46)%Z.
  rewrite mult_IZR, (p2_IZR 46), Rmult_assoc, <- p2_add by lia. simpl. ring.
Qed.

(** The exponent of a positive normal number, from bounds of its value. *)
Lemma exponent_below (m : positive) (e k : Z) :
  normal m e -> val m e <= p2 k -> (e + 52 <= k)%Z.
Proof.
  intros Hn Hv. pose proof (normal_val m e Hn) as [Hlo _].
  destruct (Z.le_gt_cases (e + 52) k) as [H|H]; [exact H|]. exfalso.
  pose proof (p2_le (k + 1) (e + 52) ltac:(lia)) as Hle.
  rewrite p2_add in Hle. change (p2 1) with (2 * 1) in Hle. pose proof (p2_pos k). lra.
Qed.

Lemma exponent_above (m : positive) (e k : Z) :
  normal m e -> p2 k <= val m e -> (k < e + 53)%Z.
Proof.
  intros Hn Hv. pose proof (normal_val m e Hn) as [_ Hhi].
  destruct (Z.lt_ge_cases k (e + 53)) as [H|H]; [exact H|]. exfalso.
  pose proof (p2_le (e + 53) k ltac:(lia)). lra.
Qed.

Lemma Rabs_bounds (x a : R) : Rabs x <= a -> - a <= x <= a.
Proof. unfold Rabs. destruct (Rcase_abs x); lra. Qed.

Lemma eps_53 : p2 (-53) * 9007199254740992 = 1.
Proof. exact p2_53. Qed.

Lemma p2_const (k : Z) : (0 <= k)%Z -> p2 k = IZR (2 ^ k).
Proof. intros Hk. symmetry. apply p2_IZR, Hk. Qed.

(** A balance of [c] cents is the number nearest to [c / 100]. *)
Lemma cents_near (c : Z) :
  (0 < c < 2 ^ 45)%Z -> near (IZR c / 100) (Prim2SF (cents c)).
Proof.
  intros Hc. unfold cents, signed_integer.
  replace (c =? 0)%Z with false by (symmetry; apply Z.eqb_neq; lia).
  rewrite div_spec. change (Prim2SF 100) with (S754_finite false 7036874417766400 (-46)).
  destruct (Z2float_exact c ltac:(lia)) as (n & e & -> & Hn & Hv).
  assert (He : (-53 < e <= -7)%Z).
  { split.
    - assert (0 < e + 53)%Z; [| lia].
      apply (exponent_above n e 0 Hn). rewrite Hv. simpl. apply (IZR_le 1). lia.
    - assert (e + 52 <= 45)%Z; [| lia]. apply (exponent_below n e 45 Hn).
      rewrite Hv, p2_const by lia. apply IZR_le. lia. }
  rewrite <- Hv, <- hundred_val.
  apply SFdiv_near; [exact Hn | exact hundred_normal | lia].
Qed.

(** The integer nearest to a number that is within one half of [k]. *)
Lemma nearest_integer_val (m : positive) (e k : Z) :
  Rabs (val m e - IZR k) < / 2 -> nearest_integer false m e = k.
Proof.
  intros Hk. apply Rabs_def2 in Hk as [Hhi Hlo].
  unfold nearest_integer. change (cond_Zopp false (Z.pos m)) with (Z.pos m).
  destruct (Z.leb_spec 0 e) as [He|He].
  - unfold val in *. rewrite p2_const, <- mult_IZR in * by exact He.
    assert (IZR (Z.pos m * 2 ^ e - k) < 1) by (rewrite minus_IZR; lra).
    assert (-1 < IZR (Z.pos m * 2 ^ e - k)) by (rewrite minus_IZR; lra).
    assert (Z.pos m * 2 ^ e - k < 1)%Z by (apply lt_IZR; assumption).
    assert (-1 < Z.pos m * 2 ^ e - k)%Z by (apply lt_IZR; assumption).
    lia.
  - set (T := (2 ^ (- e))%Z).
    assert (HT : IZR T = p2 (- e)) by (apply p2_IZR; lia).
    assert (HTe : p2 e * IZR T = 1)
      by (rewrite HT, <- p2_add, Z.add_opp_diag_r; reflexivity).
    assert (HT0 : 0 < IZR T) by (rewrite HT; apply p2_pos).
    assert (H2T : (2 ^ (1 - e) = 2 * T)%Z)
      by (unfold T; replace (1 - e)%Z with (1 + - e)%Z by lia;
          rewrite Z.pow_add_r by lia; reflexivity).
    rewrite H2T.
    assert (Hm : IZR (Z.pos m) = val m e * IZR T)
      by (unfold val; rewrite Rmult_assoc, HTe; ring).
    symmetry. apply (Z.div_unique _ _ _ (2 * Z.pos m + T - 2 * T * k)); [| ring].
    left. split.
    + apply le_IZR. rewrite minus_IZR, plus_IZR, !mult_IZR, Hm. nra.
    + apply lt_IZR. rewrite minus_IZR, plus_IZR, !mult_IZR, Hm. nra.
Qed.

(** A number within [2 ^ -10] of [k / 100] is rounded to [k] cents. *)
Lemma round2_exact (y : number) (m : positive) (e k : Z) :
  Prim2SF y = S754_finite false m e -> normal m e ->
  (0 < k < 2 ^ 46)%Z ->
  Rabs (val m e - IZR k / 100) <= / 1024 ->
  round2 y = cents k.
Proof.
  intros Hy Hn Hk Herr. apply Rabs_bounds in Herr as [Hlo Hhi].
  assert (Hk1 : 1 <= IZR k) by (apply (IZR_le 1); lia).
  assert (Hk2 : IZR k <= 70368744177664) by (apply (IZR_le k (2 ^ 46)); lia).
  assert (He : (-60 < e <= -12)%Z).
  { split.
    - assert (-7 < e + 53)%Z; [| lia]. apply (exponent_above m e (-7) Hn).
      replace (p2 (-7)) with (/ 128) by (simpl; lra). lra.
    - assert (e + 52 <= 40)%Z; [| lia]. apply (exponent_below m e 40 Hn).
      rewrite p2_const by lia. change (IZR (2 ^ 40)) with 1099511627776. lra. }
  pose proof (SFmul_near m 7036874417766400 e (-46) Hn hundred_normal ltac:(lia))
    as (mp & ep & Hp & Hnp & Hep).
  rewrite hundred_val in Hep.
  unfold round2, cents, Math_round.
  rewrite mul_spec, Hy. change (Prim2SF 100) with (S754_finite false 7036874417766400 (-46)).
  rewrite Hp. f_equal. f_equal.
  apply nearest_integer_val.
  pose proof eps_53 as Heps. set (eps := p2 (-53)) in *.
  assert (Hv : val m e <= 2199023255552).
  { pose proof (normal_val m e Hn) as [_ Hv].
    pose proof (p2_le (e + 53) 41 ltac:(lia)) as Hle.
    rewrite (p2_const 41) in Hle by lia. change (IZR (2 ^ 41)) with 2199023255552 in Hle. lra. }
  pose proof (val_pos m e) as Hv0.
  assert (He0 : 0 < eps) by (unfold eps; apply p2_pos).
  assert (Hprod : val m e * 100 * eps <= / 32).
  { assert (val m e * 100 * eps <= 2199023255552 * 100 * eps)
      by (apply Rmult_le_compat_r; lra).
    lra. }
  apply Rabs_bounds in Hep as [Hp1 Hp2].
  apply Rabs_def1; lra.
Qed.

(** A positive balance of cents: the number, its exponent and its error. *)
Lemma cents_spec (c : Z) :
  (0 < c < 2 ^ 45)%Z ->
  exists (m : positive) (e : Z),
    Prim2SF (cents c) = S754_finite false m e /\ normal m e /\ (-60 <= e <= -13)%Z /\
    Rabs (val m e - IZR c / 100) <= / 16384.
Proof.
  intros Hc. destruct (cents_near c Hc) as (m & e & Hm & Hn & Herr).
  exists m, e. split; [exact Hm|]. split; [exact Hn|].
  assert (Hc1 : 1 <= IZR c) by (apply (IZR_le 1); lia).
  assert (Hc2 : IZR c <= 35184372088832) by (apply (IZR_le c (2 ^ 45)); lia).
  pose proof eps_53 as Heps. set (eps := p2 (-53)) in *.
  assert (He0 : 0 < eps) by (unfold eps; apply p2_pos).
  assert (Hce : IZR c * eps <= 35184372088832 * eps) by (apply Rmult_le_compat_r; lra).
  assert (Hce0 : 0 <= IZR c * eps) by (apply Rmult_le_pos; lra).
  assert (Herr' : Rabs (val m e - IZR c / 100) <= / 16384).
  { eapply Rle_trans; [exact Herr|]. lra. }
  split; [| exact Herr'].
  apply Rabs_bounds in Herr' as [Hlo Hhi].
  split.
  - assert (-7 < e + 53)%Z; [| lia]. apply (exponent_above m e (-7) Hn).
    replace (p2 (-7)) with (/ 128) by (simpl; lra). lra.
  - assert (e + 52 <= 39)%Z; [| lia]. apply (exponent_below m e 39 Hn).
    rewrite p2_const by lia. change (IZR (2 ^ 39)) with 549755813888. lra.
Qed.

Lemma cents_zero : Prim2SF (cents 0) = S754_zero false.
Proof. reflexivity. Qed.

(** More cents make a larger number. *)
Lemma cents_val_lt (c x : Z) (mc mx : positive) (ec ex : Z) :
  (0 < x < c)%Z -> (c < 2 ^ 45)%Z ->
  Rabs (val mc ec - IZR c / 100) <= / 16384 ->
  Rabs (val mx ex - IZR x / 100) <= / 16384 ->
  val mx ex < val mc ec.
Proof.
  intros Hx Hc Ec Ex. apply Rabs_bounds in Ec as [Ec1 Ec2]. apply Rabs_bounds in Ex as [Ex1 Ex2].
  assert (IZR x + 1 <= IZR c) by (rewrite <- plus_IZR; apply IZR_le; lia).
  lra.
Qed.

(** Balances of cents compare as the cents. *)
Lemma cents_ltb (c x : Z) :
  (0 <= c < 2 ^ 45)%Z -> (0 <= x < 2 ^ 45)%Z ->
  (cents c <? cents x)%float = (c <? x)%Z.
Proof.
  intros Hc Hx. rewrite FloatAxioms.ltb_spec.
  destruct (Z.eq_dec c 0) as [->|Hc0], (Z.eq_dec x 0) as [->|Hx0].
  - reflexivity.
  - destruct (cents_spec x ltac:(lia)) as (mx & ex & -> & _).
    rewrite cents_zero. symmetry. apply Z.ltb_lt. lia.
  - destruct (cents_spec c ltac:(lia)) as (mc & ec & -> & _).
    rewrite cents_zero. symmetry. apply Z.ltb_ge. lia.
  - destruct (cents_spec c ltac:(lia)) as (mc & ec & Hmc & Hnc & _ & Ec).
    destruct (cents_spec x ltac:(lia)) as (mx & ex & Hmx & Hnx & _ & Ex).
    rewrite Hmc, Hmx.
    destruct (Z.ltb_spec c x) as [Hlt|Hge].
    + apply SFltb_normal; [assumption | assumption |].
      apply (cents_val_lt x c); try assumption; lia.
    + apply not_true_is_false. intros Habs.
      apply SFltb_normal in Habs; [| assumption | assumption].
      destruct (Z.eq_dec c x) as [->|Hne].
      * rewrite Hmc in Hmx. injection Hmx as -> ->. lra.
      * pose proof (cents_val_lt c x mc mx ec ex ltac:(lia) ltac:(lia) Ec Ex). lra.
Qed.

Lemma round2_zero (y : number) : Prim2SF y = S754_zero false -> round2 y = cents 0.
Proof. intros Hy. rewrite (zero_of_spec y false Hy). reflexivity. Qed.

(** Rounding a balance of cents gives it back. *)
Lemma round2_cents_spec (y : number) (c : Z) :
  (0 <= c < 2 ^ 45)%Z -> Prim2SF y = Prim2SF (cents c) -> round2 y = cents c.
Proof.
  intros Hc Hy. destruct (Z.eq_dec c 0) as [->|Hc0].
  - apply round2_zero. rewrite Hy. reflexivity.
  - destruct (cents_spec c ltac:(lia)) as (m & e & Hm & Hn & _ & Herr).
    apply (round2_exact y m e c); [congruence | exact Hn | lia |].
    eapply Rle_trans; [exact Herr | lra].
Qed.

(** A debit, in cents. *)
Lemma cents_sub (c x : Z) :
  (0 <= x <= c)%Z -> (c < 2 ^ 45)%Z ->
  round2 (cents c - cents x) = cents (c - x).
Proof.
  intros Hx Hc.
  destruct (Z.eq_dec x 0) as [->|Hx0].
  - replace (c - 0)%Z with c by lia. apply round2_cents_spec; [lia|].
    rewrite sub_spec, cents_zero.
    destruct (Z.eq_dec c 0) as [->|Hc0]; [reflexivity|].
    destruct (cents_spec c ltac:(lia)) as (m & e & -> & _). reflexivity.
  - destruct (cents_spec x ltac:(lia)) as (mx & ex & Hmx & Hnx & Hex & Ex).
    destruct (Z.eq_dec x c) as [->|Hne].
    + replace (c - c)%Z with 0%Z by lia. apply round2_zero.
      rewrite sub_spec, Hmx. unfold SF64sub, SFsub. rewrite Z.sub_diag. reflexivity.
    + destruct (cents_spec c ltac:(lia)) as (mc & ec & Hmc & Hnc & Hec & Ec).
      pose proof (cents_val_lt c x mc mx ec ex ltac:(lia) ltac:(lia) Ec Ex) as Hlt.
      destruct (SFsub_near mc mx ec ex Hnc Hnx ltac:(lia) ltac:(lia) Hlt)
        as (md & ed & Hd & Hnd & Ed).
      apply (round2_exact _ md ed (c - x)); [| exact Hnd | lia |].
      * rewrite sub_spec, Hmc, Hmx. exact Hd.
      * apply Rabs_bounds in Ec as [Ec1 Ec2]. apply Rabs_bounds in Ex as [Ex1 Ex2].
        apply Rabs_bounds in Ed as [Ed1 Ed2].
        assert (Hc2 : IZR c <= 35184372088832) by (apply (IZR_le c (2 ^ 45)); lia).
        assert (Hx1 : 0 <= IZR x) by (apply (IZR_le 0); lia).
        pose proof eps_53 as Heps. set (eps := p2 (-53)) in *.
        assert (He0 : 0 < eps) by (unfold eps; apply p2_pos).
        remember (val mc ec - val mx ex) as d eqn:Hdd.
        assert (Hd2 : d <= 351843720889) by lra.
        assert (Hde : d * eps <= 351843720889 * eps) by (apply Rmult_le_compat_r; lra).
        rewrite minus_IZR. apply Rabs_le. lra.
Qed.

(** A credit, in cents. *)
Lemma cents_add (c x : Z) :
  (0 <= c < 2 ^ 45)%Z -> (0 <= x < 2 ^ 45)%Z ->
  round2 (cents c + cents x) = cents (c + x).
Proof.
  intros Hc Hx.
  destruct (Z.eq_dec x 0) as [->|Hx0].
  - replace (c + 0)%Z with c by lia. apply round2_cents_spec; [lia|].
    rewrite add_spec, cents_zero.
    destruct (Z.eq_dec c 0) as [->|Hc0]; [reflexivity|].
    destruct (cents_spec c ltac:(lia)) as (m & e & -> & _). reflexivity.
  - destruct (cents_spec x ltac:(lia)) as (mx & ex & Hmx & Hnx & Hex & Ex).
    destruct (Z.eq_dec c 0) as [->|Hc0].
    + replace (0 + x)%Z with x by lia.
      apply (round2_exact _ mx ex x); [| exact Hnx | lia |].
      * rewrite add_spec, cents_zero, Hmx. reflexivity.
      * eapply Rle_trans; [exact Ex | lra].
    + destruct (cents_spec c ltac:(lia)) as (mc & ec & Hmc & Hnc & Hec & Ec).
      destruct (SFadd_near mc mx ec ex Hnc Hnx ltac:(lia) ltac:(lia))
        as (md & ed & Hd & Hnd & Ed).
      apply (round2_exact _ md ed (c + x)); [| exact Hnd | lia |].
      * rewrite add_spec, Hmc, Hmx. exact Hd.
      * apply Rabs_bounds in Ec as [Ec1 Ec2]. apply Rabs_bounds in Ex as [Ex1 Ex2].
        apply Rabs_bounds in Ed as [Ed1 Ed2].
        assert (Hc2 : IZR c <= 35184372088832) by (apply (IZR_le c (2 ^ 45)); lia).
        assert (Hx2 : IZR x <= 35184372088832) by (apply (IZR_le x (2 ^ 45)); lia).
        pose proof eps_53 as Heps. set (eps := p2 (-53)) in *.
        assert (He0 : 0 < eps) by (unfold eps; apply p2_pos).
        remember (val mc ec + val mx ex) as d eqn:Hdd.
        assert (Hd2 : d <= 703687441777) by lra.
        assert (Hde : d * eps <= 703687441777 * eps) by (apply Rmult_le_compat_r; lra).
        rewrite plus_IZR. apply Rabs_le; lra.
Qed.

End Cents.

(** ** Transfers and deposits in whole cents *)

(** C1, as the claim states it, fails for large balances: the balances
    are binary64 numbers, and beyond [2 ^ 45] cents neighbouring amounts
    of cents are no longer told apart.  With 45,035,996,273,704.96 in
    checking and nothing in savings, a transfer of 0.01 to savings is
    accepted; savings becomes 0.01 and checking stays as it was, which is
    not the balance less one cent. *)
Lemma transfer_creates_a_cent :
  let s := setAmountInput "0.01" (setTransferDirection checkingToSavings
             (openModal transfer large_balance)) in
  let s' := onConfirmTransfer demo_env s in
  checkingBalance (data s) = cents 4503599627370496 /\
  savingsBalance (data s) = cents 0 /\
  parseAmount (amountInput s) = Some (cents 1) /\
  (cents 1 <=? checkingBalance (data s))%float = true /\
  modalError s' = None /\
  checkingBalance (data s') = cents 4503599627370496 /\
  savingsBalance (data s') = cents 1 /\
  cents 4503599627370496 <> cents (4503599627370496 - 1).
Proof.
  repeat split; try (vm_compute; reflexivity).
  vm_compute. intros H. discriminate H.
Qed.

(** C1, amended.  Below [2 ^ 45] cents, with [c] cents in checking, [v]
    cents in savings and a parsed amount of [x] cents: a transfer to
    savings with [x <= c] sets checking to [c - x] cents and savings to
    [v + x] cents, and puts the transaction "Transfer to Savings", with
    the amount negated, category Transfer, scope both, at the front of the
    history; a transfer to checking with [x <= v] sets savings to [v - x]
    cents, checking to [c + x] cents and puts "Transfer to Checking", with
    the amount, at the front.  The goal is left as it was, the history
    keeps its first 25 entries and the dialog is closed with no error. *)
Theorem transfer_moves_funds (env : Env) (s : State) (c v x : Z) :
  checkingBalance (data s) = cents c ->
  savingsBalance (data s) = cents v ->
  parseAmount (amountInput s) = Some (cents x) ->
  0 <= c < 2 ^ 45 -> 0 <= v < 2 ^ 45 -> 0 <= x < 2 ^ 45 ->
  (transferDirection s = checkingToSavings -> x <= c ->
   transferred s (onConfirmTransfer env s)
     (cents (c - x)) (cents (v + x)) (to_savings_tx env (cents x))) /\
  (transferDirection s = savingsToChecking -> x <= v ->
   transferred s (onConfirmTransfer env s)
     (cents (c + x)) (cents (v - x)) (to_checking_tx env (cents x))).
Proof.
  intros Hc Hv Hparse Bc Bv Bx. unfold onConfirmTransfer. rewrite Hparse.
  split; intros Hdir Hle; rewrite Hdir, ?Hc, ?Hv.
  - rewrite (cents_ltb c x Bc Bx), (proj2 (Z.ltb_ge c x) Hle).
    unfold transferred. cbn -[round2 cents take Z.pow].
    rewrite Hc, Hv, cents_sub, cents_add by lia. repeat split; reflexivity.
  - rewrite (cents_ltb v x Bv Bx), (proj2 (Z.ltb_ge v x) Hle).
    unfold transferred. cbn -[round2 cents take Z.pow].
    rewrite Hc, Hv, cents_sub, cents_add by lia. repeat split; reflexivity.
Qed.

Lemma transfer_moves_funds_witness :
  let s := demo_transfer checkingToSavings "200" in
  transferred s (onConfirmTransfer demo_env s)
    (cents 30000) (cents 120000) (to_savings_tx demo_env (cents 20000)).
Proof.
  refine (proj1 (transfer_moves_funds demo_env (demo_transfer checkingToSavings "200")
                   50000 100000 20000 _ _ _ _ _ _) _ _);
    try (vm_compute; reflexivity); lia.
Defined.

(** X3.  Below [2 ^ 45] cents, with [v] cents in savings and a parsed
    amount of [x] cents: adding money sets savings to [v + x] cents and
    records "Add Money to Savings" with the amount; setting the goal
    changes no balance, makes the amount the goal and records "Set savings
    goal" with 0; editing a balance sets it to the amount and records
    "Balance correction" with what the subtraction of the balance the
    dialog was opened on from the amount gives, which is not rounded. *)
Theorem deposit_goal_and_corrections (env : Env) (s : State) (v x : Z) :
  savingsBalance (data s) = cents v ->
  parseAmount (amountInput s) = Some (cents x) ->
  0 <= v < 2 ^ 45 -> 0 <= x < 2 ^ 45 ->
  let d := data s in
  data (onConfirmAddMoney env s)
  = {| checkingBalance := checkingBalance d;
       savingsBalance := cents (v + x);
       savingsGoal := savingsGoal d;
       transactions := take 25 (recorded env "Add Money to Savings" (cents x) "Income" savings
                                  :: transactions d) |} /\
  data (onConfirmSetGoal env s)
  = {| checkingBalance := checkingBalance d;
       savingsBalance := savingsBalance d;
       savingsGoal := Some (cents x);
       transactions := take 25 (recorded env "Set savings goal" 0 "Goal" savings
                                  :: transactions d) |} /\
  data (onConfirmEditChecking env s)
  = {| checkingBalance := cents x;
       savingsBalance := savingsBalance d;
       savingsGoal := savingsGoal d;
       transactions := take 25 (recorded env "Balance correction"
                                  (cents x - checkingBalance d) "Adjustment" checking
                                  :: transactions d) |} /\
  data (onConfirmEditSavings env s)
  = {| checkingBalance := checkingBalance d;
       savingsBalance := cents x;
       savingsGoal := savingsGoal d;
       transactions := take 25 (recorded env "Balance correction"
                                  (cents x - savingsBalance d) "Adjustment" savings
                                  :: transactions d) |}.
Proof.
  intros Hv Hparse Bv Bx d. subst d.
  unfold onConfirmAddMoney, onConfirmSetGoal, onConfirmEditChecking, onConfirmEditSavings.
  rewrite Hparse. split; [| repeat split].
  cbn -[round2 cents take Z.pow]. rewrite Hv, (cents_add v x Bv Bx). reflexivity.
Qed.

Lemma deposit_goal_and_corrections_witness :
  savingsBalance (data (onConfirmAddMoney demo_env
     (setAmountInput "1,250.50" (openModal addMoney
        (setData (fun _ => demo_ledger) (initialState ∅))))))
  = cents 225050.
Proof.
  exact (f_equal savingsBalance (proj1 (deposit_goal_and_corrections demo_env
     (setAmountInput "1,250.50" (openModal addMoney
        (setData (fun _ => demo_ledger) (initialState ∅))))
     100000 125050 ltac:(vm_compute; reflexivity) ltac:(vm_compute; reflexivity)
     ltac:(lia) ltac:(lia)))).
Defined.

(** X24.  Below [2 ^ 45] cents the balances are exact: when the two
    balances and the amount of an operation are whole numbers of cents,
    the operation leaves the balances the ledger in integer cents gives:
    a debit is accepted exactly when the cents suffice, the rounding of
    every new balance gives the exact sum or difference, and a transfer
    keeps the total. *)
Theorem ledger_is_exact_in_cents (env : Env) (a : Action) (s : State) (c v x : Z) :
  checkingBalance (data s) = cents c ->
  savingsBalance (data s) = cents v ->
  parseAmount (amount_text a) = Some (cents x) ->
  0 <= c < 2 ^ 45 -> 0 <= v < 2 ^ 45 -> 0 <= x < 2 ^ 45 ->
  checkingBalance (data (perform env a s)) = cents (fst (cents_after a x c v)) /\
  savingsBalance (data (perform env a s)) = cents (snd (cents_after a x c v)) /\
  (forall direction raw, a = Transfer direction raw ->
     fst (cents_after a x c v) + snd (cents_after a x c v) = c + v).
Proof.
  intros Hc Hv Hx Bc Bv Bx. rewrite !perform_data.
  pose proof (cents_ltb c x Bc Bx) as Lc. pose proof (cents_ltb v x Bv Bx) as Lv.
  destruct a as [[] raw|desc raw|raw|raw|raw|raw]; simpl in Hx;
    unfold handle, onConfirmTransfer, onConfirmPayBills, onConfirmAddMoney,
           onConfirmSetGoal, onConfirmEditChecking, onConfirmEditSavings;
    cbn -[parseAmount round2 cents take trim Z.pow]; rewrite ?Hx, ?Hc, ?Hv, ?Lc, ?Lv;
    cbn -[parseAmount round2 cents take trim Z.pow].
  - rewrite (Z.ltb_antisym x c). destruct (Z.leb_spec x c) as [H|H]; cbn -[round2 cents Z.pow].
    + rewrite Hc, Hv, cents_sub, cents_add by lia.
      repeat split; try discriminate; try (intros; lia).
    + rewrite Hc, Hv. repeat split; try discriminate; try (intros; lia).
  - rewrite (Z.ltb_antisym x v). destruct (Z.leb_spec x v) as [H|H]; cbn -[round2 cents Z.pow].
    + rewrite Hc, Hv, cents_sub, cents_add by lia.
      repeat split; try discriminate; try (intros; lia).
    + rewrite Hc, Hv. repeat split; try discriminate; try (intros; lia).
  - destruct (truthy (trim desc)); cbn -[round2 cents Z.pow trim].
    + rewrite (Z.ltb_antisym x c).
      destruct (Z.leb_spec x c) as [H|H]; cbn -[round2 cents Z.pow trim].
      * rewrite Hc, Hv, cents_sub by lia. repeat split; try discriminate; try (intros; lia).
      * rewrite Hc, Hv. repeat split; try discriminate; try (intros; lia).
    + rewrite Hc, Hv. repeat split; try discriminate; try (intros; lia).
  - rewrite Hc, Hv, cents_add by lia. repeat split; try discriminate; try (intros; lia).
  - rewrite Hc, Hv. repeat split; try discriminate; try (intros; lia).
  - rewrite Hv. repeat split; try discriminate; try (intros; lia).
  - rewrite Hc. repeat split; try discriminate; try (intros; lia).
Qed.

Lemma ledger_is_exact_in_cents_witness :
  let s := perform demo_env (EditChecking "1,000.10") (initialState ∅) in
  let s' := perform demo_env (Transfer checkingToSavings "0.30") s in
  checkingBalance (data s') = cents 99980 /\ savingsBalance (data s') = cents 30.
Proof.
  intros s s'.
  destruct (ledger_is_exact_in_cents demo_env (Transfer checkingToSavings "0.30") s
              100010 0 30) as (H1 & H2 & _);
    try (vm_compute; reflexivity); try lia.
  split; [exact H1 | exact H2].
Defined.

Section LedgerInCents.

Lemma cents_after_bounds (a : Action) (x c v : Z) :
  0 <= x -> 0 <= c -> 0 <= v ->
  0 <= fst (cents_after a x c v) /\ 0 <= snd (cents_after a x c v) /\
  fst (cents_after a x c v) + snd (cents_after a x c v) <= c + v + x.
Proof.
  intros Hx Hc Hv.
  destruct a as [[] raw|desc raw|raw|raw|raw|raw]; simpl;
    try destruct (truthy (trim desc)); simpl;
    try destruct (Z.leb_spec x c); try destruct (Z.leb_spec x v); simpl; lia.
Qed.

Lemma run_cents (steps : list (Env * Action)) (xs : list Z) :
  Forall2 amount_in_cents steps xs ->
  forall (s : State) (c v : Z),
    checkingBalance (data s) = cents c -> savingsBalance (data s) = cents v ->
    0 <= c -> 0 <= v -> c + v + total_cents xs < 2 ^ 45 ->
    let cv := cents_run steps xs (c, v) in
    checkingBalance (data (run steps s)) = cents (fst cv) /\
    savingsBalance (data (run steps s)) = cents (snd cv) /\
    0 <= fst cv /\ 0 <= snd cv /\ fst cv + snd cv <= c + v + total_cents xs.
Proof.
  induction 1 as [|[env a] x steps xs [Hx Hx0] Hrest IH]; intros s c v Hc Hv Bc Bv Bt.
  - unfold total_cents in *. simpl in *. repeat split; try assumption; lia.
  - change (total_cents (x :: xs)) with (x + total_cents xs) in *.
    assert (Ht : 0 <= total_cents xs).
    { clear - Hrest. induction Hrest as [|st y l l' [_ Hy] _ IHl];
        [unfold total_cents; simpl; lia|].
      change (total_cents (y :: l')) with (y + total_cents l'). lia. }
    destruct (ledger_is_exact_in_cents env a s c v x Hc Hv Hx) as (Hc' & Hv' & _); try lia.
    destruct (cents_after_bounds a x c v Hx0 Bc Bv) as (B1 & B2 & B3).
    simpl run. simpl cents_run.
    destruct (cents_after a x c v) as [c' v']. simpl in Hc', Hv', B1, B2, B3.
    destruct (IH (perform env a s) c' v' Hc' Hv' B1 B2 ltac:(lia)) as (R1 & R2 & R3 & R4 & R5).
    repeat split; try assumption. lia.
Qed.

End LedgerInCents.

(** X25.  From the empty ledger, along a sequence of operations whose
    amounts are whole numbers of cents that add up to less than [2 ^ 45]
    cents, the two balances are exactly those of the ledger in integer
    cents: the roundings never lose or create a cent. *)
Theorem balances_are_exact_in_cents
    (storage : gmap string string) (steps : list (Env * Action)) (xs : list Z) :
  Forall2 amount_in_cents steps xs ->
  total_cents xs < 2 ^ 45 ->
  let s := run steps (initialState storage) in
  checkingBalance (data s) = cents (fst (cents_run steps xs (0, 0))) /\
  savingsBalance (data s) = cents (snd (cents_run steps xs (0, 0))).
Proof.
  intros Hsteps Htotal s.
  destruct (run_cents steps xs Hsteps (initialState storage) 0 0) as (H1 & H2 & _);
    try reflexivity; try lia.
  split; assumption.
Qed.

Lemma balances_are_exact_in_cents_witness :
  let steps := [(demo_env, AddMoney "0.10"); (demo_env, AddMoney "0.20");
                (demo_env, Transfer savingsToChecking "0.30");
                (demo_env, PayBills "Water" "0.07")] in
  let s := run steps (initialState ∅) in
  checkingBalance (data s) = cents 23 /\ savingsBalance (data s) = cents 0.
Proof.
  intros steps s.
  apply (balances_are_exact_in_cents ∅ steps [10; 20; 30; 7]).
  - repeat (constructor; [split; [vm_compute; reflexivity | lia]|]). constructor.
  - vm_compute. reflexivity.
Defined.

(** X26.  Every finite amount that [parseAmount] accepts is a whole
    number of cents: the only accepted amount that the ledger in cents
    leaves out is [Infinity]. *)
Theorem accepted_amount_is_cents (raw : string) (X : number) :
  parseAmount raw = Some X -> is_finite X = true ->
  exists x, 0 <= x /\ X = cents x.
Proof.
  unfold parseAmount, Number_isFinite.
  set (n := parseFloat (trim (remove_commas raw))).
  destruct (is_finite n) eqn:Hfin; [| discriminate].
  destruct (n <=? 0)%float eqn:Hle; [discriminate|]. simpl. intros [= <-] HX.
  assert (Hn : exists m e, Prim2SF n = S754_finite false m e).
  { rewrite is_finite_spec in Hfin. rewrite FloatAxioms.leb_spec in Hle.
    change (Prim2SF 0) with (S754_zero false) in Hle.
    destruct (Prim2SF n) as [s|s| |[] m e]; try discriminate; eauto. }
  destruct Hn as (m & e & Hn).
  assert (Hshape : signed_as false (Prim2SF (n * 100))).
  { rewrite mul_spec, Hn.
    change (Prim2SF 100) with (S754_finite false 7036874417766400 (-46)).
    apply binary_round_aux_shape. lia. }
  unfold round2, cents, Math_round in *.
  destruct (Prim2SF (n * 100)) as [s|s| |s mp ep] eqn:Hp; simpl in Hshape; subst; try tauto.
  - exists 0. split; [lia|]. rewrite (zero_of_spec _ false Hp). reflexivity.
  - exfalso. rewrite (infinity_of_spec _ false Hp) in HX. vm_compute in HX. discriminate HX.
  - exists (nearest_integer false mp ep). split; [apply nearest_integer_sign | reflexivity].
Qed.

Lemma accepted_amount_is_cents_witness :
  exists x, 0 <= x /\ round2 (parseFloat "1250.755") = cents x.
Proof.
  apply (accepted_amount_is_cents "1,250.755"); vm_compute; reflexivity.
Defined.

(** ** The amounts typed *)

Section TypedAmounts.

Import Rbase Rfunctions Rbasic_fun Lra.

Lemma digit_code (c : ascii) : is_digit c = true -> 48 <= code c <= 57.
Proof. unfold is_digit. intros H. apply andb_prop in H as [H1 H2]. lia. Qed.

Lemma digit_no_space (c : ascii) : is_digit c = true -> is_space c = false.
Proof.
  intros H. apply digit_code in H. unfold is_space.
  repeat match goal with
         | |- context [?a <=? ?b] => destruct (Z.leb_spec a b)
         | |- context [?a =? ?b] => destruct (Z.eqb_spec a b)
         end; simpl; try reflexivity; lia.
Qed.

Lemma digits_app (ip rest : list ascii) :
  all_digits ip ->
  match rest with [] => True | c :: _ => is_digit c = false end ->
  digits (ip ++ rest) = (ip, rest).
Proof.
  intros Hip Hrest. induction Hip as [|c ip Hc _ IH]; simpl.
  - destruct rest as [|c r]; [reflexivity|]. simpl. rewrite Hrest. reflexivity.
  - rewrite Hc, IH. reflexivity.
Qed.

Lemma no_Infinity (c : ascii) (l : list ascii) :
  is_digit c = true -> starts_with Infinity_word (c :: l) = None.
Proof.
  intros H. apply digit_code in H. unfold Infinity_word.
  change (chars "Infinity") with ("I"%char :: chars "nfinity").
  cbn [starts_with]. change (code "I") with 73.
  destruct (Z.eqb_spec 73 (code c)); [lia | reflexivity].
Qed.

(** The literal read from [digits . digits] and from [digits]. *)
Lemma unsigned_literal_decimal (ip fp : list ascii) :
  ip <> [] -> all_digits ip -> all_digits fp ->
  unsigned_literal (ip ++ "."%char :: fp)
  = Some (LitDecimal (digits_value (ip ++ fp)) (- Z.of_nat (List.length fp)), []).
Proof.
  intros Hne Hip Hfp. unfold unsigned_literal.
  destruct ip as [|c ip]; [contradiction|].
  rewrite <- app_comm_cons, no_Infinity by (inversion Hip; assumption).
  rewrite app_comm_cons, digits_app by (assumption || reflexivity).
  change (code "." =? 46) with true. cbv iota.
  rewrite <- (app_nil_r fp) at 1. rewrite digits_app by (assumption || exact I).
  reflexivity.
Qed.

Lemma unsigned_literal_integer (ip : list ascii) :
  ip <> [] -> all_digits ip ->
  unsigned_literal ip = Some (LitDecimal (digits_value ip) 0, []).
Proof.
  intros Hne Hip. unfold unsigned_literal.
  destruct ip as [|c ip]; [contradiction|].
  rewrite no_Infinity by (inversion Hip; assumption).
  rewrite <- (app_nil_r (c :: ip)) at 1. rewrite digits_app by (assumption || exact I).
  reflexivity.
Qed.

Lemma trimStart_head (c : ascii) (l : list ascii) :
  is_space c = false -> trimStart (c :: l) = c :: l.
Proof. intros H. simpl. rewrite H. reflexivity. Qed.

Lemma filter_all {A : Type} (f : A -> bool) (l : list A) :
  Forall (fun c => f c = true) l -> List.filter f l = l.
Proof.
  induction 1 as [|c l Hc _ IH]; simpl; [reflexivity|]. rewrite Hc, IH. reflexivity.
Qed.

(** A text without white space is left as it is by [trim]. *)
Lemma trim_no_space (l : list ascii) :
  Forall (fun c => is_space c = false) l -> trimEnd (trimStart l) = l.
Proof.
  intros Hl.
  assert (Hstart : forall l', Forall (fun c => is_space c = false) l' -> trimStart l' = l').
  { intros [|c l'] H; [reflexivity|]. apply trimStart_head. inversion H; assumption. }
  rewrite (Hstart l Hl). unfold trimEnd.
  rewrite Hstart by (apply Forall_rev; exact Hl). apply rev_involutive.
Qed.

End TypedAmounts.

Section LiteralValues.

Import Rbase Rfunctions Rbasic_fun Lra.
Local Open Scope R_scope.

Abbreviation p2 := (powerRZ 2).

Lemma val_integer (p : positive) : val p 0 = IZR (Z.pos p).
Proof. unfold val. simpl. ring. Qed.

(** The number of a decimal literal of at most two decimals is within
    [2 ^ -10] of its value. *)
Lemma decimal_value_cents (p : positive) (j : Z) :
  (0 <= j <= 2)%Z -> (Z.pos p * 10 ^ (2 - j) < 2 ^ 45)%Z ->
  exists (m : positive) (e : Z),
    Prim2SF (SF2Prim (decimal_value false (Z.pos p) (- j))) = S754_finite false m e /\
    normal m e /\
    Rabs (val m e - IZR (Z.pos p * 10 ^ (2 - j)) / 100) <= / 1024.
Proof.
  intros Hj Hk.
  assert (Hp : (Z.pos p < 2 ^ 45)%Z).
  { assert (1 <= 10 ^ (2 - j))%Z by (pose proof (Z.pow_pos_nonneg 10 (2 - j)); lia). nia. }
  pose proof (digits2_pos_bounds p) as [Dlo Dhi].
  assert (Hd : (0 < Z.pos (digits2_pos p) <= 45)%Z).
  { split; [lia|]. apply (digits2_pos_range p 0); lia. }
  assert (Hp1 : 1 <= IZR (Z.pos p)) by (apply (IZR_le 1); lia).
  assert (Hp2 : IZR (Z.pos p) <= 35184372088832) by (apply (IZR_le _ (2 ^ 45)); lia).
  pose proof eps_53 as Heps. remember (p2 (-53)) as eps eqn:Heqeps.
  assert (He0 : 0 < eps) by (subst eps; apply p2_pos).
  assert (Hpe : IZR (Z.pos p) * eps <= 35184372088832 * eps)
    by (apply Rmult_le_compat_r; lra).
  assert (Hj' : j = 0%Z \/ j = 1%Z \/ j = 2%Z) by lia.
  destruct Hj' as [-> | [-> | ->]].
  - change (decimal_value false (Z.pos p) (- 0))
      with (binary_normalize prec emax (Z.pos p * 1) 0 false).
    rewrite Z.mul_1_r.
    destruct (normalize_exact p ltac:(lia)) as (n & e & Hr & Hn & Hv).
    exists n, e. rewrite Hr, Prim2SF_SF2Prim by (apply (normal_bounded n e), Hn).
    split; [reflexivity|]. split; [exact Hn|].
    rewrite Hv. change (10 ^ (2 - 0))%Z with 100%Z. rewrite mult_IZR.
    replace (IZR (Z.pos p) - IZR (Z.pos p) * 100 / 100) with 0 by (field; lra).
    rewrite Rabs_R0. lra.
  - change (decimal_value false (Z.pos p) (- (1)))
      with (SF64div (S754_finite false p 0) (S754_finite false 10 0)).
    destruct (SFdiv_near_any p 10 0 0) as (n & e & Hr & Hn & Herr);
      [change (Z.pos (digits2_pos 10)) with 4%Z; lia
      |change (Z.pos (digits2_pos 10)) with 4%Z; lia|].
    exists n, e. rewrite Hr, Prim2SF_SF2Prim by (apply (normal_bounded n e), Hn).
    split; [reflexivity|]. split; [exact Hn|].
    rewrite !val_integer in Herr. rewrite <- Heqeps in Herr.
    change (10 ^ (2 - 1))%Z with 10%Z. rewrite mult_IZR.
    replace (IZR (Z.pos p) * 10 / 100) with (IZR (Z.pos p) / 10) by (field; lra).
    eapply Rle_trans; [exact Herr|]. lra.
  - change (decimal_value false (Z.pos p) (- (2)))
      with (SF64div (S754_finite false p 0) (S754_finite false 100 0)).
    destruct (SFdiv_near_any p 100 0 0) as (n & e & Hr & Hn & Herr);
      [change (Z.pos (digits2_pos 100)) with 7%Z; lia
      |change (Z.pos (digits2_pos 100)) with 7%Z; lia|].
    exists n, e. rewrite Hr, Prim2SF_SF2Prim by (apply (normal_bounded n e), Hn).
    split; [reflexivity|]. split; [exact Hn|].
    rewrite !val_integer in Herr. rewrite <- Heqeps in Herr.
    change (10 ^ (2 - 2))%Z with 1%Z. rewrite Z.mul_1_r.
    eapply Rle_trans; [exact Herr|]. lra.
Qed.

(** The amount of a text that, its commas aside, is a literal of at
    most two decimals. *)
Lemma literal_amount (raw : string) (c : ascii) (l : list ascii) (M j : Z) :
  without_commas raw = c :: l ->
  Forall (fun c => is_space c = false) (c :: l) -> is_digit c = true ->
  unsigned_literal (c :: l) = Some (LitDecimal M (- j), []) ->
  (0 <= j <= 2)%Z -> (0 < M * 10 ^ (2 - j) < 2 ^ 45)%Z ->
  parseAmount raw = Some (cents (M * 10 ^ (2 - j))).
Proof.
  intros Hraw Hl Hc Hlit Hj Hk.
  assert (HM : (0 < M)%Z).
  { destruct (Z.lt_trichotomy 0 M) as [H|[H|H]]; [exact H | subst M; simpl in Hk; lia |].
    pose proof (Z.pow_pos_nonneg 10 (2 - j)). nia. }
  destruct M as [|p|p]; try lia.
  destruct (decimal_value_cents p j Hj ltac:(lia)) as (m & e & Hm & Hn & Herr).
  unfold parseAmount.
  assert (Hclean : trim (remove_commas raw) = text (c :: l)).
  { unfold trim, remove_commas. fold (without_commas raw). rewrite Hraw, chars_text.
    rewrite trim_no_space by exact Hl. reflexivity. }
  rewrite Hclean.
  assert (Hn0 : parseFloat (text (c :: l)) = SF2Prim (decimal_value false (Z.pos p) (- j))).
  { unfold parseFloat. rewrite chars_text, trimStart_head by (inversion Hl; assumption).
    pose proof (digit_code c Hc) as Hcode. unfold sign.
    destruct (Z.eqb_spec (code c) 45); [lia|]. destruct (Z.eqb_spec (code c) 43); [lia|].
    rewrite Hlit. reflexivity. }
  rewrite Hn0. unfold Number_isFinite. rewrite is_finite_spec, FloatAxioms.leb_spec, Hm.
  change (Prim2SF 0) with (S754_zero false). simpl.
  f_equal. apply (round2_exact _ m e); [exact Hm | exact Hn | lia | exact Herr].
Qed.

End LiteralValues.

(** X27.  A text that, its commas aside, is a run of digits, or a run
    of digits, a point and at most two digits, is accepted as the amount
    of exactly that many cents, below [2 ^ 45] cents: the amount typed is
    the amount booked. *)
Theorem typed_amount_is_cents (raw : string) (ip fp : list ascii) :
  ip <> [] -> all_digits ip -> all_digits fp -> (List.length fp <= 2)%nat ->
  without_commas raw = ip ++ "."%char :: fp \/ (fp = [] /\ without_commas raw = ip) ->
  let k := digits_value (ip ++ fp) * 10 ^ (2 - Z.of_nat (List.length fp)) in
  0 < k < 2 ^ 45 ->
  parseAmount raw = Some (cents k).
Proof.
  intros Hne Hip Hfp Hlen Hraw k Hk. subst k.
  destruct ip as [|c ip]; [contradiction|].
  assert (Hc : is_digit c = true) by (inversion Hip; assumption).
  assert (Hsp : forall l, all_digits l -> Forall (fun c => is_space c = false) l).
  { intros l Hl. eapply Forall_impl; [exact Hl|]. intros a Ha. apply digit_no_space, Ha. }
  destruct Hraw as [Hraw|[-> Hraw]].
  - rewrite <- app_comm_cons in Hraw.
    apply (literal_amount raw c (ip ++ "."%char :: fp) _ (Z.of_nat (List.length fp)) Hraw).
    + rewrite app_comm_cons. apply Forall_app. split; [apply Hsp, Hip|].
      constructor; [reflexivity | apply Hsp, Hfp].
    + exact Hc.
    + rewrite app_comm_cons. apply unsigned_literal_decimal; assumption.
    + lia.
    + exact Hk.
  - rewrite app_nil_r in *. simpl List.length in Hk. simpl List.length.
    apply (literal_amount raw c ip _ 0 Hraw).
    + apply Hsp, Hip.
    + exact Hc.
    + apply unsigned_literal_integer; assumption.
    + lia.
    + exact Hk.
Qed.

Lemma typed_amount_is_cents_witness : parseAmount "1,250.75" = Some (cents 125075).
Proof.
  apply (typed_amount_is_cents "1,250.75" (chars "1250") (chars "75")).
  - discriminate.
  - repeat constructor.
  - repeat constructor.
  - simpl. lia.
  - left. reflexivity.
  - vm_compute. split; reflexivity.
Defined.
